(** * Tree-of-Thoughts agent: the oracle boundary, the response extractor
      and the logging sink

    A shallow embedding of the Python sources

    - [utils/parsing.py]                       ([extract_thoughts],
                                                [extract_xml]),
    - [tota_core/llm_interaction.py]           ([LLMInteraction.call_llm]),
    - [tota_core/function_implementations.py]  ([FunctionImplementations]),
    - [main.py]                                ([run_tota_agent], [main]),

    together with the properties the specification states about them,
    and further properties of the code: the matcher is complete, so
    that what the extractor finds is characterised without patterns;
    the effects and the outcomes of [call_llm] against every client;
    the log file, its path and its header.

    Conventions.  A Python [str] is a [string]; its characters are read
    as the code points U+0000..U+00FF.  A Python [dict] is an association
    list in insertion order.  A [float] is a [spec_float] (IEEE 754
    binary64 values).  A call that may raise returns a [pyresult].
    Clock readings, the model endpoint and the log file are explicit
    arguments and results; calls of the logger are left out.  Builtins
    whose text depends on more than the sources show ([str.format],
    [json.loads], [repr] of floats and containers) are section
    variables.

    Layout: the embedding first (one module per source file, after the
    modules for strings, patterns and values), then the lemmas about it
    and the theorems. *)

From Stdlib Require Import String Ascii List Bool Arith NArith ZArith Lia.
From Stdlib Require Import DecimalString DecimalN SpecFloat FinFun.
From Stdlib Require Import Sorted Permutation.
Import ListNotations.
Local Open Scope string_scope.
Local Open Scope list_scope.

(* ===================================================================== *)
(** * Python strings *)
(* ===================================================================== *)

Module PyStr.

(** The line feed, written [\n] in the sources. *)
Definition LF : ascii := ascii_of_nat 10.
Definition nl : string := String LF EmptyString.

(** [str.isdigit] restricted to what [\d] accepts below U+0100. *)
Definition isdigit (c : ascii) : bool :=
  let n := nat_of_ascii c in ((48 <=? n) && (n <=? 57))%nat.

(** [str.isspace] / [\s] below U+0100: TAB..CR, FS..US, SPACE, NEL, NBSP. *)
Definition isspace (c : ascii) : bool :=
  let n := nat_of_ascii c in
  (((9 <=? n) && (n <=? 13)) || ((28 <=? n) && (n <=? 32))
   || (n =? 133) || (n =? 160))%nat.

Fixpoint lstrip (s : string) : string :=
  match s with
  | String c s' => if isspace c then lstrip s' else s
  | EmptyString => s
  end.

(** [s.rstrip(chars)]: drops the longest suffix made of characters that
    satisfy [p]. *)
Fixpoint rstrip_by (p : ascii -> bool) (s : string) : string :=
  match s with
  | String c s' =>
      match rstrip_by p s' with
      | EmptyString => if p c then EmptyString else String c EmptyString
      | t => String c t
      end
  | EmptyString => EmptyString
  end.

Definition rstrip (s : string) : string := rstrip_by isspace s.

Definition strip (s : string) : string := rstrip (lstrip s).

Fixpoint take (n : nat) (s : string) : string :=
  match n, s with
  | S n', String c s' => String c (take n' s')
  | _, _ => EmptyString
  end.

Fixpoint drop (n : nat) (s : string) : string :=
  match n, s with
  | S n', String _ s' => drop n' s'
  | _, _ => s
  end.

Fixpoint all_chars (p : ascii -> bool) (s : string) : bool :=
  match s with
  | String c s' => p c && all_chars p s'
  | EmptyString => true
  end.

(** [str(n)] for a non-negative [int]. *)
Definition str_of_N (n : N) : string :=
  NilEmpty.string_of_uint (N.to_uint n).

(** [sys.int_info.default_max_str_digits]: CPython refuses to convert a
    decimal text of more digits than this to an [int]. *)
Definition int_max_str_digits : nat := 4300.

(** [int(s)] on the texts the extractor hands to it.  A non-empty run of
    at most [int_max_str_digits] decimal digits converts; every other
    text is reported as the [ValueError] case (Python accepts a few more
    spellings, signs and surrounding blanks, which never reach this
    call). *)
Definition int_of_str (s : string) : option N :=
  match s with
  | EmptyString => None
  | _ =>
      if (String.length s <=? int_max_str_digits)%nat
      then option_map N.of_uint (NilEmpty.uint_of_string s)
      else None
  end.

End PyStr.
Import PyStr.

(* ===================================================================== *)
(** * The fragment of [re] the sources use *)
(* ===================================================================== *)

Module Re.

(** Character classes. *)
Inductive cls : Type :=
| CAny                    (* [.] under re.DOTALL *)
| CNoLF                   (* [.] without re.DOTALL: all but the line feed *)
| CDigit                  (* [\d] *)
| CSpace                  (* [\s] *)
| CChar (c : ascii)       (* one literal character *)
| COneOf (s : string).    (* [[...]] *)

Fixpoint mem_string (a : ascii) (s : string) : bool :=
  match s with
  | String c s' => Ascii.eqb a c || mem_string a s'
  | EmptyString => false
  end.

Definition cls_mem (c : cls) (a : ascii) : bool :=
  match c with
  | CAny => true
  | CNoLF => negb (Ascii.eqb a LF)
  | CDigit => isdigit a
  | CSpace => isspace a
  | CChar b => Ascii.eqb a b
  | COneOf s => mem_string a s
  end.

(** Patterns.  Repetition is over a character class, as in every pattern
    of the sources; [RRep true] is the greedy [c{min,}], [RRep false] the
    lazy [c{min,}?]. *)
Inductive regex : Type :=
| REps
| RChar (c : cls)
| RBol                                   (* [^], no re.MULTILINE *)
| REos                                   (* [\Z] *)
| RSeq (r1 r2 : regex)
| RAlt (r1 r2 : regex)
| RRep (greedy : bool) (min : nat) (c : cls)
| RGroup (n : nat) (r : regex)           (* capturing group number n *)
| RAhead (r : regex).                    (* [(?=...)] *)

Fixpoint lit (s : string) : regex :=
  match s with
  | String c s' => RSeq (RChar (CChar c)) (lit s')
  | EmptyString => REps
  end.

(** Matcher state: characters consumed so far, the text still ahead, and
    the groups closed so far (most recent first). *)
Record mstate : Type := MState {
  ms_pos : nat;
  ms_rest : string;
  ms_caps : list (nat * string)
}.

Fixpoint cap_lookup (n : nat) (caps : list (nat * string)) : option string :=
  match caps with
  | (m, w) :: caps' => if (n =? m)%nat then Some w else cap_lookup n caps'
  | [] => None
  end.

Section Exec.
Context {A : Type}.

Definition or_else (x : option A) (y : unit -> option A) : option A :=
  match x with Some _ => x | None => y tt end.

(** Greedy [c{min,}]: take a character while possible, give back on
    failure. *)
Fixpoint rep_greedy (c : cls) (min : nat) (rest : string) (pos : nat)
    (k : nat -> string -> option A) : option A :=
  let stop := fun _ : unit => if (min =? 0)%nat then k pos rest else None in
  match rest with
  | String a rest' =>
      if cls_mem c a
      then or_else (rep_greedy c (pred min) rest' (S pos) k) stop
      else stop tt
  | EmptyString => stop tt
  end.

(** Lazy [c{min,}?]: stop as soon as the continuation accepts. *)
Fixpoint rep_lazy (c : cls) (min : nat) (rest : string) (pos : nat)
    (k : nat -> string -> option A) : option A :=
  or_else (if (min =? 0)%nat then k pos rest else None)
    (fun _ =>
       match rest with
       | String a rest' =>
           if cls_mem c a then rep_lazy c (pred min) rest' (S pos) k else None
       | EmptyString => None
       end).

End Exec.

(** Backtracking matcher in continuation-passing style: alternatives are
    tried left to right, and the first overall success wins. *)
Fixpoint exec (r : regex) (s : mstate) (k : mstate -> option mstate)
    : option mstate :=
  match r with
  | REps => k s
  | RChar c =>
      match ms_rest s with
      | String a rest' =>
          if cls_mem c a then k (MState (S (ms_pos s)) rest' (ms_caps s))
          else None
      | EmptyString => None
      end
  | RBol => if (ms_pos s =? 0)%nat then k s else None
  | REos => match ms_rest s with EmptyString => k s | _ => None end
  | RSeq r1 r2 => exec r1 s (fun s1 => exec r2 s1 k)
  | RAlt r1 r2 => or_else (exec r1 s k) (fun _ => exec r2 s k)
  | RRep g min c =>
      (if g then rep_greedy else rep_lazy) c min (ms_rest s) (ms_pos s)
        (fun pos rest => k (MState pos rest (ms_caps s)))
  | RGroup n r1 =>
      exec r1 s (fun s1 =>
        k (MState (ms_pos s1) (ms_rest s1)
             ((n, take (ms_pos s1 - ms_pos s) (ms_rest s)) :: ms_caps s1)))
  | RAhead r1 =>
      match exec r1 s Some with
      | Some s1 => k (MState (ms_pos s) (ms_rest s) (ms_caps s1))
      | None => None
      end
  end.

(** A match object: span and groups. *)
Record rmatch : Type := RMatch {
  m_start : nat;
  m_end : nat;
  m_caps : list (nat * string)
}.

(** [m.group(n)]; a group that took no part reads as the empty text, as
    in the tuples of [re.findall]. *)
Definition m_group (n : nat) (m : rmatch) : string :=
  match cap_lookup n (m_caps m) with Some w => w | None => "" end.

(** One attempt at position [pos]; with [must_advance] an empty match at
    [pos] is refused (the rule applied right after an empty match). *)
Definition match_at (r : regex) (rest : string) (pos : nat)
    (must_advance : bool) : option rmatch :=
  match exec r (MState pos rest [])
          (fun s' => if must_advance && (ms_pos s' =? pos)%nat then None
                     else Some s') with
  | Some s' => Some (RMatch pos (ms_pos s') (ms_caps s'))
  | None => None
  end.

(** The scanner behind [finditer]: leftmost matches, never overlapping.
    [skip] counts the characters of the current match still to step
    over. *)
Fixpoint scan (r : regex) (rest : string) (pos skip : nat) : list rmatch :=
  match skip with
  | S skip' =>
      match rest with
      | String _ rest' => scan r rest' (S pos) skip'
      | EmptyString => []
      end
  | 0 =>
      let next := fun sk =>
        match rest with
        | String _ rest' => scan r rest' (S pos) sk
        | EmptyString => []
        end in
      match match_at r rest pos false with
      | None => next 0
      | Some m =>
          if (m_end m =? pos)%nat then
            m :: match match_at r rest pos true with
                 | Some m' => m' :: next (m_end m' - pos - 1)
                 | None => next 0
                 end
          else m :: next (m_end m - pos - 1)
      end
  end.

Definition finditer (r : regex) (s : string) : list rmatch := scan r s 0 0.

(** [re.search]. *)
Definition search (r : regex) (s : string) : option rmatch :=
  match finditer r s with m :: _ => Some m | [] => None end.

(** [re.findall] for a pattern with two groups. *)
Definition findall2 (r : regex) (s : string) : list (string * string) :=
  map (fun m => (m_group 1 m, m_group 2 m)) (finditer r s).

(** First element of [re.split(r, s, maxsplit=1)]: the text before the
    first match, or all of it. *)
Definition split_head (r : regex) (s : string) : string :=
  match search r s with Some m => take (m_start m) s | None => s end.

(** [re.sub(r, '', s)]: the text outside the matches. *)
Fixpoint cut_spans (ms : list rmatch) (s : string) (pos : nat) : string :=
  match ms with
  | [] => s
  | m :: ms' =>
      take (m_start m - pos) s
      ++ cut_spans ms' (drop (m_end m - pos) s) (m_end m)
  end.

Definition sub_empty (r : regex) (s : string) : string :=
  cut_spans (finditer r s) s 0.

(** ** Reading of the patterns *)

(** What a successful run of [r] from [s] to [s'] consumed and recorded. *)
Fixpoint denote (r : regex) (s s' : mstate) : Prop :=
  match r with
  | REps => s' = s
  | RChar c =>
      exists a, ms_rest s = String a (ms_rest s') /\ cls_mem c a = true
                /\ ms_pos s' = S (ms_pos s) /\ ms_caps s' = ms_caps s
  | RBol => ms_pos s = 0 /\ s' = s
  | REos => ms_rest s = "" /\ s' = s
  | RSeq r1 r2 => exists s1, denote r1 s s1 /\ denote r2 s1 s'
  | RAlt r1 r2 => denote r1 s s' \/ denote r2 s s'
  | RRep _ min c =>
      exists w, min <= String.length w /\ all_chars (cls_mem c) w = true
                /\ ms_rest s = (w ++ ms_rest s')%string
                /\ ms_pos s' = ms_pos s + String.length w
                /\ ms_caps s' = ms_caps s
  | RGroup n r1 =>
      exists s1, denote r1 s s1
                 /\ s' = MState (ms_pos s1) (ms_rest s1)
                           ((n, take (ms_pos s1 - ms_pos s) (ms_rest s))
                              :: ms_caps s1)
  | RAhead r1 =>
      exists s1, denote r1 s s1
                 /\ s' = MState (ms_pos s) (ms_rest s) (ms_caps s1)
  end.

(** [reach rest pos rest' pos']: the scanner started at [(rest, pos)]
    can stand at [(rest', pos')]. *)
Definition reach (rest : string) (pos : nat) (rest' : string) (pos' : nat)
    : Prop :=
  exists pre, rest = (pre ++ rest')%string /\ pos' = pos + String.length pre.

(** The pattern has no capturing group. *)
Fixpoint groupless (r : regex) : bool :=
  match r with
  | RGroup _ _ => false
  | RSeq r1 r2 | RAlt r1 r2 => groupless r1 && groupless r2
  | RAhead r1 => groupless r1
  | REps | RChar _ | RBol | REos | RRep _ _ _ => true
  end.

(** A continuation whose failure does not depend on the groups recorded
    so far (no pattern of the sources refers back to a group). *)
Definition caps_blind (k : mstate -> option mstate) : Prop :=
  forall pos rest c1 c2,
    k (MState pos rest c1) = None -> k (MState pos rest c2) = None.

End Re.
Import Re.

Declare Scope regex_scope.
Delimit Scope regex_scope with re.
Infix ";;" := RSeq (at level 61, right associativity) : regex_scope.
Infix "<|>" := RAlt (at level 62, right associativity) : regex_scope.

(* ===================================================================== *)
(** * Python values, dictionaries and exceptions *)
(* ===================================================================== *)

Module Py.

(** The values that travel through the agent: what JSON and YAML
    documents decode to. *)
#[warnings="-register-all"]
Inductive pyval : Type :=
| PNone
| PBool (b : bool)
| PInt (z : Z)
| PFloat (f : spec_float)
| PStr (s : string)
| PList (l : list pyval)
| PDict (d : list (string * pyval)).

(** A [dict] with [str] keys, in insertion order, keys pairwise
    distinct. *)
Definition dict : Type := list (string * pyval).

(** [d.get(key)]. *)
Fixpoint dict_get (d : dict) (key : string) : option pyval :=
  match d with
  | (k, v) :: d' => if String.eqb k key then Some v else dict_get d' key
  | [] => None
  end.

(** [d.get(key, default)]. *)
Definition dict_get_default (d : dict) (key : string) (default : pyval)
    : pyval :=
  match dict_get d key with Some v => v | None => default end.

(** [key in d]. *)
Definition dict_mem (d : dict) (key : string) : bool :=
  match dict_get d key with Some _ => true | None => false end.

(** [d[key] = v]: overwrite in place, or append a new entry. *)
Fixpoint dict_set (d : dict) (key : string) (v : pyval) : dict :=
  match d with
  | (k, w) :: d' =>
      if String.eqb k key then (k, v) :: d' else (k, w) :: dict_set d' key v
  | [] => [(key, v)]
  end.

(** Truth value of an object, as tested by [if x:]. *)
Definition truthy (v : pyval) : bool :=
  match v with
  | PNone => false
  | PBool b => b
  | PInt z => negb (Z.eqb z 0)
  | PFloat (S754_zero _) => false
  | PFloat _ => true
  | PStr s => negb (String.eqb s "")
  | PList l => match l with [] => false | _ => true end
  | PDict d => match d with [] => false | _ => true end
  end.

(** Exception classes that occur, with the part of the class hierarchy
    the handlers test. *)
Inductive exn_class : Type :=
| ExcException            (* [Exception] itself *)
| ExcValueError
| ExcTypeError
| ExcJSONDecodeError      (* a [ValueError] *)
| ExcRequestException     (* [requests.exceptions.RequestException] *)
| ExcTimeoutError         (* the builtin [TimeoutError] *)
| ExcOther (name : string)        (* any further [Exception] subclass *)
| ExcBaseOnly (name : string).    (* [KeyboardInterrupt], [SystemExit], ... *)

Record exn : Type := Exn { exn_cls : exn_class; exn_msg : string }.

(** [isinstance(e, Exception)]. *)
Definition is_Exception (e : exn) : bool :=
  match exn_cls e with ExcBaseOnly _ => false | _ => true end.

Inductive pyresult (A : Type) : Type :=
| Return (a : A)
| Raise (e : exn).
Arguments Return {A} a.
Arguments Raise {A} e.

Definition bind {A B : Type} (x : pyresult A) (f : A -> pyresult B)
    : pyresult B :=
  match x with Return a => f a | Raise e => Raise e end.

End Py.
Import Py.

Notation "x <- c1 ;; c2" := (bind c1 (fun x => c2))
  (at level 61, c1 at next level, right associativity).

(* ===================================================================== *)
(** * utils/parsing.py *)
(* ===================================================================== *)

Module Parsing.

(** [r'(?:^|\n)(\d+)[.:]\s+(.*?)(?=\n*(?:\d+[.:]|\Z))'] *)
Definition numbered_pattern : regex :=
  ((RBol <|> RChar (CChar LF)) ;;
   RGroup 1 (RRep true 1 CDigit) ;;
   RChar (COneOf ".:") ;;
   RRep true 1 CSpace ;;
   RGroup 2 (RRep false 0 CAny) ;;
   RAhead (RRep true 0 (CChar LF) ;;
           ((RRep true 1 CDigit ;; RChar (COneOf ".:")) <|> REos)))%re.

Definition blank : cls := COneOf (String " " (String (ascii_of_nat 9) "")).

(** [r'(?:^|\n)Thought[ \t]+(\d+)[.:][ \t]+(.*?)(?=\n*(?:Thought[ \t]+\d+[.:]|\Z))'] *)
Definition thought_n_pattern : regex :=
  ((RBol <|> RChar (CChar LF)) ;;
   lit "Thought" ;;
   RRep true 1 blank ;;
   RGroup 1 (RRep true 1 CDigit) ;;
   RChar (COneOf ".:") ;;
   RRep true 1 blank ;;
   RGroup 2 (RRep false 0 CAny) ;;
   RAhead (RRep true 0 (CChar LF) ;;
           ((lit "Thought" ;; RRep true 1 blank ;; RRep true 1 CDigit ;;
             RChar (COneOf ".:")) <|> REos)))%re.

Definition thought_patterns : list regex :=
  [numbered_pattern; thought_n_pattern].

(** A pattern text, compiled with or without [re.DOTALL]; the flag
    decides what [.] accepts. *)
Definition pattern : Type := bool -> regex.

Definition dot (dotall : bool) : cls := if dotall then CAny else CNoLF.

(** [r'\*\*Rationale\*\*:\s*(.*?)(?=\n\n|\Z)'] and
    [r'Rationale:\s*(.*?)(?=\n\n|\Z)'] *)
Definition rationale_tail (dotall : bool) : regex :=
  (RRep true 0 CSpace ;;
   RGroup 1 (RRep false 0 (dot dotall)) ;;
   RAhead ((RChar (CChar LF) ;; RChar (CChar LF)) <|> REos))%re.

Definition rationale_patterns : list pattern :=
  [ (fun dotall => lit "**Rationale**:" ;; rationale_tail dotall)%re;
    (fun dotall => lit "Rationale:" ;; rationale_tail dotall)%re ].

(** [r'^\*\*Thought\*\*:\s*'] *)
Definition thought_label : regex :=
  (RBol ;; lit "**Thought**:" ;; RRep true 0 CSpace)%re.

(** The loop over [rationale_patterns]: the first pattern that
    [re.search] finds (with [re.DOTALL]) gives the rationale and ends the
    loop; the description is what [re.split] leaves before its own first
    match, and [re.split] is called without the flag. *)
Fixpoint split_rationale (ps : list pattern) (full_text : string)
    : string * string :=
  match ps with
  | [] => (full_text, "")
  | r_pattern :: ps' =>
      match search (r_pattern true) full_text with
      | Some r_match =>
          (strip (split_head (r_pattern false) full_text),
           strip (m_group 1 r_match))
      | None => split_rationale ps' full_text
      end
  end.

Definition thought_id_of (node_id : string) (thought_num : N) : string :=
  node_id ++ "-t" ++ str_of_N thought_num.

(** The [ValueError] of [int(s)]. *)
Definition int_error (s : string) : exn :=
  if (int_max_str_digits <? String.length s)%nat && all_chars isdigit s
  then Exn ExcValueError
         ("Exceeds the limit (4300 digits) for integer string conversion: "
          ++ "value has " ++ str_of_N (N.of_nat (String.length s))
          ++ " digits; use sys.set_int_max_str_digits() to increase the limit")
  else Exn ExcValueError
         ("invalid literal for int() with base 10: '" ++ s ++ "'").

(** Body of the inner loop: one thought per match. *)
Definition thought_of_match (node_id : string) (m : string * string)
    : pyresult dict :=
  match int_of_str (fst m) with
  | None => Raise (int_error (fst m))
  | Some thought_num =>
      let full_text := strip (snd m) in
      let '(thought_desc, rationale) :=
        split_rationale rationale_patterns full_text in
      let thought_desc := strip (sub_empty thought_label thought_desc) in
      Return [ ("thought_id", PStr (thought_id_of node_id thought_num));
               ("description", PStr thought_desc);
               ("generation_rationale", PStr rationale) ]
  end.

Fixpoint for_matches (node_id : string) (matches : list (string * string))
    (thoughts : list dict) : pyresult (list dict) :=
  match matches with
  | [] => Return thoughts
  | m :: matches' =>
      t <- thought_of_match node_id m ;;
      for_matches node_id matches' (thoughts ++ [t])
  end.

Fixpoint for_patterns (node_id content : string) (patterns : list regex)
    (thoughts : list dict) : pyresult (list dict) :=
  match patterns with
  | [] => Return thoughts
  | pattern :: patterns' =>
      thoughts' <- for_matches node_id (findall2 pattern content) thoughts ;;
      for_patterns node_id content patterns' thoughts'
  end.

Definition extract_thoughts (content node_id : string)
    : pyresult (list dict) :=
  for_patterns node_id content thought_patterns [].

(** ** What the two thought patterns recognise *)

Fixpoint skip_while (p : ascii -> bool) (s : string) : string :=
  match s with
  | String c s' => if p c then skip_while p s' else s
  | EmptyString => s
  end.

Definition is_mark (c : ascii) : bool := mem_string c ".:".
Definition is_blank (c : ascii) : bool := cls_mem blank c.

(** [s] opens with a label: one or more digits, [.] or [:], and one
    character accepted by [sep]. *)
Definition label_at (sep : ascii -> bool) (s : string) : bool :=
  match s with
  | String c _ =>
      isdigit c &&
      match skip_while isdigit s with
      | String d (String b _) => is_mark d && sep b
      | _ => false
      end
  | EmptyString => false
  end.

Fixpoint strip_prefix (p s : string) : option string :=
  match p, s with
  | EmptyString, _ => Some s
  | String a p', String b s' =>
      if Ascii.eqb a b then strip_prefix p' s' else None
  | String _ _, EmptyString => None
  end.

(** A numbered-list item starts here: [1. ], [12: ], ... *)
Definition starts_numbered (s : string) : bool := label_at isspace s.

(** A [Thought N:] label starts here. *)
Definition starts_thought_n (s : string) : bool :=
  match strip_prefix "Thought" s with
  | Some (String b s1) =>
      is_blank b && label_at is_blank (skip_while is_blank s1)
  | _ => false
  end.

(** [f] holds right after some line feed of [s]. *)
Fixpoint after_lf (f : string -> bool) (s : string) : bool :=
  match s with
  | String c s' => (Ascii.eqb c LF && f s') || after_lf f s'
  | EmptyString => false
  end.

(** [f] holds at the start of the text or of one of its later lines. *)
Definition at_line_start (f : string -> bool) (s : string) : bool :=
  f s || after_lf f s.

Definition has_numbered_line (content : string) : bool :=
  at_line_start starts_numbered content.

Definition has_thought_n_line (content : string) : bool :=
  at_line_start starts_thought_n content.

(** Length of the longest run of decimal digits of [s], [cur] digits
    being already counted. *)
Fixpoint digit_run (s : string) (cur : nat) : nat :=
  match s with
  | String c s' =>
      if isdigit c then digit_run s' (S cur)
      else Nat.max cur (digit_run s' 0)
  | EmptyString => cur
  end.

Definition longest_digit_run (s : string) : nat := digit_run s 0.

(** The label texts [match[0]] of the matches, pattern by pattern, in
    the order the thoughts are appended, and the numbers [int] makes of
    them. *)
Definition labels (content : string) : list string :=
  flat_map (fun pattern => map fst (findall2 pattern content))
           thought_patterns.

Definition label_numbers (content : string) : list (option N) :=
  map int_of_str (labels content).

Fixpoint repeat_char (c : ascii) (n : nat) : string :=
  match n with
  | S n' => String c (repeat_char c n')
  | 0 => EmptyString
  end.

(** What both thought patterns guarantee of a match [m] found at
    [(rest, pos)]: it sits at the start of the text or right after a
    line feed, the line opens as [f] requires, and group 1 is the
    non-empty digit run [w] of that line. *)
Definition label_match (f : string -> bool) (rest : string) (pos : nat)
    (m : rmatch) : Prop :=
  exists pre w tail,
    m_group 1 m = w /\ 1 <= String.length w /\ all_chars isdigit w = true
    /\ f (pre ++ w ++ tail)%string = true
    /\ ((pos = 0 /\ rest = (pre ++ w ++ tail)%string)
        \/ rest = String LF (pre ++ w ++ tail)).

(** The identifier a label number yields. *)
Definition id_entry (node_id : string) (n : option N) : option pyval :=
  option_map (fun k => PStr (thought_id_of node_id k)) n.

(** [thought["thought_id"]] of a thought record. *)
Definition thought_id (t : dict) : option pyval := dict_get t "thought_id".

(** ** [extract_xml] *)

(** The characters [re] reads as operators outside a character class. *)
Definition is_meta (c : ascii) : bool :=
  mem_string c (String "\" ".^$*+?{}[]|()").

(** A tag made of ordinary characters only: interpolated into a
    pattern it stands for itself. *)
Definition plain_tag (tag : string) : bool :=
  all_chars (fun c => negb (is_meta c)) tag.

(** [f"<{tag}>(.*?)</{tag}>"], compiled with [re.DOTALL], for a plain
    tag.  (A tag with operators in it is compiled as the pattern it
    spells; that reading is not modelled.) *)
Definition xml_pattern (tag : string) : regex :=
  (lit ("<" ++ tag ++ ">") ;; RGroup 1 (RRep false 0 CAny) ;;
   lit ("</" ++ tag ++ ">"))%re.

(** [extract_xml], for a plain tag. *)
Definition extract_xml (text tag : string) : option string :=
  match search (xml_pattern tag) text with
  | Some m => Some (strip (m_group 1 m))
  | None => None
  end.

(** The text holds [<tag>], then [body], then [</tag>]. *)
Definition tagged (text tag body : string) : Prop :=
  exists pre post,
    text = (pre ++ ("<" ++ tag ++ ">") ++ body ++ ("</" ++ tag ++ ">")
            ++ post)%string.

(** All the tuples [re.findall] returns, pattern by pattern. *)
Definition all_matches (content : string) : list (string * string) :=
  flat_map (fun pattern => findall2 pattern content) thought_patterns.

(** The keys of a thought record made by [extract_thoughts]. *)
Definition thought_keys : list string :=
  ["thought_id"; "description"; "generation_rationale"].

(** The text stored under [key], when it is a text. *)
Definition text_field (t : dict) (key : string) : option string :=
  match dict_get t key with Some (PStr s) => Some s | _ => None end.

(** ** The rationale and the description, read without patterns *)

(** What follows the first occurrence of [marker] in [text]. *)
Fixpoint find_after (marker text : string) : option string :=
  match strip_prefix marker text with
  | Some tail => Some tail
  | None =>
      match text with
      | String _ text' => find_after marker text'
      | EmptyString => None
      end
  end.

(** The text ends here, or a blank line follows. *)
Definition paragraph_end (s : string) : bool :=
  match s with
  | EmptyString => true
  | String a (String b _) => Ascii.eqb a LF && Ascii.eqb b LF
  | String _ EmptyString => false
  end.

Fixpoint up_to_paragraph_end (s : string) : string :=
  match s with
  | String c s' =>
      if paragraph_end s then EmptyString
      else String c (up_to_paragraph_end s')
  | EmptyString => EmptyString
  end.

(** The paragraph that starts at the first character after [tail]'s
    leading whitespace. *)
Definition rationale_after (tail : string) : string :=
  strip (up_to_paragraph_end (skip_while isspace tail)).

(** The rationale of a thought text: the paragraph after the first
    [**Rationale**:], else after the first [Rationale:], else none. *)
Definition rationale_of (full_text : string) : string :=
  match find_after "**Rationale**:" full_text with
  | Some tail => rationale_after tail
  | None =>
      match find_after "Rationale:" full_text with
      | Some tail => rationale_after tail
      | None => ""
      end
  end.

(** [a] is a contiguous part of [b]. *)
Definition part_of (a b : string) : Prop :=
  exists pre post, b = (pre ++ a ++ post)%string.

(** Somewhere in [s] a digit is followed at once by [.] or [:]. *)
Fixpoint has_digit_mark (s : string) : bool :=
  match s with
  | String c s' =>
      match s' with
      | String d _ => isdigit c && is_mark d
      | EmptyString => false
      end
      || has_digit_mark s'
  | EmptyString => false
  end.

(** A text with a leading [**Thought**:] and the whitespace after it
    removed. *)
Definition drop_thought_label (s : string) : string :=
  match strip_prefix "**Thought**:" s with
  | Some tail => skip_while isspace tail
  | None => s
  end.

End Parsing.
Import Parsing.

(* ===================================================================== *)
(** * tota_core/llm_interaction.py *)
(* ===================================================================== *)

Module Llm.

(** [content_item.input] of a tool-use block. *)
Inductive tool_input : Type :=
| InputDict (d : dict)          (* already a [dict] *)
| InputText (s : string)        (* text handed to [json.loads] *)
| InputOther.                   (* anything else: [json.loads] refuses it *)

(** The items of [response.content]. *)
Inductive content_block : Type :=
| TextBlock (text : string)                         (* [type == 'text'] *)
| ToolUseBlock (name : string) (input : tool_input) (* [type == 'tool_use'] *)
| OtherBlock.                   (* another type, or no [type] attribute *)

(** The keyword arguments of [client.messages.create]. *)
Record tool : Type := Tool {
  tool_type : string;
  tool_name : pyval;
  tool_description : pyval;
  tool_input_schema : pyval
}.

Record request : Type := Request {
  rq_model : pyval;
  rq_max_tokens : Z;
  rq_messages : list (string * string);      (* role, content *)
  rq_system : option string;
  rq_tools : option (list tool);
  rq_tool_choice : option string             (* [{"type": "tool", "name": _}] *)
}.

(** What one call of the endpoint does. *)
Inductive api_outcome : Type :=
| ApiReturn (content : list content_block)
| ApiRaise (e : exn).

(** The endpoint: its answer to the [i]-th call it receives. *)
Definition endpoint : Type := nat -> request -> api_outcome.

(** Observable effects of [call_llm]. *)
Inductive event : Type :=
| EvCall (attempt : Z)          (* [client.messages.create], attempt number *)
| EvSleep (seconds : Z).        (* [time.sleep] *)

(** The world [call_llm] acts on: calls the endpoint has received, and
    the effects so far (oldest first). *)
Record world : Type := World {
  w_calls : nat;
  w_trace : list event
}.

(** The fields of [LLMInteraction] that [call_llm] reads. *)
Record LLMInteraction : Type := Self {
  model : pyval;
  retry_attempts : pyval;
  client : option endpoint      (* [None] when the SDK is not installed *)
}.

(** [__init__], as far as those fields go. *)
Definition init (config : dict) (sdk : option endpoint) : LLMInteraction :=
  Self (dict_get_default config "llm_model_identifier"
          (PStr "claude-3-sonnet-20240229"))
       (dict_get_default config "llm_retry_attempts" (PInt 3))
       sdk.

Section CallLlm.

(** [str.format] and [json.loads] are builtins taken as given. *)
Variable str_format : string -> dict -> pyresult string.
Variable json_loads : string -> option pyval.

Definition _format_prompt (template_content : string) (kwargs : dict)
    : pyresult string :=
  str_format template_content kwargs.

(** An [int] as [range] and [<] read it. *)
Definition as_int (v : pyval) : pyresult Z :=
  match v with
  | PInt z => Return z
  | PBool b => Return (if b then 1 else 0)%Z
  | _ => Raise (Exn ExcTypeError "an integer is required")
  end.

(** One element of [tools]; [func_def["name"]] raises [KeyError] when
    the name is missing. *)
Definition tool_of (func_def : dict) : pyresult tool :=
  match dict_get func_def "name" with
  | None => Raise (Exn (ExcOther "KeyError") "'name'")
  | Some name =>
      Return (Tool "custom" name
                (dict_get_default func_def "description" (PStr ""))
                (dict_get_default func_def "parameters" (PDict [])))
  end.

Fixpoint tools_of (function_definitions : list dict) : pyresult (list tool) :=
  match function_definitions with
  | [] => Return []
  | func_def :: rest =>
      t <- tool_of func_def ;;
      ts <- tools_of rest ;;
      Return (t :: ts)
  end.

Definition str_truthy (s : string) : bool := negb (String.eqb s "").

Definition opt_truthy (s : option string) : bool :=
  match s with Some s' => str_truthy s' | None => false end.

Definition list_truthy {A : Type} (l : option (list A)) : bool :=
  match l with Some (_ :: _) => true | _ => false end.

(** Lines 99-137: the request. *)
Definition build_request (self : LLMInteraction)
    (prompt_template_content system_prompt : string)
    (expect_function_call : bool)
    (function_definitions : option (list dict))
    (force_function_name : option string) (kwargs : dict)
    : pyresult request :=
  prompt <- _format_prompt prompt_template_content kwargs ;;
  let messages := [("user", prompt)] in
  let system := if str_truthy system_prompt then Some system_prompt
                else None in
  if expect_function_call && list_truthy function_definitions then
    tools <- tools_of (match function_definitions with
                       | Some l => l | None => [] end) ;;
    Return (Request (model self) 4000 messages system (Some tools)
              (if opt_truthy force_function_name then force_function_name
               else None))
  else
    Return (Request (model self) 4000 messages system None None).

Fixpoint first_tool_use (content : list content_block)
    : option (string * tool_input) :=
  match content with
  | ToolUseBlock name input :: _ => Some (name, input)
  | _ :: content' => first_tool_use content'
  | [] => None
  end.

(** Concatenation of the [text] items. *)
Fixpoint text_of (content : list content_block) : string :=
  match content with
  | TextBlock text :: content' => text ++ text_of content'
  | _ :: content' => text_of content'
  | [] => ""
  end.

(** The decision synthesised when a forced function call did not come. *)
Definition fallback_decision : dict :=
  [ ("action_type", PStr "Backtrack");
    ("decision_rationale",
     PStr "Function calling failed, fallback to backtracking.") ].

Definition fallback_call (force_function_name : string) (kwargs : dict)
    : dict :=
  [ ("type", PStr "function_call");
    ("name", PStr force_function_name);
    ("arguments",
     PDict [ ("node_id", dict_get_default kwargs "node_id" (PStr "unknown"));
             ("node_sub_problem",
              dict_get_default kwargs "current_sub_problem" (PStr "unknown"));
             ("generated_thoughts",
              dict_get_default kwargs "thoughts" (PList []));
             ("llm_decision", PDict fallback_decision) ]) ].

Definition function_call (function_name : string) (function_args : pyval)
    : dict :=
  [ ("type", PStr "function_call");
    ("name", PStr function_name);
    ("arguments", function_args) ].

(** Lines 153-221: what is made of a response. *)
Definition parse_response (expect_function_call : bool)
    (force_function_name : option string) (kwargs : dict)
    (content : list content_block) : pyresult dict :=
  if expect_function_call then
    match first_tool_use content with
    | Some (function_name, input) =>
        match input with
        | InputDict d => Return (function_call function_name (PDict d))
        | InputText s =>
            match json_loads s with
            | Some function_args =>
                Return (function_call function_name function_args)
            | None =>
                Raise (Exn ExcValueError "Invalid JSON in function arguments")
            end
        | InputOther =>
            Raise (Exn ExcTypeError
                     "the JSON object must be str, bytes or bytearray")
        end
    | None =>
        match force_function_name with
        | Some name =>
            if str_truthy name then Return (fallback_call name kwargs)
            else Raise (Exn ExcValueError
                   "Expected function call in response, but none was found")
        | None =>
            Raise (Exn ExcValueError
                   "Expected function call in response, but none was found")
        end
    end
  else Return [ ("type", PStr "text"); ("content", PStr (text_of content)) ].

(** [except (requests.exceptions.RequestException, TimeoutError)]. *)
Definition is_transient (e : exn) : bool :=
  match exn_cls e with
  | ExcRequestException | ExcTimeoutError => true
  | _ => false
  end.

Definition api_error (e : exn) : exn :=
  Exn ExcException ("API error: " ++ exn_msg e).

Definition called (attempt : Z) (w : world) : world :=
  World (S (w_calls w)) (w_trace w ++ [EvCall attempt]).

Definition slept (seconds : Z) (w : world) : world :=
  World (w_calls w) (w_trace w ++ [EvSleep seconds]).

(** The body of the [try], one attempt: the call, then the parse.
    Without a client there is nothing to call, and the attribute access
    fails. *)
Definition attempt_once (self : LLMInteraction) (rq : request)
    (expect_function_call : bool) (force_function_name : option string)
    (kwargs : dict) (attempt : Z) (w : world) : pyresult dict * world :=
  match client self with
  | None =>
      (Raise (Exn (ExcOther "AttributeError")
                "'NoneType' object has no attribute 'messages'"), w)
  | Some endpoint_ =>
      (match endpoint_ (w_calls w) rq with
       | ApiReturn content =>
           parse_response expect_function_call force_function_name kwargs
             content
       | ApiRaise e => Raise e
       end,
       called attempt w)
  end.

(** The retry loop, [for attempt in range(1, n + 1)], with [remaining]
    iterations still to run. *)
Fixpoint retry_loop (self : LLMInteraction) (rq : request)
    (expect_function_call : bool) (force_function_name : option string)
    (kwargs : dict) (n : Z) (remaining : nat) (attempt : Z) (w : world)
    : pyresult dict * world :=
  match remaining with
  | 0 =>
      (Return [ ("type", PStr "error");
                ("content", PStr "Unexpected error in LLM call") ], w)
  | S remaining' =>
      let (result, w1) :=
        attempt_once self rq expect_function_call force_function_name
          kwargs attempt w in
      match result with
      | Return d => (Return d, w1)
      | Raise e =>
          if is_transient e then
            if (attempt <? n)%Z then
              retry_loop self rq expect_function_call force_function_name
                kwargs n remaining' (attempt + 1)%Z
                (slept (2 ^ attempt)%Z w1)
            else (Raise (api_error e), w1)
          else if is_Exception e then (Raise (api_error e), w1)
          else (Raise e, w1)
      end
  end.

Definition call_llm (self : LLMInteraction)
    (prompt_template_content system_prompt : string)
    (expect_function_call : bool)
    (function_definitions : option (list dict))
    (force_function_name : option string) (kwargs : dict) (w : world)
    : pyresult dict * world :=
  match build_request self prompt_template_content system_prompt
          expect_function_call function_definitions force_function_name
          kwargs with
  | Raise e => (Raise e, w)
  | Return rq =>
      match as_int (retry_attempts self) with
      | Raise e => (Raise e, w)
      | Return n =>
          retry_loop self rq expect_function_call force_function_name
            kwargs n (Z.to_nat n) 1%Z w
      end
  end.

(** What the loop makes of an outcome it does not retry: a result is
    parsed, and every [Exception] raised on the way is re-raised as
    [Exception("API error: ...")]. *)
Definition settle (expect_function_call : bool)
    (force_function_name : option string) (kwargs : dict)
    (o : api_outcome) : pyresult dict :=
  match o with
  | ApiReturn content =>
      match parse_response expect_function_call force_function_name kwargs
              content with
      | Return d => Return d
      | Raise e => Raise (api_error e)
      end
  | ApiRaise e => if is_Exception e then Raise (api_error e) else Raise e
  end.

End CallLlm.

(** The first [j] calls the endpoint receives from world [w] on fail
    with a transient error. *)
Definition transient_run (ep : endpoint) (rq : request) (j : nat)
    (w : world) : Prop :=
  forall i, i < j ->
    exists e, ep (w_calls w + i) rq = ApiRaise e /\ is_transient e = true.

(** The outcome is not a transient error. *)
Definition not_transient (o : api_outcome) : bool :=
  match o with ApiRaise e => negb (is_transient e) | ApiReturn _ => true end.

(** ** Reading a returned function call *)

Definition as_dict (v : option pyval) : option dict :=
  match v with Some (PDict d) => Some d | _ => None end.

(** [result["arguments"]["llm_decision"]]. *)
Definition decision_of (result : dict) : option dict :=
  match as_dict (dict_get result "arguments") with
  | Some args => as_dict (dict_get args "llm_decision")
  | None => None
  end.

Definition has_tool_use (content : list content_block) : bool :=
  match first_tool_use content with Some _ => true | None => false end.

(** The effects of [j] failed attempts, each followed by its wait, and
    of attempt [j + 1]. *)
Fixpoint backoff_trace (j : nat) (attempt : Z) : list event :=
  match j with
  | 0 => [EvCall attempt]
  | S j' =>
      EvCall attempt :: EvSleep (2 ^ attempt)%Z
        :: backoff_trace j' (attempt + 1)%Z
  end.

(** The effects of [j] failed attempts with their waits. *)
Fixpoint backoff_prefix (j : nat) (attempt : Z) : list event :=
  match j with
  | 0 => []
  | S j' =>
      EvCall attempt :: EvSleep (2 ^ attempt)%Z
        :: backoff_prefix j' (attempt + 1)%Z
  end.

(** ** Measuring the effects *)

(** The calls recorded in a stretch of effects. *)
Fixpoint calls_made (t : list event) : nat :=
  match t with
  | EvCall _ :: t' => S (calls_made t')
  | EvSleep _ :: t' => calls_made t'
  | [] => 0
  end.

(** The seconds spent in [time.sleep]. *)
Fixpoint seconds_slept (t : list event) : Z :=
  match t with
  | EvSleep seconds :: t' => (seconds + seconds_slept t')%Z
  | EvCall _ :: t' => seconds_slept t'
  | [] => 0%Z
  end.

(** The value of the [return] that closes [call_llm], after the loop. *)
Definition unexpected_error : dict :=
  [ ("type", PStr "error");
    ("content", PStr "Unexpected error in LLM call") ].

(** The value of the [return] for a response read as text. *)
Definition text_result (text_content : string) : dict :=
  [ ("type", PStr "text"); ("content", PStr text_content) ].

End Llm.
Import Llm.

(* ===================================================================== *)
(** * Rendering of values in f-strings *)
(* ===================================================================== *)

Module Fmt.

(** [str(z)] for an [int]. *)
Definition str_of_Z (z : Z) : string :=
  if (z <? 0)%Z then "-" ++ str_of_N (Z.abs_N z) else str_of_N (Z.to_N z).








Section Str.

(** [repr] of floats and containers is a builtin taken as given. *)
Variable repr_builtin : pyval -> string.

(** [f"{v}"], that is [str(v)]. *)
Definition py_str (v : pyval) : string :=
  match v with
  | PStr s => s
  | PNone => "None"
  | PBool b => if b then "True" else "False"
  | PInt z => str_of_Z z
  | PFloat _ | PList _ | PDict _ => repr_builtin v
  end.

End Str.

End Fmt.
Import Fmt.

(* ===================================================================== *)
(** * tota_core/function_implementations.py *)
(* ===================================================================== *)

Module FunctionImplementations.
Local Open Scope string_scope.

(** The log file at [self.log_file_path]: its content (a file that does
    not exist yet reads as the empty text). *)
Definition logfile : Type := string.

(** How [initialize_log_file] can read its [config_dict] argument. *)
Inductive config_kind : Type :=
| HasGetAll       (* a Configuration object: [get_all()] gives the entries *)
| HasCopy         (* a [dict]: [copy()] *)
| HasItems        (* only [items()] *)
| Opaque.         (* none of these *)

Record config_arg : Type := ConfigArg {
  cfg_kind : config_kind;
  cfg_entries : dict
}.

Definition REDACTED : pyval := PStr "***REDACTED***".

(** Lines 61-73: the entries to print, the API key blanked. *)
Definition safe_config_of (config_dict : config_arg) : dict :=
  let safe_config :=
    match cfg_kind config_dict with
    | HasGetAll | HasCopy | HasItems => cfg_entries config_dict
    | Opaque => []
    end in
  if dict_mem safe_config "llm_api_key"
  then dict_set safe_config "llm_api_key" REDACTED
  else safe_config.

(** [sorted(d.items())]: by key, in code-point order. *)
Fixpoint insert_item (x : string * pyval) (l : dict) : dict :=
  match l with
  | [] => [x]
  | y :: l' =>
      if String.leb (fst x) (fst y) then x :: l else y :: insert_item x l'
  end.

Definition sorted_items (d : dict) : dict := fold_right insert_item [] d.

(** The order of [sorted] on entries with distinct keys: by key. *)
Definition key_le (x y : string * pyval) : Prop :=
  String.leb (fst x) (fst y) = true.

(** [os.path.dirname] (POSIX): the text up to the last slash, trailing
    slashes dropped unless it consists of slashes only. *)
Definition is_slash (c : ascii) : bool := Ascii.eqb c "/".

Fixpoint through_last_slash (p : string) : string :=
  match p with
  | String c p' =>
      match through_last_slash p' with
      | EmptyString => if is_slash c then String c EmptyString else EmptyString
      | h => String c h
      end
  | EmptyString => EmptyString
  end.

Definition dirname (p : string) : string :=
  let head := through_last_slash p in
  if negb (String.eqb head "") && negb (all_chars is_slash head)
  then rstrip_by is_slash head
  else head.

(** [os.makedirs(log_dir, exist_ok=True)] on a file system that lets
    directories be created: only the empty path is refused. *)
Definition makedirs (log_dir : string) : pyresult unit :=
  if String.eqb log_dir ""
  then Raise (Exn (ExcOther "FileNotFoundError")
                "[Errno 2] No such file or directory: ''")
  else Return tt.

Section Rendering.
Variable repr_builtin : pyval -> string.

Let str := py_str repr_builtin.

Fixpoint config_lines (items : dict) : string :=
  match items with
  | (key, value) :: items' =>
      "- **" ++ key ++ "**: " ++ str value ++ nl ++ config_lines items'
  | [] => ""
  end.

(** What [initialize_log_file] writes. *)
Definition header (timestamp task_description : string)
    (safe_config : dict) : string :=
  "# Tree-of-Thoughts Agent Run" ++ nl ++ nl
  ++ "**Timestamp:** " ++ timestamp ++ nl ++ nl
  ++ "**Task:** " ++ task_description ++ nl ++ nl
  ++ "**Configuration:**" ++ nl
  ++ config_lines (sorted_items safe_config)
  ++ nl ++ "## Thought Process" ++ nl ++ nl.

(** [initialize_log_file]: the directory of [self.log_file_path] is
    created, then the file is opened with mode ['w'], so the header
    replaces whatever it held.  [timestamp] is the clock reading of
    line 58; the result [tt] stands for [None]. *)
Definition initialize_log_file (log_file_path timestamp
    task_description : string) (config_dict : config_arg) (log : logfile)
    : pyresult unit * logfile :=
  let safe_config := safe_config_of config_dict in
  match makedirs (dirname log_file_path) with
  | Raise e => (Raise e, log)
  | Return _ => (Return tt, header timestamp task_description safe_config)
  end.

(** ** [log_node_details] *)











End Rendering.

(** ** [get_function_definitions] *)

Definition prop (type description : string) : pyval :=
  PDict [ ("type", PStr type); ("description", PStr description) ].

Definition thought_schema : pyval :=
  PDict
    [ ("type", PStr "object");
      ("properties",
       PDict
         [ ("thought_id", prop "string" "Unique identifier of the thought.");
           ("description", prop "string" "Description of the thought.");
           ("generation_rationale",
            prop "string" "Rationale for generating this thought.");
           ("evaluation_score",
            prop "number" "Evaluation score between 0.0 and 1.0.");
           ("evaluation_justification",
            prop "string" "Justification for the evaluation score.") ]);
      ("required",
       PList [PStr "thought_id"; PStr "description";
              PStr "evaluation_score"]) ].

Definition llm_decision_schema : pyval :=
  PDict
    [ ("type", PStr "object");
      ("description", PStr "Decision made by the LLM.");
      ("properties",
       PDict
         [ ("action_type",
            PDict
              [ ("type", PStr "string");
                ("description",
                 PStr "Type of action to take next (Select, Backtrack, or Success).");
                ("enum",
                 PList [PStr "Select"; PStr "Backtrack"; PStr "Success"]) ]);
           ("selected_thought_id",
            PDict
              [ ("type", PList [PStr "string"; PStr "null"]);
                ("description",
                 PStr "ID of the selected thought (if action_type is Select, otherwise null).") ]);
           ("decision_rationale",
            prop "string" "Rationale for the decision.") ]);
      ("required", PList [PStr "action_type"; PStr "decision_rationale"]) ].

Definition parameters_schema : pyval :=
  PDict
    [ ("type", PStr "object");
      ("properties",
       PDict
         [ ("node_id", prop "string" "Unique identifier of the node.");
           ("node_sub_problem",
            prop "string" "Description of the sub-problem at this node.");
           ("generated_thoughts",
            PDict
              [ ("type", PStr "array");
                ("description",
                 PStr "List of generated thoughts with their evaluations.");
                ("items", thought_schema) ]);
           ("llm_decision", llm_decision_schema) ]);
      ("required",
       PList [PStr "node_id"; PStr "node_sub_problem";
              PStr "generated_thoughts"; PStr "llm_decision"]) ].

(** [self.config.get("function_names", {}).get("log_node",
    "log_node_details")]; a [function_names] entry that is not a
    mapping has no [get]. *)
Definition log_function_name (config : dict) : pyresult pyval :=
  match dict_get_default config "function_names" (PDict []) with
  | PDict names =>
      Return (dict_get_default names "log_node" (PStr "log_node_details"))
  | _ =>
      Raise (Exn (ExcOther "AttributeError") "object has no attribute 'get'")
  end.

Definition get_function_definitions (config : dict) : pyresult (list dict) :=
  name <- log_function_name config ;;
  Return
    [ [ ("name", name);
        ("description",
         PStr "Log details about a node in the thought tree, including its sub-problem, generated thoughts, and the LLM's decision.");
        ("parameters", parameters_schema) ] ].

(** ** Reading a schema *)

Definition get_in (v : pyval) (key : string) : option pyval :=
  match v with PDict d => dict_get d key | _ => None end.

(** [schema["properties"][name]]. *)
Definition property (schema : pyval) (name : string) : option pyval :=
  match get_in schema "properties" with
  | Some props => get_in props name
  | None => None
  end.

(** The schema of [llm_decision] inside a function definition. *)
Definition decision_schema_of (func_def : dict) : option pyval :=
  match dict_get func_def "parameters" with
  | Some parameters => property parameters "llm_decision"
  | None => None
  end.

(** JSON Schema, the keywords the contract uses on values without
    nested structure. *)
Definition json_type_is (name : pyval) (v : pyval) : bool :=
  match name, v with
  | PStr "string", PStr _ => true
  | PStr "null", PNone => true
  | PStr "number", (PInt _ | PFloat _) => true
  | PStr "boolean", PBool _ => true
  | PStr "array", PList _ => true
  | PStr "object", PDict _ => true
  | _, _ => false
  end.

Definition str_eqb (a b : pyval) : bool :=
  match a, b with PStr x, PStr y => String.eqb x y | _, _ => false end.

(** Keywords [type] (a name or a list of names) and [enum] (of texts). *)
Definition scalar_ok (schema : pyval) (v : pyval) : bool :=
  match get_in schema "type" with
  | Some (PList names) => existsb (fun n => json_type_is n v) names
  | Some name => json_type_is name v
  | None => true
  end
  &&
  match get_in schema "enum" with
  | Some (PList allowed) => existsb (str_eqb v) allowed
  | _ => true
  end.

(** Keywords [type], [required] and [properties] of an object schema
    whose properties are scalar. *)
Definition object_ok (schema : pyval) (v : pyval) : bool :=
  match v with
  | PDict d =>
      match get_in schema "required" with
      | Some (PList names) =>
          forallb (fun n => match n with
                            | PStr k => dict_mem d k
                            | _ => false
                            end) names
      | _ => true
      end
      &&
      match get_in schema "properties" with
      | Some (PDict props) =>
          forallb (fun p => match dict_get d (fst p) with
                            | Some x => scalar_ok (snd p) x
                            | None => true
                            end) props
      | _ => true
      end
  | _ => false
  end.

(** Two configurations that differ at most in the value stored under
    [key]. *)
Definition differ_only_at (key : string) (c1 c2 : dict) : Prop :=
  Forall2 (fun x y => fst x = fst y /\ (fst x <> key -> snd x = snd y)) c1 c2.

(** Keys of a [dict] are pairwise distinct. *)
Definition dict_wf (d : dict) : Prop := NoDup (map fst d).


(** ** [_generate_log_file_path] *)

(** [s.replace(old, new)] for a non-empty [old]: the occurrences of
    [old], found from the left and not overlapping, give way to [new].
    [skip] counts the characters of the occurrence just replaced that
    are still to be passed over. *)
Fixpoint replace_from (old new s : string) (skip : nat) : string :=
  match s with
  | String c s' =>
      match skip with
      | S skip' => replace_from old new s' skip'
      | 0 =>
          if String.prefix old s
          then new ++ replace_from old new s' (String.length old - 1)
          else String c (replace_from old new s' 0)
      end
  | EmptyString => EmptyString
  end.

Definition replace (s old new : string) : string := replace_from old new s 0.




End FunctionImplementations.
Import FunctionImplementations.

(* ===================================================================== *)
(** * main.py *)
(* ===================================================================== *)

Module Main.

(** Modelled from the spec: the error taxonomy of section 7.  The
    sources at hand declare no exception class of their own; the four
    kinds are taken to be [Exception] subclasses carrying their name. *)
Definition TransientError : exn_class := ExcOther "TransientError".
Definition ProtocolError : exn_class := ExcOther "ProtocolError".
Definition ResourceExhausted : exn_class := ExcOther "ResourceExhausted".
Definition StructuralError : exn_class := ExcOther "StructuralError".

(** The statuses of the run entry point. *)
Definition statuses : list pyval :=
  [PStr "Succeeded"; PStr "Failed"; PStr "Cancelled"; PStr "Error"].

Section RunTotaAgent.

(** [tota_core.configuration], [tota_core.tree_manager] and
    [tota_core.control_flow_manager] are not among the sources at hand.
    Lines 41-57 (environment, configuration, the four constructors) are
    taken as one step [setup] that yields the control-flow manager, and
    [cfm.run_agent] as [run_agent]. *)
Variable manager : Type.
Variable setup : string -> pyresult manager.
Variable run_agent : manager -> string -> pyresult (pyval * pyval * pyval).

(** [run_tota_agent]: [(status, solution_path, log_file_path)]. *)
Definition run_tota_agent (task_description config_path : string)
    : pyresult (pyval * pyval * pyval) :=
  cfm <- setup config_path ;;
  match run_agent cfm task_description with
  | Return (status, solution_path, log_file) =>
      Return (status, solution_path, log_file)
  | Raise e =>
      if is_Exception e then Return (PStr "Error", PNone, PNone)
      else Raise e
  end.

(** Modelled from the spec: what [run_agent] promises when it returns
    (sections 4.2 and 6): one of the statuses, and no solution path
    unless it succeeded. *)
Definition run_agent_contract : Prop :=
  forall cfm task status solution_path log_file,
    run_agent cfm task = Return (status, solution_path, log_file) ->
    In status statuses
    /\ (status <> PStr "Succeeded" -> solution_path = PNone).

End RunTotaAgent.

(** ** [main] *)

(** What [parser.parse_args()] makes of the command line: the task and
    the configuration path ([config.yaml] when not given), or the usage
    error on which [argparse] leaves with status 2. *)
Inductive parsed_args : Type :=
| Args (task config : string)
| UsageError.

(** How [main] ends. *)
Inductive ending : Type :=
| SysExit (code : Z)            (* [sys.exit(code)] *)
| Returned                      (* the end of [main]: status 0 *)
| Uncaught (e : exn).

Section MainEntry.
Local Open Scope string_scope.
Variable repr_builtin : pyval -> string.
Variable manager : Type.
Variable setup : string -> pyresult manager.
Variable run_agent : manager -> string -> pyresult (pyval * pyval * pyval).

Let str := py_str repr_builtin.

(** [name in os.environ]. *)
Definition in_environ (environ : list (string * string)) (name : string)
    : bool :=
  existsb (fun entry => String.eqb (fst entry) name) environ.

(** Lines 90-91. *)
Definition solution_lines (solution_path : pyval) : list string :=
  if truthy solution_path
  then [nl ++ "Solution path:" ++ nl ++ str solution_path]
  else [].

(** Lines 87-91: what is printed after the run. *)
Definition report (status solution_path log_file : pyval) : list string :=
  app [ nl ++ "Agent completed";
        "Status: " ++ str status;
        "Log file: " ++ str log_file ]
      (solution_lines solution_path).

(** [main]: how it ends, and the lines it printed. *)
Definition main (args : parsed_args) (environ : list (string * string))
    : ending * list string :=
  match args with
  | UsageError => (SysExit 2, [])
  | Args task config =>
      if negb (in_environ environ "ANTHROPIC_API_KEY")
         && negb (in_environ environ "OPENAI_API_KEY")
      then (SysExit 1, [])
      else
        match run_tota_agent manager setup run_agent task config with
        | Return (status, solution_path, log_file) =>
            (Returned, report status solution_path log_file)
        | Raise e => (Uncaught e, [])
        end
  end.

End MainEntry.

End Main.
Import Main.

(* ===================================================================== *)
(** * Facts about the matcher *)
(* ===================================================================== *)

Module ReFacts.
Local Open Scope string_scope.

Lemma take_app_length (w r : string) : take (String.length w) (w ++ r) = w.
Proof. induction w as [|c w IH]; simpl; [destruct r|]; congruence. Qed.

Section Rep.
Context {A : Type}.

Lemma rep_greedy_sound c rest : forall min pos (k : nat -> string -> option A) x,
  rep_greedy c min rest pos k = Some x ->
  exists w rest', rest = w ++ rest' /\ min <= String.length w
    /\ all_chars (cls_mem c) w = true
    /\ k (pos + String.length w) rest' = Some x.
Proof.
  induction rest as [|a rest IH]; intros min pos k x H; simpl in H.
  - destruct (Nat.eqb_spec min 0); [|discriminate].
    exists "", "". simpl. rewrite Nat.add_0_r. repeat split; auto. lia.
  - assert (Hstop : (if (min =? 0)%nat then k pos (String a rest) else None) = Some x ->
       exists w rest', String a rest = w ++ rest' /\ min <= String.length w
         /\ all_chars (cls_mem c) w = true
         /\ k (pos + String.length w) rest' = Some x).
    { intros Hs. destruct (Nat.eqb_spec min 0); [|discriminate].
      exists "", (String a rest). simpl. rewrite Nat.add_0_r.
      repeat split; auto. lia. }
    destruct (cls_mem c a) eqn:Ha; [|auto].
    unfold or_else in H.
    destruct (rep_greedy c (pred min) rest (S pos) k) eqn:Hr; [|auto].
    injection H as <-.
    destruct (IH _ _ _ _ Hr) as (w & rest' & -> & Hm & Hw & Hk).
    exists (String a w), rest'. simpl. rewrite Ha, Hw.
    replace (pos + S (String.length w)) with (S pos + String.length w) by lia.
    repeat split; auto. lia.
Qed.

Lemma rep_lazy_sound c rest : forall min pos (k : nat -> string -> option A) x,
  rep_lazy c min rest pos k = Some x ->
  exists w rest', rest = w ++ rest' /\ min <= String.length w
    /\ all_chars (cls_mem c) w = true
    /\ k (pos + String.length w) rest' = Some x.
Proof.
  induction rest as [|a rest IH]; intros min pos k x H; simpl in H;
    unfold or_else in H.
  - destruct (Nat.eqb_spec min 0).
    + destruct (k pos "") eqn:Hk; [|discriminate]. injection H as <-.
      exists "", "". simpl. rewrite Nat.add_0_r. repeat split; auto. lia.
    + discriminate.
  - assert (Hmore : (if cls_mem c a then rep_lazy c (pred min) rest (S pos) k else None) = Some x ->
       exists w rest', String a rest = w ++ rest' /\ min <= String.length w
         /\ all_chars (cls_mem c) w = true
         /\ k (pos + String.length w) rest' = Some x).
    { intros Hs. destruct (cls_mem c a) eqn:Ha; [|discriminate].
      destruct (IH _ _ _ _ Hs) as (w & rest' & -> & Hm & Hw & Hk).
      exists (String a w), rest'. simpl. rewrite Ha, Hw.
      replace (pos + S (String.length w)) with (S pos + String.length w) by lia.
      repeat split; auto. lia. }
    destruct (Nat.eqb_spec min 0); [|auto].
    destruct (k pos (String a rest)) eqn:Hk; [|auto].
    injection H as <-.
    exists "", (String a rest). simpl. rewrite Nat.add_0_r.
    repeat split; auto. lia.
Qed.

End Rep.

(** Soundness of the matcher: whatever it returns went through a run
    described by [denote]. *)
Lemma exec_sound r : forall s k x,
  exec r s k = Some x -> exists s', denote r s s' /\ k s' = Some x.
Proof.
  induction r; intros s k x H; simpl in H.
  - exists s. simpl. auto.
  - destruct s as [pos rest caps]. simpl in *.
    destruct rest as [|a rest]; [discriminate|].
    destruct (cls_mem c a) eqn:Ha; [|discriminate].
    eexists. split; [|exact H]. simpl. exists a. auto.
  - destruct (Nat.eqb_spec (ms_pos s) 0); [|discriminate].
    exists s. simpl. auto.
  - destruct (ms_rest s) eqn:Hr; [|discriminate].
    exists s. simpl. auto.
  - destruct (IHr1 _ _ _ H) as (s1 & H1 & H2).
    destruct (IHr2 _ _ _ H2) as (s2 & H3 & H4).
    exists s2. simpl. eauto.
  - unfold or_else in H. destruct (exec r1 s k) eqn:H1.
    + injection H as <-. destruct (IHr1 _ _ _ H1) as (s1 & ? & ?).
      exists s1. simpl. auto.
    + destruct (IHr2 _ _ _ H) as (s1 & ? & ?). exists s1. simpl. auto.
  - assert (Hw : exists w rest', ms_rest s = w ++ rest' /\ min <= String.length w
       /\ all_chars (cls_mem c) w = true
       /\ k (MState (ms_pos s + String.length w) rest' (ms_caps s)) = Some x).
    { destruct greedy;
        [apply rep_greedy_sound in H | apply rep_lazy_sound in H]; exact H. }
    destruct Hw as (w & rest' & Hr & Hm & Hall & Hk).
    eexists. split; [|exact Hk]. simpl. exists w. auto.
  - destruct (IHr _ _ _ H) as (s1 & H1 & H2).
    eexists. split; [|exact H2]. simpl. eauto.
  - destruct (exec r s Some) eqn:H1; [|discriminate].
    destruct (IHr _ _ _ H1) as (s1 & H2 & H3). injection H3 as ->.
    eexists. split; [|exact H]. simpl. eauto.
Qed.

(** ** The scanner *)

Lemma reach_refl rest pos : reach rest pos rest pos.
Proof. exists "". simpl. split; [reflexivity | lia]. Qed.

Lemma reach_step a rest pos rest' pos' :
  reach rest (S pos) rest' pos' -> reach (String a rest) pos rest' pos'.
Proof.
  intros (pre & -> & ->). exists (String a pre). simpl. split; [reflexivity | lia].
Qed.

(** Every match the scanner reports comes from an attempt at a position
    it can stand at. *)
Lemma scan_Forall (P : rmatch -> Prop) r : forall rest pos skip,
  (forall rest' pos' ma m, reach rest pos rest' pos' ->
     match_at r rest' pos' ma = Some m -> P m) ->
  Forall P (scan r rest pos skip).
Proof.
  induction rest as [|a rest IH]; intros pos skip HP.
  - destruct skip; simpl; [|constructor].
    destruct (match_at r "" pos false) eqn:H1; [|constructor].
    assert (P r0) by (eapply HP; [apply reach_refl | exact H1]).
    destruct (m_end r0 =? pos)%nat; [|repeat constructor; auto].
    constructor; auto.
    destruct (match_at r "" pos true) eqn:H2; [|constructor].
    repeat constructor. eapply HP; [apply reach_refl | exact H2].
  - assert (Hnext : forall sk, Forall P (scan r rest (S pos) sk)).
    { intros sk. apply IH. intros rest' pos' ma m Hr.
      apply HP. apply reach_step. exact Hr. }
    destruct skip; simpl; [|apply Hnext].
    destruct (match_at r (String a rest) pos false) eqn:H1; [|apply Hnext].
    assert (P r0) by (eapply HP; [apply reach_refl | exact H1]).
    destruct (m_end r0 =? pos)%nat; [|constructor; auto].
    constructor; auto.
    destruct (match_at r (String a rest) pos true) eqn:H2; [|apply Hnext].
    constructor; [|apply Hnext]. eapply HP; [apply reach_refl | exact H2].
Qed.

(** Where no attempt can succeed, the scanner reports nothing. *)
Lemma scan_nil r : forall rest pos skip,
  (forall rest' pos' ma, reach rest pos rest' pos' ->
     match_at r rest' pos' ma = None) ->
  scan r rest pos skip = [].
Proof.
  induction rest as [|a rest IH]; intros pos skip HN.
  - destruct skip; simpl; [|reflexivity].
    rewrite (HN "" pos false (reach_refl _ _)). reflexivity.
  - assert (Hnext : forall sk, scan r rest (S pos) sk = []).
    { intros sk. apply IH. intros rest' pos' ma Hr.
      apply HN. apply reach_step. exact Hr. }
    destruct skip; simpl; [|apply Hnext].
    rewrite (HN _ pos false (reach_refl _ _)). apply Hnext.
Qed.

Lemma match_at_sound r rest pos ma m :
  match_at r rest pos ma = Some m ->
  exists s', denote r (MState pos rest []) s'
             /\ m = RMatch pos (ms_pos s') (ms_caps s').
Proof.
  unfold match_at. intros H.
  destruct (exec r (MState pos rest []) _) as [s1|] eqn:He; [|discriminate].
  injection H as <-.
  destruct (exec_sound _ _ _ _ He) as (s' & Hd & Hk).
  destruct (ma && (ms_pos s' =? pos)%nat); [discriminate|].
  injection Hk as ->. exists s1. auto.
Qed.

End ReFacts.
Import ReFacts.

(* ===================================================================== *)
(** * Facts about the extractor *)
(* ===================================================================== *)

Module ParsingFacts.
Local Open Scope string_scope.

Ltac break :=
  repeat match goal with
  | H : exists _, _ |- _ => destruct H
  | H : _ /\ _ |- _ => destruct H
  end.

Ltac open_states :=
  repeat match goal with
  | s : mstate |- _ => destruct s as [? ? ?]; cbn [ms_pos ms_rest ms_caps] in *
  end.

Lemma mark_not_digit d : is_mark d = true -> isdigit d = false.
Proof.
  unfold is_mark. simpl. rewrite !orb_true_iff, !Ascii.eqb_eq.
  intros [->|[->|H]]; [reflexivity | reflexivity | discriminate].
Qed.

Lemma digit_not_blank c : isdigit c = true -> is_blank c = false.
Proof.
  destruct c as [[] [] [] [] [] [] [] []]; vm_compute; congruence.
Qed.

Lemma skip_while_app p w t :
  all_chars p w = true ->
  match t with String c _ => p c = false | EmptyString => True end ->
  skip_while p (w ++ t) = t.
Proof.
  induction w as [|a w IH]; simpl; intros Hw Ht.
  - destruct t as [|c t]; simpl; [reflexivity | now rewrite Ht].
  - apply andb_true_iff in Hw as [Ha Hw]. rewrite Ha. auto.
Qed.

Lemma nonempty_head (w : string) :
  1 <= String.length w -> exists c w', w = String c w'.
Proof. destruct w; simpl; [lia | eauto]. Qed.

Lemma label_at_intro sep w d b tail :
  1 <= String.length w -> all_chars isdigit w = true ->
  is_mark d = true -> sep b = true ->
  label_at sep (w ++ String d (String b tail)) = true.
Proof.
  intros Hn Hw Hd Hb.
  assert (Hs : skip_while isdigit (w ++ String d (String b tail))
               = String d (String b tail)).
  { apply skip_while_app; [exact Hw | now apply mark_not_digit]. }
  destruct (nonempty_head _ Hn) as (c & w' & ->).
  unfold label_at. rewrite Hs. simpl in *.
  apply andb_true_iff in Hw as [-> _]. now rewrite Hd, Hb.
Qed.


Ltac inj_states :=
  repeat match goal with
  | H : MState _ _ _ = MState _ _ _ |- _ => injection H as ? ? ?
  end.

Ltac unpack :=
  repeat (break; open_states; inj_states; subst;
          try match goal with H : _ \/ _ |- _ => destruct H end).

Lemma take_consumed pos w r : take (pos + String.length w - pos) (w ++ r) = w.
Proof.
  replace (pos + String.length w - pos) with (String.length w) by lia.
  apply take_app_length.
Qed.

Lemma lf_char a : cls_mem (CChar LF) a = true -> a = LF.
Proof. simpl. apply Ascii.eqb_eq. Qed.

(** Shape of a match of the numbered-list pattern. *)
Lemma numbered_shape rest pos ma m :
  match_at numbered_pattern rest pos ma = Some m ->
  label_match starts_numbered rest pos m.
Proof.
  intros H. apply match_at_sound in H as (s' & H & ->).
  cbn [denote numbered_pattern] in H. unpack;
  match goal with
  | Hd : all_chars (cls_mem CDigit) ?w = true,
    Hs : all_chars (cls_mem CSpace) ?sp = true,
    Hn : 1 <= String.length ?sp,
    Hm : cls_mem (COneOf ".:") ?d = true |- context [(?w ++ String ?d (?sp ++ ?t))] =>
      destruct (nonempty_head _ Hn) as (b & sp' & ->); simpl in Hs;
      apply andb_true_iff in Hs as [Hb _];
      exists "", w, (String d (String b (sp' ++ t))); cbn [append];
      (split; [unfold m_group; cbn [m_caps cap_lookup Nat.eqb]; apply take_consumed|]);
      (split; [assumption|]); (split; [exact Hd|]);
      (split; [apply label_at_intro; assumption|])
  end.
  all: try (left; split; reflexivity).
  all: try (right; match goal with H : cls_mem (CChar LF) _ = true |- _ => apply lf_char in H; subst end; reflexivity).
Qed.

Lemma lit_char a c : cls_mem (CChar c) a = true -> a = c.
Proof. simpl. apply Ascii.eqb_eq. Qed.

Lemma starts_thought_n_intro bl w d sp t :
  1 <= String.length bl -> all_chars (cls_mem blank) bl = true ->
  1 <= String.length w -> all_chars (cls_mem CDigit) w = true ->
  cls_mem (COneOf ".:") d = true ->
  1 <= String.length sp -> all_chars (cls_mem blank) sp = true ->
  starts_thought_n (("Thought" ++ bl) ++ w ++ String d (sp ++ t)) = true.
Proof.
  intros Hbn Hbl Hwn Hw Hd Hsn Hsp.
  destruct (nonempty_head _ Hbn) as (b0 & bl' & ->).
  destruct (nonempty_head _ Hsn) as (b & sp' & ->).
  cbn [all_chars] in Hbl, Hsp.
  apply andb_true_iff in Hbl as [Hb0 Hbl], Hsp as [Hb _].
  unfold starts_thought_n. cbn [append strip_prefix Ascii.eqb Bool.eqb].
  unfold is_blank at 1. rewrite Hb0. cbn [andb].
  rewrite skip_while_app.
  - apply label_at_intro; assumption.
  - exact Hbl.
  - destruct (nonempty_head _ Hwn) as (c & w' & ->). simpl in *.
    apply andb_true_iff in Hw as [Hc _]. now apply digit_not_blank.
Qed.

(** Shape of a match of the [Thought N:] pattern. *)
Lemma thought_n_shape rest pos ma m :
  match_at thought_n_pattern rest pos ma = Some m ->
  label_match starts_thought_n rest pos m.
Proof.
  intros H. apply match_at_sound in H as (s' & H & ->).
  cbn [denote thought_n_pattern lit] in H. unpack;
  repeat match goal with
  | H : cls_mem (CChar _) _ = true |- _ => apply lit_char in H; subst
  end;
  match goal with
  | |- context [(1, take _ (?w ++ String ?d (?sp ++ ?t)))] =>
    match goal with
    | |- context [String "t" (?bl ++ w ++ _)] =>
        exists ("Thought" ++ bl), w, (String d (sp ++ t));
        (split; [unfold m_group; cbn [m_caps cap_lookup Nat.eqb];
                 apply take_consumed|]);
        (split; [assumption|]); (split; [assumption|]);
        (split; [apply starts_thought_n_intro; assumption|])
    end
  end.
  all: try (left; split; reflexivity).
  all: right; reflexivity.
Qed.

(** ** Labels sit at line starts and are digit runs of the text *)

Lemma append_assoc (a b c : string) : (a ++ b) ++ c = a ++ b ++ c.
Proof. induction a as [|x a IH]; simpl; congruence. Qed.

Lemma after_lf_app f pre r :
  f r = true -> after_lf f (pre ++ String LF r) = true.
Proof.
  intros Hf. induction pre as [|a pre IH]; simpl.
  - rewrite Hf. reflexivity.
  - rewrite IH. apply orb_true_r.
Qed.

Lemma label_match_line_start f content rest pos m :
  reach content 0 rest pos -> label_match f rest pos m ->
  at_line_start f content = true.
Proof.
  intros (pre0 & -> & Hpos) (pre & w & tail & _ & _ & _ & Hf & [[-> ->]| ->]);
    unfold at_line_start.
  - destruct pre0; [simpl; now rewrite Hf | simpl in Hpos; lia].
  - rewrite after_lf_app by exact Hf. apply orb_true_r.
Qed.

Lemma digit_run_ge s : forall cur, cur <= digit_run s cur.
Proof.
  induction s as [|c s IH]; intros cur; simpl; [lia|].
  destruct (isdigit c); [specialize (IH (S cur))|]; lia.
Qed.

Lemma digit_run_mono s : forall cur cur',
  cur <= cur' -> digit_run s cur <= digit_run s cur'.
Proof.
  induction s as [|c s IH]; intros cur cur' H; simpl; [lia|].
  destruct (isdigit c); [apply IH|]; lia.
Qed.

Lemma digit_run_digits w t : forall cur,
  all_chars isdigit w = true ->
  String.length w + cur <= digit_run (w ++ t) cur.
Proof.
  induction w as [|c w IH]; intros cur Hw; simpl in *.
  - apply digit_run_ge.
  - apply andb_true_iff in Hw as [-> Hw]. specialize (IH (S cur) Hw). lia.
Qed.

Lemma digit_run_suffix pre t : forall cur,
  digit_run t 0 <= digit_run (pre ++ t) cur.
Proof.
  induction pre as [|c pre IH]; intros cur; simpl.
  - apply digit_run_mono. lia.
  - destruct (isdigit c); [apply IH|]. specialize (IH 0). lia.
Qed.

Lemma label_match_digit_run f content rest pos m :
  reach content 0 rest pos -> label_match f rest pos m ->
  1 <= String.length (m_group 1 m)
  /\ all_chars isdigit (m_group 1 m) = true
  /\ String.length (m_group 1 m) <= longest_digit_run content.
Proof.
  intros (pre0 & -> & _) (pre & w & tail & -> & Hn & Hw & _ & Hrest).
  split; [exact Hn|]. split; [exact Hw|].
  assert (Hsub : exists a, pre0 ++ rest = a ++ w ++ tail).
  { destruct Hrest as [[_ ->]| ->].
    - exists (pre0 ++ pre). now rewrite !append_assoc.
    - exists (pre0 ++ String LF pre).
      rewrite !append_assoc. reflexivity. }
  destruct Hsub as (a & ->). unfold longest_digit_run.
  pose proof (digit_run_suffix a (w ++ tail) 0).
  pose proof (digit_run_digits w tail 0 Hw). lia.
Qed.

(** ** [int] accepts every label within the digit limit *)

Lemma digit_char c :
  isdigit c = true -> forall d, exists d', uint_of_char c (Some d) = Some d'.
Proof.
  destruct c as [[] [] [] [] [] [] [] []]; vm_compute; try congruence;
    intros _ d; eexists; reflexivity.
Qed.

Lemma uint_of_digits w :
  all_chars isdigit w = true ->
  exists d, NilEmpty.uint_of_string w = Some d.
Proof.
  induction w as [|c w IH]; simpl; intros Hw; [eauto|].
  apply andb_true_iff in Hw as [Hc Hw].
  destruct (IH Hw) as (d & ->). now apply digit_char.
Qed.

Lemma int_of_str_digits w :
  1 <= String.length w -> all_chars isdigit w = true ->
  String.length w <= int_max_str_digits ->
  exists n, int_of_str w = Some n.
Proof.
  intros Hn Hw Hlim. unfold int_of_str.
  destruct w as [|c w]; [simpl in Hn; lia|].
  apply Nat.leb_le in Hlim. rewrite Hlim.
  destruct (uint_of_digits _ Hw) as (d & ->). simpl. eauto.
Qed.

(** Every tuple [findall] returns for a thought pattern carries, as its
    first component, a digit run of the text. *)
Lemma findall2_labels content pattern :
  In pattern thought_patterns ->
  Forall (fun m => 1 <= String.length (fst m)
                   /\ all_chars isdigit (fst m) = true
                   /\ String.length (fst m) <= longest_digit_run content)
         (findall2 pattern content).
Proof.
  intros Hin. unfold findall2, finditer. apply Forall_map.
  apply scan_Forall. intros rest' pos' ma m Hr Hm. cbn [fst].
  destruct Hin as [<-|[<-|[]]].
  - eapply label_match_digit_run; [exact Hr|].
    eapply numbered_shape; exact Hm.
  - eapply label_match_digit_run; [exact Hr|].
    eapply thought_n_shape; exact Hm.
Qed.

(** Without a line that opens with a label, a thought pattern finds
    nothing. *)
Lemma findall2_numbered_nil content :
  has_numbered_line content = false ->
  findall2 numbered_pattern content = [].
Proof.
  intros Hno. unfold findall2, finditer. rewrite scan_nil; [reflexivity|].
  intros rest' pos' ma Hr.
  destruct (match_at numbered_pattern rest' pos' ma) eqn:Hm; [|reflexivity].
  apply numbered_shape in Hm.
  pose proof (label_match_line_start _ _ _ _ _ Hr Hm) as Hl.
  unfold has_numbered_line in Hno. congruence.
Qed.

Lemma findall2_thought_n_nil content :
  has_thought_n_line content = false ->
  findall2 thought_n_pattern content = [].
Proof.
  intros Hno. unfold findall2, finditer. rewrite scan_nil; [reflexivity|].
  intros rest' pos' ma Hr.
  destruct (match_at thought_n_pattern rest' pos' ma) eqn:Hm; [|reflexivity].
  apply thought_n_shape in Hm.
  pose proof (label_match_line_start _ _ _ _ _ Hr Hm) as Hl.
  unfold has_thought_n_line in Hno. congruence.
Qed.


End ParsingFacts.
Import ParsingFacts.

Module ExtractFacts.
Local Open Scope string_scope.
Local Open Scope list_scope.

Lemma thought_of_match_id node_id m t :
  thought_of_match node_id m = Return t ->
  exists n, int_of_str (fst m) = Some n
            /\ thought_id t = Some (PStr (thought_id_of node_id n)).
Proof.
  unfold thought_of_match. destruct (int_of_str (fst m)) as [n|]; [|discriminate].
  destruct (split_rationale _ _) as [desc rat]. intros H. injection H as <-.
  exists n. split; reflexivity.
Qed.

Lemma thought_of_match_ok node_id m n :
  int_of_str (fst m) = Some n -> exists t, thought_of_match node_id m = Return t.
Proof.
  unfold thought_of_match. intros ->.
  destruct (split_rationale _ _) as [desc rat]. eauto.
Qed.

Lemma for_matches_inv node_id ms : forall acc l,
  for_matches node_id ms acc = Return l ->
  exists ts, l = acc ++ ts
    /\ map thought_id ts
       = map (fun m => id_entry node_id (int_of_str (fst m))) ms
    /\ Forall (fun m => exists n, int_of_str (fst m) = Some n) ms.
Proof.
  induction ms as [|m ms IH]; intros acc l H; simpl in H.
  - injection H as <-. exists []. rewrite app_nil_r. auto.
  - destruct (thought_of_match node_id m) as [t|e] eqn:Ht; [|discriminate].
    simpl in H. destruct (IH _ _ H) as (ts & -> & Hids & Hall).
    destruct (thought_of_match_id _ _ _ Ht) as (n & Hn & Hid).
    exists (t :: ts). rewrite <- app_assoc. split; [reflexivity|].
    split; [|constructor; eauto].
    simpl. rewrite Hids, Hid, Hn. reflexivity.
Qed.

Lemma for_matches_ok node_id ms : forall acc,
  Forall (fun m => exists n, int_of_str (fst m) = Some n) ms ->
  exists ts, for_matches node_id ms acc = Return (acc ++ ts)
             /\ List.length ts = List.length ms.
Proof.
  induction ms as [|m ms IH]; intros acc Hall; simpl.
  - exists []. rewrite app_nil_r. auto.
  - inversion Hall as [|? ? (n & Hn) Hall']; subst.
    destruct (thought_of_match_ok node_id m n Hn) as (t & ->). simpl.
    destruct (IH (acc ++ [t]) Hall') as (ts & -> & Hlen).
    exists (t :: ts). rewrite <- app_assoc. simpl. auto.
Qed.

Lemma for_patterns_inv node_id content ps : forall acc l,
  for_patterns node_id content ps acc = Return l ->
  exists ts, l = acc ++ ts
    /\ map thought_id ts
       = map (fun w => id_entry node_id (int_of_str w))
           (flat_map (fun pattern => map fst (findall2 pattern content)) ps)
    /\ Forall (fun p => Forall (fun m => exists n, int_of_str (fst m) = Some n)
                          (findall2 p content)) ps.
Proof.
  induction ps as [|p ps IH]; intros acc l H; simpl in H.
  - injection H as <-. exists []. rewrite app_nil_r. auto.
  - destruct (for_matches node_id (findall2 p content) acc) as [l1|e] eqn:H1;
      [|discriminate].
    simpl in H. destruct (for_matches_inv _ _ _ _ H1) as (ts1 & -> & Hid1 & Hall1).
    destruct (IH _ _ H) as (ts2 & -> & Hid2 & Hall2).
    exists (ts1 ++ ts2). rewrite <- app_assoc. split; [reflexivity|].
    split; [|constructor; assumption].
    simpl. rewrite !map_app, Hid1, Hid2, map_map. reflexivity.
Qed.

Lemma for_patterns_ok node_id content ps : forall acc,
  Forall (fun p => Forall (fun m => exists n, int_of_str (fst m) = Some n)
                     (findall2 p content)) ps ->
  exists l, for_patterns node_id content ps acc = Return l.
Proof.
  induction ps as [|p ps IH]; intros acc Hall; simpl; [eauto|].
  inversion Hall as [|? ? Hp Hall']; subst.
  destruct (for_matches_ok node_id _ acc Hp) as (ts & -> & _). simpl.
  apply IH. exact Hall'.
Qed.

(** ** Identifiers and numbers *)

Lemma append_inv_head (a x y : string) : (a ++ x = a ++ y)%string -> x = y.
Proof. induction a as [|c a IH]; simpl; intros H; [exact H|]. injection H. auto. Qed.

Lemma str_of_N_inj n m : str_of_N n = str_of_N m -> n = m.
Proof.
  unfold str_of_N. intros H. apply Unsigned.to_uint_inj.
  assert (Hs : Some (N.to_uint n) = Some (N.to_uint m)).
  { rewrite <- !NilEmpty.usu. now rewrite H. }
  now injection Hs.
Qed.

Lemma thought_id_of_inj node_id n m :
  thought_id_of node_id n = thought_id_of node_id m -> n = m.
Proof.
  unfold thought_id_of. intros H.
  apply append_inv_head in H. apply (append_inv_head "-t") in H.
  now apply str_of_N_inj.
Qed.

Lemma all_Some {A} (l : list (option A)) :
  Forall (fun o => exists a, o = Some a) l -> exists l', l = map Some l'.
Proof.
  induction 1 as [|o l (a & ->) _ (l' & ->)]; [exists [] | exists (a :: l')];
    reflexivity.
Qed.

Lemma Forall_flat_map {A B} (P : B -> Prop) (f : A -> list B) l :
  Forall (fun a => Forall P (f a)) l -> Forall P (flat_map f l).
Proof.
  induction 1; simpl; [constructor | apply Forall_app; auto].
Qed.

Lemma Forall_flat_map_inv {A B} (P : B -> Prop) (f : A -> list B) l :
  Forall P (flat_map f l) -> Forall (fun a => Forall P (f a)) l.
Proof.
  induction l; simpl; intros H; [constructor|].
  apply Forall_app in H as [? ?]. constructor; auto.
Qed.

Lemma int_of_str_limit w n :
  int_of_str w = Some n -> String.length w <= int_max_str_digits.
Proof.
  unfold int_of_str. destruct w; [discriminate|].
  destruct (Nat.leb_spec (String.length (String a w)) int_max_str_digits);
    [auto | discriminate].
Qed.

(** Every label is a non-empty digit run of the text. *)
Lemma labels_digit_runs content :
  Forall (fun w => 1 <= String.length w /\ all_chars isdigit w = true
                   /\ String.length w <= longest_digit_run content)
         (labels content).
Proof.
  unfold labels. apply Forall_flat_map. apply Forall_forall.
  intros p Hp. apply Forall_map. apply (findall2_labels content p Hp).
Qed.

End ExtractFacts.
Import ExtractFacts.

(* ===================================================================== *)
(** * The response extractor: identifiers and totality *)
(* ===================================================================== *)

(** The matcher on sample texts. *)

Example findall_numbered_items :
  findall2 numbered_pattern ("1. a" ++ nl ++ "1. b")%string
  = [("1", "a"); ("1", "b")].
Proof. reflexivity. Qed.

Example findall_label_inside_item :
  findall2 numbered_pattern
    ("1. version 2.0 is" ++ nl ++ "12: b" ++ nl ++ nl)%string
  = [("1", "version "); ("12", "b")].
Proof. reflexivity. Qed.

Example findall_blank_item :
  findall2 numbered_pattern ("1." ++ nl ++ "2. b")%string = [("1", "")].
Proof. reflexivity. Qed.

Example findall_indented_item :
  findall2 numbered_pattern "  1. a" = [].
Proof. reflexivity. Qed.

Example findall_both_formats :
  let content := ("1. x" ++ nl ++ "Thought 1: y")%string in
  findall2 numbered_pattern content
  = [("1", ("x" ++ nl ++ "Thought ")%string)]
  /\ findall2 thought_n_pattern content = [("1", "y")].
Proof. split; reflexivity. Qed.

Example split_without_dotall :
  split_rationale rationale_patterns
    ("d Rationale: a" ++ nl ++ "b" ++ nl ++ nl ++ "c Rationale: q")%string
  = (("d Rationale: a" ++ nl ++ "b" ++ nl ++ nl ++ "c")%string,
     ("a" ++ nl ++ "b")%string).
Proof. reflexivity. Qed.

Example extract_thought_with_rationale :
  extract_thoughts
    ("Thought 1: **Thought**: do x  " ++ nl ++ "**Rationale**: because"
     ++ nl ++ nl ++ "more" ++ nl ++ "Thought 2: y Rationale: z")%string
    "n0"
  = Return
      [ [("thought_id", PStr "n0-t1"); ("description", PStr "do x");
         ("generation_rationale", PStr "because")];
        [("thought_id", PStr "n0-t2"); ("description", PStr "y");
         ("generation_rationale", PStr "z")] ].
Proof. reflexivity. Qed.

(** C2 (first half, and the second as the code has it).  Every thought
    [extract_thoughts] returns is identified by [node_id], then [-t],
    then the decimal number of its label; the identifiers are pairwise
    distinct exactly when the label numbers are. *)
Theorem extract_thoughts_ids content node_id thoughts :
  extract_thoughts content node_id = Return thoughts ->
  exists nums,
    label_numbers content = map Some nums
    /\ map thought_id thoughts
       = map (fun n => Some (PStr (node_id ++ "-t" ++ str_of_N n)%string)) nums
    /\ (NoDup (map thought_id thoughts) <-> NoDup nums).
Proof.
  intros H. apply for_patterns_inv in H as (ts & -> & Hids & Hall).
  simpl app. fold (labels content) in Hids.
  assert (Hsome : Forall (fun o => exists n, o = Some n) (label_numbers content)).
  { unfold label_numbers, labels. apply Forall_map. apply Forall_flat_map.
    eapply Forall_impl; [|exact Hall]. intros p Hp. apply Forall_map. exact Hp. }
  destruct (all_Some _ Hsome) as (nums & Hnums).
  exists nums. split; [exact Hnums|].
  assert (Hmap : map thought_id ts
      = map (fun n => Some (PStr (thought_id_of node_id n))) nums).
  { rewrite Hids. rewrite <- (map_map int_of_str (id_entry node_id)).
    fold (label_numbers content). rewrite Hnums, map_map. reflexivity. }
  split; [exact Hmap|]. rewrite Hmap.
  split.
  - apply NoDup_map_inv.
  - apply Injective_map_NoDup. intros n m Hnm.
    injection Hnm as Hnm. now apply (thought_id_of_inj node_id).
Qed.

Lemma extract_thoughts_ids_witness :
  exists nums,
    label_numbers ("1. a" ++ nl ++ "2. b") = map Some nums
    /\ map thought_id
         [ [("thought_id", PStr "root-t1"); ("description", PStr "a");
            ("generation_rationale", PStr "")];
           [("thought_id", PStr "root-t2"); ("description", PStr "b");
            ("generation_rationale", PStr "")] ]
       = map (fun n => Some (PStr ("root" ++ "-t" ++ str_of_N n)%string)) nums
    /\ (NoDup (map thought_id
         [ [("thought_id", PStr "root-t1"); ("description", PStr "a");
            ("generation_rationale", PStr "")];
           [("thought_id", PStr "root-t2"); ("description", PStr "b");
            ("generation_rationale", PStr "")] ]) <-> NoDup nums).
Proof.
  apply (extract_thoughts_ids ("1. a" ++ nl ++ "2. b") "root"). reflexivity.
Defined.

(** C2 as stated fails: two items that carry the same number receive
    the same identifier. *)
Lemma extract_thoughts_ids_not_distinct :
  ~ (forall content node_id thoughts,
       extract_thoughts content node_id = Return thoughts ->
       NoDup (map thought_id thoughts)).
Proof.
  intros H.
  specialize (H ("1. a" ++ nl ++ "1. b")%string "root" _ eq_refl).
  inversion H as [|x l Hnotin _]. apply Hnotin. left. reflexivity.
Qed.

(** C3 (as the code has it).  [extract_thoughts] returns exactly when no
    label it found has more digits than [int] converts; so it returns
    for every text whose digit runs stay within that limit.  For a text
    without a numbered-list line and without a [Thought N:] line it
    returns the empty list. *)
Theorem extract_thoughts_returns content node_id :
  ((exists thoughts, extract_thoughts content node_id = Return thoughts)
   <-> Forall (fun w => String.length w <= int_max_str_digits)
              (labels content))
  /\ (longest_digit_run content <= int_max_str_digits ->
      exists thoughts, extract_thoughts content node_id = Return thoughts)
  /\ (has_numbered_line content = false ->
      has_thought_n_line content = false ->
      extract_thoughts content node_id = Return []).
Proof.
  assert (Hback : Forall (fun w => String.length w <= int_max_str_digits)
                         (labels content) ->
                  exists thoughts,
                    extract_thoughts content node_id = Return thoughts).
  { intros Hlim. apply for_patterns_ok.
    assert (Hok : Forall (fun w => exists n, int_of_str w = Some n)
                         (labels content)).
    { pose proof (labels_digit_runs content) as Hd.
      rewrite Forall_forall in *. intros w Hw.
      destruct (Hd w Hw) as (Hn & Hdig & _).
      apply int_of_str_digits; auto. }
    apply Forall_flat_map_inv in Hok.
    eapply Forall_impl; [|exact Hok]. intros p Hp.
    rewrite Forall_forall in *. intros m Hm. apply Hp.
    apply in_map. exact Hm. }
  split; [split; [|exact Hback]|split].
  - intros (thoughts & H). apply for_patterns_inv in H as (_ & _ & _ & Hall).
    unfold labels. apply Forall_flat_map.
    eapply Forall_impl; [|exact Hall]. intros p Hp. apply Forall_map.
    eapply Forall_impl; [|exact Hp]. intros m (n & Hn).
    eapply int_of_str_limit; exact Hn.
  - intros Hrun. apply Hback.
    eapply Forall_impl; [|apply labels_digit_runs].
    intros w (_ & _ & Hw). cbn beta in Hw. lia.
  - intros Hnum Hth. unfold extract_thoughts, thought_patterns.
    cbn [for_patterns].
    rewrite (findall2_numbered_nil _ Hnum), (findall2_thought_n_nil _ Hth).
    reflexivity.
Qed.

Lemma extract_thoughts_returns_witness :
  (exists thoughts,
     extract_thoughts "Let us think about it." "root" = Return thoughts)
  /\ extract_thoughts "Let us think about it." "root" = Return [].
Proof.
  destruct (extract_thoughts_returns "Let us think about it." "root")
    as (_ & Hret & Hnil).
  split.
  - apply Hret. apply Nat.leb_le. vm_compute. reflexivity.
  - apply Hnil; reflexivity.
Defined.

(** C3 as stated fails: a label of 4301 digits makes [int] raise
    [ValueError], and the call raises with it. *)
Lemma extract_thoughts_may_raise :
  ~ (forall content node_id,
       exists thoughts, extract_thoughts content node_id = Return thoughts).
Proof.
  intros H.
  destruct (H (repeat_char "1" 4301 ++ ". x")%string "root") as (l & Hl).
  vm_compute in Hl. discriminate.
Qed.

(* ===================================================================== *)
(** * The oracle boundary: fallback decision and retries *)
(* ===================================================================== *)

Module LlmFacts.

Section Retry.
Variable str_format : string -> dict -> pyresult string.
Variable json_loads : string -> option pyval.
Variable self : LLMInteraction.
Variable ep : endpoint.
Hypothesis client_present : client self = Some ep.
Variable rq : request.
Variable expect_function_call : bool.
Variable force_function_name : option string.
Variable kwargs : dict.
Variable n : Z.

Let loop := retry_loop json_loads self rq expect_function_call
              force_function_name kwargs n.

Lemma backoff_trace_prefix j : forall attempt,
  backoff_trace j attempt
  = backoff_prefix j attempt ++ [EvCall (attempt + Z.of_nat j)%Z].
Proof.
  induction j as [|j IH]; intros attempt; simpl.
  - now rewrite Z.add_0_r.
  - rewrite IH.
    replace (attempt + 1 + Z.of_nat j)%Z with (attempt + Z.of_nat (S j))%Z
      by lia.
    reflexivity.
Qed.

(** After [j] transient failures that are not the last attempt, the loop
    stands at attempt [attempt + j], having called and waited [j]
    times. *)
Lemma retry_loop_prefix j : forall remaining attempt w,
  transient_run ep rq j w ->
  (attempt + Z.of_nat j <= n)%Z ->
  j <= remaining ->
  loop remaining attempt w
  = loop (remaining - j) (attempt + Z.of_nat j)%Z
      (World (w_calls w + j) (w_trace w ++ backoff_prefix j attempt)).
Proof.
  induction j as [|j IH]; intros remaining attempt w Hrun Hn Hrem.
  - simpl. rewrite Nat.sub_0_r, Z.add_0_r, Nat.add_0_r, app_nil_r.
    destruct w; reflexivity.
  - destruct remaining as [|remaining]; [lia|].
    destruct (Hrun 0 ltac:(lia)) as (e & He & Htr).
    rewrite Nat.add_0_r in He.
    unfold loop. cbn [retry_loop]. unfold attempt_once.
    rewrite client_present, He, Htr.
    destruct (Z.ltb_spec attempt n); [|lia].
    fold loop. rewrite IH.
    + cbn [slept called w_calls w_trace Nat.sub backoff_prefix].
      rewrite <- !app_assoc. cbn [app].
      replace (attempt + 1 + Z.of_nat j)%Z with (attempt + Z.of_nat (S j))%Z
        by lia.
      replace (S (w_calls w) + j) with (w_calls w + S j) by lia.
      reflexivity.
    + intros i Hi. cbn [slept called w_calls].
      destruct (Hrun (S i) ltac:(lia)) as (e' & He' & Htr').
      exists e'. split; [|exact Htr'].
      rewrite <- He'. f_equal. lia.
    + lia.
    + lia.
Qed.

Lemma parse_response_raises content e :
  parse_response json_loads expect_function_call force_function_name kwargs
    content = Raise e ->
  is_transient e = false /\ is_Exception e = true.
Proof.
  unfold parse_response. intros H.
  repeat match type of H with
  | (if ?b then _ else _) = _ => destruct b
  | match ?x with _ => _ end = _ => destruct x
  end; try discriminate; injection H as <-; split; reflexivity.
Qed.

(** An attempt whose outcome is not retried ends the loop. *)
Lemma retry_loop_settles remaining attempt w o :
  ep (w_calls w) rq = o ->
  (not_transient o = true \/ (n <= attempt)%Z) ->
  loop (S remaining) attempt w
  = (settle json_loads expect_function_call force_function_name kwargs o,
     called attempt w).
Proof.
  intros Ho Hfin. unfold loop. cbn [retry_loop]. unfold attempt_once.
  rewrite client_present, Ho. destruct o as [content|e]; cbn [settle].
  - destruct (parse_response _ _ _ _ content) as [d|e] eqn:Hp; [reflexivity|].
    destruct (parse_response_raises _ _ Hp) as [-> ->]. reflexivity.
  - destruct (is_transient e) eqn:Htr.
    + destruct Hfin as [Hnt|Hlast]; [simpl in Hnt; rewrite Htr in Hnt; discriminate|].
      destruct (Z.ltb_spec attempt n); [lia|].
      assert (His : is_Exception e = true).
      { unfold is_transient in Htr. unfold is_Exception.
        destruct (exn_cls e); try discriminate; reflexivity. }
      rewrite His. reflexivity.
    + destruct (is_Exception e); reflexivity.
Qed.

End Retry.

(** [call_llm] after [j] transient failures followed by an outcome it
    does not retry. *)
Lemma call_llm_after_transients str_format json_loads self ep rq
    tmpl sys efc fdefs ffn kwargs n j o w :
  client self = Some ep ->
  as_int (retry_attempts self) = Return n ->
  build_request str_format self tmpl sys efc fdefs ffn kwargs = Return rq ->
  (Z.of_nat j < n)%Z ->
  transient_run ep rq j w ->
  ep (w_calls w + j) rq = o ->
  (not_transient o = true \/ (Z.of_nat j + 1 = n)%Z) ->
  call_llm str_format json_loads self tmpl sys efc fdefs ffn kwargs w
  = (settle json_loads efc ffn kwargs o,
     World (w_calls w + j + 1) (w_trace w ++ backoff_trace j 1)).
Proof.
  intros Hc Hn Hrq Hj Hrun Ho Hfin. unfold call_llm. rewrite Hrq, Hn.
  rewrite (retry_loop_prefix json_loads self ep Hc rq efc ffn kwargs n j
             (Z.to_nat n) 1 w Hrun) by lia.
  destruct (Z.to_nat n - j) as [|k] eqn:Hk; [lia|].
  rewrite (retry_loop_settles json_loads self ep Hc rq efc ffn kwargs n k
             (1 + Z.of_nat j)
             (World (w_calls w + j) (w_trace w ++ backoff_prefix j 1)) o Ho).
  - unfold called. cbn [w_calls w_trace].
    rewrite backoff_trace_prefix, <- app_assoc.
    replace (S (w_calls w + j)) with (w_calls w + j + 1) by lia.
    reflexivity.
  - destruct Hfin; [left; assumption | right; lia].
Qed.

End LlmFacts.
Import LlmFacts.

(** The attempt count is the configured [llm_retry_attempts], three by
    default. *)
Remark init_retry_attempts config sdk :
  retry_attempts (init config sdk)
  = dict_get_default config "llm_retry_attempts" (PInt 3).
Proof. reflexivity. Qed.

(** With [retry_attempts] at most zero the loop body never runs: no
    call is made and the closing [return] of [call_llm] is reached. *)
Lemma call_llm_no_attempt str_format json_loads self rq
    tmpl sys efc fdefs ffn kwargs n w :
  as_int (retry_attempts self) = Return n ->
  build_request str_format self tmpl sys efc fdefs ffn kwargs = Return rq ->
  (n <= 0)%Z ->
  call_llm str_format json_loads self tmpl sys efc fdefs ffn kwargs w
  = (Return [ ("type", PStr "error");
              ("content", PStr "Unexpected error in LLM call") ], w).
Proof.
  intros Hn Hrq Hle. unfold call_llm. rewrite Hrq, Hn.
  replace (Z.to_nat n) with 0 by lia. reflexivity.
Qed.

(** An error of a class other than the two the handler names is not
    retried, whatever it stands for: one call, no wait. *)
Example other_error_not_retried :
  call_llm (fun t _ => Return t) (fun _ => None)
    (Self (PStr "m") (PInt 3)
       (Some (fun _ _ =>
          ApiRaise (Exn (ExcOther "APIConnectionError") "Connection error."))))
    "p" "" false None None [] (World 0 [])
  = (Raise (Exn ExcException "API error: Connection error."),
     World 1 [EvCall 1]).
Proof. reflexivity. Qed.

(** C1.  When a function call was demanded with a forced (non-empty)
    function name and the response carries no tool-use item, [call_llm]
    returns the synthesised call whose decision has action type
    [Backtrack], never [Select], and a rationale that records the
    failure.  This holds for the first response and for a response that
    arrives after transient failures were retried. *)
Theorem call_llm_forced_fallback str_format json_loads self ep rq
    tmpl sys fdefs name kwargs n j content w :
  client self = Some ep ->
  as_int (retry_attempts self) = Return n ->
  build_request str_format self tmpl sys true fdefs (Some name) kwargs
    = Return rq ->
  name <> "" ->
  (Z.of_nat j < n)%Z ->
  transient_run ep rq j w ->
  ep (w_calls w + j) rq = ApiReturn content ->
  has_tool_use content = false ->
  exists d decision w',
    call_llm str_format json_loads self tmpl sys true fdefs (Some name)
      kwargs w = (Return d, w')
    /\ dict_get d "type" = Some (PStr "function_call")
    /\ dict_get d "name" = Some (PStr name)
    /\ decision_of d = Some decision
    /\ dict_get decision "action_type" = Some (PStr "Backtrack")
    /\ dict_get decision "action_type" <> Some (PStr "Select")
    /\ dict_get decision "decision_rationale"
       = Some (PStr "Function calling failed, fallback to backtracking.").
Proof.
  intros Hc Hn Hrq Hname Hj Hrun Ho Hno.
  exists (fallback_call name kwargs), fallback_decision.
  eexists. split.
  - rewrite (call_llm_after_transients _ _ _ _ _ _ _ _ _ _ _ _ _ _ _
               Hc Hn Hrq Hj Hrun Ho (or_introl eq_refl)).
    cbn [settle parse_response]. unfold has_tool_use in Hno.
    destruct (first_tool_use content); [discriminate|].
    unfold str_truthy. apply String.eqb_neq in Hname. rewrite Hname.
    reflexivity.
  - repeat split; try reflexivity. discriminate.
Qed.

Lemma call_llm_forced_fallback_witness :
  exists d decision w',
    call_llm (fun t _ => Return t) (fun _ => None)
      (Self (PStr "m") (PInt 3)
         (Some (fun i _ =>
                  if (i <? 1)%nat then ApiRaise (Exn ExcTimeoutError "timed out")
                  else ApiReturn [TextBlock "I would backtrack."])))
      "p" "" true None (Some "log_node_details") [] (World 0 [])
    = (Return d, w')
    /\ dict_get d "type" = Some (PStr "function_call")
    /\ dict_get d "name" = Some (PStr "log_node_details")
    /\ decision_of d = Some decision
    /\ dict_get decision "action_type" = Some (PStr "Backtrack")
    /\ dict_get decision "action_type" <> Some (PStr "Select")
    /\ dict_get decision "decision_rationale"
       = Some (PStr "Function calling failed, fallback to backtracking.").
Proof.
  eapply (call_llm_forced_fallback _ _ _ _ _ _ _ _ _ _ 3%Z 1
            [TextBlock "I would backtrack."]).
  - reflexivity.
  - reflexivity.
  - reflexivity.
  - discriminate.
  - lia.
  - intros i Hi. assert (i = 0) as -> by lia.
    eexists. split; reflexivity.
  - reflexivity.
  - reflexivity.
Defined.



(* ===================================================================== *)
(** * The logging sink and the structured-output contract *)
(* ===================================================================== *)

Local Open Scope string_scope.

Module LogFacts.

Section WithRepr.
Variable repr_builtin : pyval -> string.






End WithRepr.
End LogFacts.
Import LogFacts.








Module ConfigFacts.
Local Open Scope string_scope.

Lemma dict_mem_keys (d : dict) key :
  dict_mem d key = true <-> In key (map fst d).
Proof.
  unfold dict_mem. induction d as [|[k v] d IH]; simpl.
  - split; [discriminate | tauto].
  - destruct (String.eqb_spec k key) as [->|Hk].
    + split; auto.
    + rewrite IH. split; [auto | intros [?|?]; [contradiction | assumption]].
Qed.

Lemma differ_only_at_keys key c1 c2 :
  differ_only_at key c1 c2 -> map fst c1 = map fst c2.
Proof.
  induction 1 as [|x y l1 l2 [Hk _] _ IH]; simpl; congruence.
Qed.

(** Without the key, the two configurations are equal. *)
Lemma differ_only_at_absent key c1 c2 :
  differ_only_at key c1 c2 -> ~ In key (map fst c1) -> c1 = c2.
Proof.
  induction 1 as [|[k1 v1] [k2 v2] l1 l2 [Hk Hv] _ IH]; simpl; intros Hno;
    [reflexivity|].
  simpl in Hk, Hv. subst k2.
  rewrite Hv by (intros ->; apply Hno; auto).
  rewrite IH by (intros Hin; apply Hno; auto). reflexivity.
Qed.

(** Once the value under the key is overwritten, they are equal. *)
Lemma differ_only_at_set key c1 c2 v :
  differ_only_at key c1 c2 -> dict_wf c1 ->
  dict_set c1 key v = dict_set c2 key v.
Proof.
  unfold dict_wf.
  induction 1 as [|[k1 v1] [k2 v2] l1 l2 [Hk Hv] Hrest IH]; simpl; intros Hwf;
    [reflexivity|].
  simpl in Hk, Hv. subst k2. inversion Hwf as [|? ? Hnotin Hwf']; subst.
  destruct (String.eqb_spec k1 key) as [->|Hne].
  - rewrite (differ_only_at_absent _ _ _ Hrest Hnotin). reflexivity.
  - rewrite (Hv Hne), (IH Hwf'). reflexivity.
Qed.

Lemma safe_config_of_same kind key_independent c1 c2 :
  key_independent = "llm_api_key" ->
  differ_only_at key_independent c1 c2 -> dict_wf c1 ->
  safe_config_of (ConfigArg kind c1) = safe_config_of (ConfigArg kind c2).
Proof.
  intros -> Hd Hwf. unfold safe_config_of. cbn [cfg_kind cfg_entries].
  destruct kind; try reflexivity.
  all: destruct (dict_mem c1 "llm_api_key") eqn:Hm1.
  all: try (assert (Hm2 : dict_mem c2 "llm_api_key" = true)
              by (apply dict_mem_keys; rewrite <- (differ_only_at_keys _ _ _ Hd);
                  now apply dict_mem_keys);
            rewrite Hm2; now apply differ_only_at_set).
  all: assert (Hno : ~ In "llm_api_key" (map fst c1))
         by (intros Hin; apply dict_mem_keys in Hin; congruence).
  all: rewrite <- (differ_only_at_absent _ _ _ Hd Hno), Hm1; reflexivity.
Qed.

Lemma dict_get_set_same (d : dict) key v :
  dict_get (dict_set d key v) key = Some v.
Proof.
  induction d as [|[k w] d IH]; simpl.
  - now rewrite String.eqb_refl.
  - destruct (String.eqb_spec k key) as [->|Hk]; simpl.
    + now rewrite String.eqb_refl.
    + apply String.eqb_neq in Hk. now rewrite Hk.
Qed.

End ConfigFacts.
Import ConfigFacts.

(** C9.  Two configurations that differ only in the value stored under
    [llm_api_key] make [initialize_log_file] write the same header (for
    the same clock reading and task): the value is overwritten by the
    text [***REDACTED***] before anything is printed. *)
Theorem initialize_log_file_hides_key repr_builtin log_file_path timestamp
    task_description kind c1 c2 log :
  dict_wf c1 ->
  differ_only_at "llm_api_key" c1 c2 ->
  initialize_log_file repr_builtin log_file_path timestamp task_description
    (ConfigArg kind c1) log
  = initialize_log_file repr_builtin log_file_path timestamp task_description
      (ConfigArg kind c2) log
  /\ (kind <> Opaque -> dict_mem c1 "llm_api_key" = true ->
      dict_get (safe_config_of (ConfigArg kind c1)) "llm_api_key"
      = Some (PStr "***REDACTED***")
      /\ dict_get (safe_config_of (ConfigArg kind c2)) "llm_api_key"
         = Some (PStr "***REDACTED***")).
Proof.
  intros Hwf Hd. split.
  - unfold initialize_log_file.
    now rewrite (safe_config_of_same kind "llm_api_key" c1 c2 eq_refl Hd Hwf).
  - intros Hk Hm.
    rewrite <- (safe_config_of_same kind "llm_api_key" c1 c2 eq_refl Hd Hwf).
    assert (H1 : dict_get (safe_config_of (ConfigArg kind c1)) "llm_api_key"
                 = Some (PStr "***REDACTED***")).
    { unfold safe_config_of. cbn [cfg_kind cfg_entries].
      destruct kind; try contradiction; rewrite Hm; apply dict_get_set_same. }
    split; exact H1.
Qed.

Lemma initialize_log_file_hides_key_witness :
  initialize_log_file (fun _ => "") "logs/tota_run_20250101_000000.md"
    "2025-01-01 00:00:00" "task"
    (ConfigArg HasCopy
       [("llm_api_key", PStr "sk-one"); ("max_depth", PInt 3)]) "old"
  = initialize_log_file (fun _ => "") "logs/tota_run_20250101_000000.md"
      "2025-01-01 00:00:00" "task"
      (ConfigArg HasCopy
         [("llm_api_key", PStr "sk-two"); ("max_depth", PInt 3)]) "old".
Proof.
  apply (initialize_log_file_hides_key (fun _ => "")
           "logs/tota_run_20250101_000000.md" "2025-01-01 00:00:00"
           "task" HasCopy
           [("llm_api_key", PStr "sk-one"); ("max_depth", PInt 3)]
           [("llm_api_key", PStr "sk-two"); ("max_depth", PInt 3)] "old").
  - unfold dict_wf. simpl. repeat constructor; simpl; intuition discriminate.
  - unfold differ_only_at. repeat constructor; simpl; intuition congruence.
Defined.

(** C8.  The contract [get_function_definitions] returns holds one
    function whose [llm_decision] schema lists exactly [Select],
    [Backtrack], [Success] for [action_type], types
    [selected_thought_id] as string or null, and requires [action_type]
    and [decision_rationale]; so every decision that satisfies the
    schema has one of the three actions, a rationale, and a selected
    thought that is absent, null or a text, and each of the three
    actions is admitted. *)
Theorem get_function_definitions_decision_contract config defs :
  get_function_definitions config = Return defs ->
  exists func_def schema,
    defs = [func_def]
    /\ decision_schema_of func_def = Some schema
    /\ match property schema "action_type" with
       | Some s =>
           get_in s "enum"
           = Some (PList [PStr "Select"; PStr "Backtrack"; PStr "Success"])
       | None => False
       end
    /\ match property schema "selected_thought_id" with
       | Some s => get_in s "type" = Some (PList [PStr "string"; PStr "null"])
       | None => False
       end
    /\ get_in schema "required"
       = Some (PList [PStr "action_type"; PStr "decision_rationale"])
    /\ (forall decision,
          object_ok schema decision = true ->
          exists d,
            decision = PDict d
            /\ (exists a, dict_get d "action_type" = Some (PStr a)
                          /\ In a ["Select"; "Backtrack"; "Success"])
            /\ (exists r, dict_get d "decision_rationale" = Some (PStr r))
            /\ (dict_get d "selected_thought_id" = None
                \/ dict_get d "selected_thought_id" = Some PNone
                \/ exists t, dict_get d "selected_thought_id" = Some (PStr t)))
    /\ (forall a, In a ["Select"; "Backtrack"; "Success"] ->
          object_ok schema
            (PDict [("action_type", PStr a); ("decision_rationale", PStr "")])
          = true).
Proof.
  unfold get_function_definitions. intros H.
  destruct (log_function_name config) as [name|]; [|discriminate].
  cbn [bind] in H. injection H as <-.
  eexists. exists llm_decision_schema.
  split; [reflexivity|]. split; [reflexivity|].
  split; [reflexivity|]. split; [reflexivity|]. split; [reflexivity|].
  split.
  - intros decision Hok. destruct decision as [| | | | |l|d]; try discriminate.
    exists d. split; [reflexivity|].
    unfold object_ok, llm_decision_schema in Hok.
    cbn [get_in dict_get String.eqb Ascii.eqb Bool.eqb forallb fst snd] in Hok.
    unfold dict_mem in Hok.
    rewrite !andb_true_iff in Hok.
    destruct Hok as [[Hact [Hrat _]] [Pact [Psel [Prat _]]]].
    destruct (dict_get d "action_type") as [a|]; [|discriminate].
    destruct (dict_get d "decision_rationale") as [r|]; [|discriminate].
    split; [|split].
    + destruct a as [| | | |a| |]; try discriminate.
      exists a. split; [reflexivity|].
      unfold scalar_ok in Pact. cbn in Pact.
      rewrite !orb_false_r in Pact.
      rewrite !orb_true_iff, !String.eqb_eq in Pact.
      simpl. intuition.
    + destruct r as [| | | |r| |]; try discriminate. eauto.
    + destruct (dict_get d "selected_thought_id") as [[| | | |t| |]|];
        try discriminate; eauto.
  - intros a [<-|[<-|[<-|[]]]]; reflexivity.
Qed.

Lemma get_function_definitions_decision_contract_witness :
  exists func_def schema,
    [[("name", PStr "log_node_details");
      ("description",
       PStr "Log details about a node in the thought tree, including its sub-problem, generated thoughts, and the LLM's decision.");
      ("parameters", parameters_schema)]] = [func_def]
    /\ decision_schema_of func_def = Some schema
    /\ object_ok schema
         (PDict [("action_type", PStr "Success");
                 ("decision_rationale", PStr "")]) = true.
Proof.
  destruct (get_function_definitions_decision_contract [] _ eq_refl)
    as (func_def & schema & Hd & Hs & _ & _ & _ & _ & Hadm).
  exists func_def, schema. split; [exact Hd|]. split; [exact Hs|].
  apply Hadm. simpl. auto.
Defined.

(* ===================================================================== *)
(** * The run entry point *)
(* ===================================================================== *)

(** C5.  Once the components are set up, [run_tota_agent] returns a
    status instead of raising whenever the run raises an [Exception],
    [TransientError], [ProtocolError] and [ResourceExhausted] included:
    the result is then [("Error", None, None)].  A result of the run is
    passed on unchanged; so, the run keeping to its contract, the
    status returned is one of [Succeeded], [Failed], [Cancelled],
    [Error], and the solution path is [None] unless the run
    succeeded. *)
Theorem run_tota_agent_returns_status (manager : Type)
    (setup : string -> pyresult manager)
    (run_agent : manager -> string -> pyresult (pyval * pyval * pyval))
    task_description config_path cfm :
  setup config_path = Return cfm ->
  (forall e, run_agent cfm task_description = Raise e ->
     is_Exception e = true ->
     run_tota_agent manager setup run_agent task_description config_path
     = Return (PStr "Error", PNone, PNone))
  /\ (forall cls msg,
        In cls [TransientError; ProtocolError; ResourceExhausted] ->
        run_agent cfm task_description = Raise (Exn cls msg) ->
        run_tota_agent manager setup run_agent task_description config_path
        = Return (PStr "Error", PNone, PNone))
  /\ (forall r, run_agent cfm task_description = Return r ->
        run_tota_agent manager setup run_agent task_description config_path
        = Return r)
  /\ (run_agent_contract manager run_agent ->
      forall status solution_path log_file,
        run_tota_agent manager setup run_agent task_description config_path
        = Return (status, solution_path, log_file) ->
        In status statuses
        /\ (status <> PStr "Succeeded" -> solution_path = PNone)).
Proof.
  intros Hsetup. unfold run_tota_agent. rewrite Hsetup. cbn [bind].
  split; [|split; [|split]].
  - intros e -> ->. reflexivity.
  - intros cls msg Hin ->.
    destruct Hin as [<-|[<-|[<-|[]]]]; reflexivity.
  - intros [[status solution_path] log_file] ->. reflexivity.
  - intros Hcontract status solution_path log_file.
    destruct (run_agent cfm task_description) as [[[st sp] lf]|e] eqn:Hrun.
    + intros H. injection H as <- <- <-. eapply Hcontract. exact Hrun.
    + destruct (is_Exception e); [|discriminate].
      intros H. injection H as <- <- <-.
      split; [simpl; auto | reflexivity].
Qed.

(** The handler is [except Exception]: a [StructuralError] of the run is
    turned into the [Error] status as well. *)
Example structural_error_is_caught :
  run_tota_agent unit (fun _ => Return tt)
    (fun _ _ => Raise (Exn StructuralError "duplicate id"))
    "trivial task" "config.yaml"
  = Return (PStr "Error", PNone, PNone).
Proof. reflexivity. Qed.

(** An exception of setting up the components is outside the [try]. *)
Example setup_error_propagates :
  run_tota_agent unit
    (fun _ => Raise (Exn (ExcOther "FileNotFoundError") "config.yaml"))
    (fun _ _ => Return (PStr "Succeeded", PNone, PNone))
    "trivial task" "config.yaml"
  = Raise (Exn (ExcOther "FileNotFoundError") "config.yaml").
Proof. reflexivity. Qed.

Lemma run_tota_agent_returns_status_witness :
  run_tota_agent unit (fun _ => Return tt)
    (fun _ _ => Raise (Exn TransientError "connection lost"))
    "trivial task" "config.yaml"
  = Return (PStr "Error", PNone, PNone).
Proof.
  apply (proj1 (proj2 (run_tota_agent_returns_status unit
                         (fun _ => Return tt)
                         (fun _ _ => Raise (Exn TransientError "connection lost"))
                         "trivial task" "config.yaml" tt eq_refl))
           TransientError "connection lost").
  - simpl. auto.
  - reflexivity.
Defined.

(* ================================================================== *)
(** * Completeness of the matcher *)

(** The matcher finds a match wherever the reading of the pattern
    admits one: with [exec_sound] this makes [scan], [search] and
    [findall2] decide the existence of a match. *)

Module ReComplete.
Local Open Scope string_scope.

Section RepComplete.
Context {A : Type}.

Lemma rep_greedy_complete c w : forall min rest' pos (k : nat -> string -> option A),
  all_chars (cls_mem c) w = true -> min <= String.length w ->
  k (pos + String.length w) rest' <> None ->
  rep_greedy c min (w ++ rest') pos k <> None.
Proof.
  induction w as [|a w IH]; intros min rest' pos k Hw Hmin Hk.
  - simpl in *. assert (min = 0) as -> by lia. rewrite Nat.add_0_r in Hk.
    destruct rest' as [|b rest']; simpl; [exact Hk|].
    destruct (cls_mem c b); [|exact Hk].
    unfold or_else. destruct (rep_greedy c 0 rest' (S pos) k); [discriminate|exact Hk].
  - simpl in Hw. apply andb_true_iff in Hw as [Ha Hw].
    cbn [append rep_greedy]. rewrite Ha. unfold or_else.
    destruct (rep_greedy c (pred min) (w ++ rest') (S pos) k) eqn:Hr;
      [discriminate|].
    exfalso. revert Hr. apply IH; [exact Hw | simpl in Hmin; lia |].
    simpl in Hk. replace (S pos + String.length w) with (pos + S (String.length w)) by lia.
    exact Hk.
Qed.

Lemma rep_lazy_complete c w : forall min rest' pos (k : nat -> string -> option A),
  all_chars (cls_mem c) w = true -> min <= String.length w ->
  k (pos + String.length w) rest' <> None ->
  rep_lazy c min (w ++ rest') pos k <> None.
Proof.
  induction w as [|a w IH]; intros min rest' pos k Hw Hmin Hk.
  - simpl in *. assert (min = 0) as -> by lia. rewrite Nat.add_0_r in Hk.
    destruct rest' as [|b rest']; simpl; unfold or_else;
      destruct (k pos _); try discriminate; contradiction.
  - simpl in Hw. apply andb_true_iff in Hw as [Ha Hw].
    cbn [append rep_lazy]. unfold or_else.
    destruct (if (min =? 0)%nat then k pos (String a (w ++ rest')) else None);
      [discriminate|].
    rewrite Ha. apply IH; [exact Hw | simpl in Hmin; lia |].
    simpl in Hk. replace (S pos + String.length w) with (pos + S (String.length w)) by lia.
    exact Hk.
Qed.

Lemma rep_greedy_none_ext c rest : forall min pos (k1 k2 : nat -> string -> option A),
  (forall p r, k1 p r = None -> k2 p r = None) ->
  rep_greedy c min rest pos k1 = None -> rep_greedy c min rest pos k2 = None.
Proof.
  induction rest as [|a rest IH]; intros min pos k1 k2 Hk; simpl.
  - destruct (min =? 0)%nat; auto.
  - destruct (cls_mem c a).
    + unfold or_else.
      destruct (rep_greedy c (pred min) rest (S pos) k1) eqn:H1; [discriminate|].
      rewrite (IH _ _ _ _ Hk H1). destruct (min =? 0)%nat; auto.
    + destruct (min =? 0)%nat; auto.
Qed.

Lemma rep_lazy_none_ext c rest : forall min pos (k1 k2 : nat -> string -> option A),
  (forall p r, k1 p r = None -> k2 p r = None) ->
  rep_lazy c min rest pos k1 = None -> rep_lazy c min rest pos k2 = None.
Proof.
  induction rest as [|a rest IH]; intros min pos k1 k2 Hk; simpl; unfold or_else.
  - destruct (min =? 0)%nat; [|auto].
    destruct (k1 pos "") eqn:H1; [discriminate|]. now rewrite (Hk _ _ H1).
  - destruct (min =? 0)%nat.
    + destruct (k1 pos (String a rest)) eqn:H1; [discriminate|].
      rewrite (Hk _ _ H1). destruct (cls_mem c a); [apply IH; exact Hk | auto].
    + destruct (cls_mem c a); [apply IH; exact Hk | auto].
Qed.

End RepComplete.

(** Whether the matcher fails does not depend on the groups it starts
    with, nor on those its continuation is handed. *)
Lemma exec_none_ext r : forall pos rest c1 c2 k1 k2,
  (forall p q d1 d2, k1 (MState p q d1) = None -> k2 (MState p q d2) = None) ->
  exec r (MState pos rest c1) k1 = None ->
  exec r (MState pos rest c2) k2 = None.
Proof.
  induction r; intros pos rest c1 c2 k1 k2 Hk; cbn [exec ms_pos ms_rest ms_caps].
  - apply Hk.
  - destruct rest as [|a rest]; [auto|]. destruct (cls_mem c a); [apply Hk | auto].
  - destruct (pos =? 0)%nat; [apply Hk | auto].
  - destruct rest; [apply Hk | auto].
  - apply IHr1. intros p q d1 d2. apply IHr2. exact Hk.
  - unfold or_else.
    destruct (exec r1 (MState pos rest c1) k1) eqn:H1; [discriminate|].
    rewrite (IHr1 _ _ _ c2 _ k2 Hk H1). apply IHr2. exact Hk.
  - destruct greedy.
    + apply rep_greedy_none_ext. intros p q. apply Hk.
    + apply rep_lazy_none_ext. intros p q. apply Hk.
  - apply IHr. intros p q d1 d2. cbn [ms_pos ms_rest ms_caps]. apply Hk.
  - destruct (exec r (MState pos rest c1) Some) as [s1|] eqn:H1.
    + destruct (exec r (MState pos rest c2) Some) as [s2|] eqn:H2; [|auto].
      cbn [ms_pos ms_rest]. apply Hk.
    + assert (H2 : exec r (MState pos rest c2) Some = None).
      { apply (IHr pos rest c1 c2 Some Some); [|exact H1].
        intros p q d1 d2 H. discriminate H. }
      now rewrite H2.
Qed.

(** Completeness of the matcher: a run described by [denote] that the
    continuation accepts is never missed. *)
Lemma exec_complete r : forall s k s',
  caps_blind k -> denote r s s' -> k s' <> None -> exec r s k <> None.
Proof.
  induction r; intros s k s' Hb Hd Hk; cbn [denote] in Hd; cbn [exec].
  - now subst.
  - destruct Hd as (a & Hr & Ha & Hp & Hc). destruct s as [pos rest caps].
    destruct s' as [pos' rest' caps']. cbn in *. subst. rewrite Ha. exact Hk.
  - destruct Hd as [Hp ->]. rewrite Hp. exact Hk.
  - destruct Hd as [Hr ->]. rewrite Hr. exact Hk.
  - destruct Hd as (s1 & H1 & H2).
    apply (IHr1 s _ s1); [|exact H1|].
    + intros pos rest c1 c2. apply exec_none_ext.
      intros p q d1 d2. apply Hb.
    + apply (IHr2 s1 k s'); assumption.
  - unfold or_else. destruct (exec r1 s k) eqn:H1; [discriminate|].
    destruct Hd as [Hd|Hd].
    + exfalso. revert H1. apply (IHr1 s k s'); assumption.
    + apply (IHr2 s k s'); assumption.
  - destruct Hd as (w & Hmin & Hw & Hr & Hp & Hc).
    destruct s' as [pos' rest' caps']. cbn in *. subst.
    rewrite Hr.
    destruct greedy;
      [apply rep_greedy_complete | apply rep_lazy_complete]; assumption.
  - destruct Hd as (s1 & H1 & ->).
    apply (IHr s _ s1); [|exact H1|exact Hk].
    intros pos rest c1 c2. cbn [ms_pos ms_rest ms_caps]. apply Hb.
  - destruct Hd as (s1 & H1 & ->).
    destruct (exec r s Some) as [s2|] eqn:H2.
    + intros Hn. apply Hk. revert Hn. apply Hb.
    + exfalso. revert H2. apply (IHr s Some s1); [|exact H1|discriminate].
      intros pos rest c1 c2. discriminate.
Qed.

Lemma match_at_complete r rest pos s' :
  denote r (MState pos rest []) s' -> match_at r rest pos false <> None.
Proof.
  intros Hd. unfold match_at. cbn [andb].
  destruct (exec r (MState pos rest []) (fun s' => Some s')) eqn:He;
    [discriminate|].
  exfalso. revert He. apply (exec_complete r _ _ s'); [|exact Hd|discriminate].
  intros p q c1 c2. discriminate.
Qed.

(** Where an attempt can succeed at a position the scanner can stand
    at, the scanner reports a match. *)
Lemma scan_nonempty r : forall rest pos rest' pos',
  reach rest pos rest' pos' ->
  match_at r rest' pos' false <> None ->
  scan r rest pos 0 <> [].
Proof.
  induction rest as [|a rest IH]; intros pos rest' pos' (pre & Hr & Hp) Hm.
  - destruct pre; [|discriminate]. simpl in Hr, Hp. subst.
    rewrite Nat.add_0_r in Hm. cbn [scan].
    destruct (match_at r "" pos false); [|contradiction].
    destruct (m_end r0 =? pos)%nat; discriminate.
  - cbn [scan].
    destruct (match_at r (String a rest) pos false) as [m|] eqn:H1.
    + destruct (m_end m =? pos)%nat; discriminate.
    + destruct pre as [|b pre].
      * simpl in Hr, Hp. subst. rewrite Nat.add_0_r in Hm. contradiction.
      * simpl in Hr. injection Hr as -> ->.
        apply (IH (S pos) rest' pos'); [|exact Hm].
        exists pre. split; [reflexivity | simpl in Hp; lia].
Qed.

(** Building runs. *)

Lemma denote_rep g min c pos w rest caps :
  min <= String.length w -> all_chars (cls_mem c) w = true ->
  denote (RRep g min c) (MState pos (w ++ rest) caps)
    (MState (pos + String.length w) rest caps).
Proof. intros Hm Hw. cbn. exists w. auto. Qed.

Lemma denote_char c a pos rest caps :
  cls_mem c a = true ->
  denote (RChar c) (MState pos (String a rest) caps) (MState (S pos) rest caps).
Proof. intros Ha. cbn. exists a. auto. Qed.

Lemma denote_lit s : forall pos rest caps,
  denote (lit s) (MState pos (s ++ rest) caps)
    (MState (pos + String.length s) rest caps).
Proof.
  induction s as [|a s IH]; intros pos rest caps; cbn [lit denote append].
  - simpl. now rewrite Nat.add_0_r.
  - exists (MState (S pos) (s ++ rest) caps). split.
    + apply denote_char. simpl. apply Ascii.eqb_refl.
    + replace (pos + String.length (String a s))
        with (S pos + String.length s) by (simpl; lia).
      apply IH.
Qed.

Lemma all_any w : all_chars (cls_mem CAny) w = true.
Proof. induction w; simpl; auto. Qed.

Lemma append_empty_r (s : string) : s ++ "" = s.
Proof. induction s; simpl; congruence. Qed.

End ReComplete.
Import ReComplete.

Module ParsingComplete.
Local Open Scope string_scope.

Lemma skip_while_split p s :
  exists w, s = w ++ skip_while p s /\ all_chars p w = true.
Proof.
  induction s as [|a s (w & Hs & Hw)]; simpl.
  - exists "". auto.
  - destruct (p a) eqn:Ha.
    + exists (String a w). simpl. rewrite Ha, Hw. split; [congruence|reflexivity].
    + exists "". auto.
Qed.

Lemma label_at_elim sep s :
  label_at sep s = true ->
  exists w d b t,
    s = w ++ String d (String b t) /\ 1 <= String.length w
    /\ all_chars isdigit w = true /\ is_mark d = true /\ sep b = true.
Proof.
  unfold label_at. destruct s as [|c s]; [discriminate|].
  intros H. apply andb_true_iff in H as [Hc H].
  destruct (skip_while_split isdigit (String c s)) as (w & Hs & Hw).
  destruct (skip_while isdigit (String c s)) as [|d [|b t]]; try discriminate.
  apply andb_true_iff in H as [Hd Hb].
  exists w, d, b, t. repeat split; auto.
  destruct w as [|x w]; [|simpl; lia].
  simpl in Hs. injection Hs as -> _.
  rewrite (mark_not_digit _ Hd) in Hc. discriminate.
Qed.

(** The lookahead of both thought patterns holds at the end of the
    text. *)
Lemma numbered_item_run pos w d b t caps :
  1 <= String.length w -> all_chars isdigit w = true ->
  is_mark d = true -> isspace b = true ->
  exists s',
    denote (RGroup 1 (RRep true 1 CDigit) ;; RChar (COneOf ".:") ;;
            RRep true 1 CSpace ;; RGroup 2 (RRep false 0 CAny) ;;
            RAhead (RRep true 0 (CChar LF) ;;
                    ((RRep true 1 CDigit ;; RChar (COneOf ".:")) <|> REos)))%re
      (MState pos (w ++ String d (String b t)) caps) s'.
Proof.
  intros Hn Hw Hd Hb. rewrite <- (append_empty_r t). eexists. cbn [denote].
  eexists. split.
  { eexists. split; [exact (denote_rep true 1 CDigit pos w _ caps Hn Hw) | reflexivity]. }
  eexists. split.
  { apply denote_char. exact Hd. }
  eexists. split.
  { apply (denote_rep true 1 CSpace _ (String b "") (t ++ "")).
    - simpl. lia.
    - simpl. now rewrite Hb. }
  eexists. split.
  { eexists. split; [|reflexivity].
    apply (denote_rep false 0 CAny _ t ""); [lia | apply all_any]. }
  eexists. split; [|reflexivity].
  cbn [ms_pos ms_rest ms_caps].
  eexists. split.
  { apply (denote_rep true 0 (CChar LF) _ "" ""); [simpl; lia | reflexivity]. }
  right. split; reflexivity.
Qed.

Lemma numbered_match_exists pos rest line :
  starts_numbered line = true ->
  (pos = 0 /\ rest = line) \/ rest = String LF line ->
  match_at numbered_pattern rest pos false <> None.
Proof.
  intros Hl Hpos.
  apply label_at_elim in Hl as (w & d & b & t & -> & Hn & Hw & Hd & Hb).
  unfold numbered_pattern.
  destruct Hpos as [[-> ->]| ->].
  - destruct (numbered_item_run 0 w d b t [] Hn Hw Hd Hb) as (s' & Hs').
    apply (match_at_complete _ _ _ s').
    exists (MState 0 (w ++ String d (String b t)) []).
    split; [left; split; reflexivity | exact Hs'].
  - destruct (numbered_item_run (S pos) w d b t [] Hn Hw Hd Hb) as (s' & Hs').
    apply (match_at_complete _ _ _ s').
    exists (MState (S pos) (w ++ String d (String b t)) []).
    split; [right; apply denote_char; reflexivity | exact Hs'].
Qed.

Lemma strip_prefix_elim p : forall s r,
  strip_prefix p s = Some r -> s = p ++ r.
Proof.
  induction p as [|a p IH]; intros s r H; simpl in *.
  - congruence.
  - destruct s as [|b s]; [discriminate|].
    destruct (Ascii.eqb_spec a b) as [->|]; [|discriminate].
    now rewrite (IH _ _ H).
Qed.

Lemma thought_n_item_run pos bl w d b t caps :
  1 <= String.length bl -> all_chars is_blank bl = true ->
  1 <= String.length w -> all_chars isdigit w = true ->
  is_mark d = true -> is_blank b = true ->
  exists s',
    denote (lit "Thought" ;; RRep true 1 blank ;;
            RGroup 1 (RRep true 1 CDigit) ;; RChar (COneOf ".:") ;;
            RRep true 1 blank ;; RGroup 2 (RRep false 0 CAny) ;;
            RAhead (RRep true 0 (CChar LF) ;;
                    ((lit "Thought" ;; RRep true 1 blank ;;
                      RRep true 1 CDigit ;; RChar (COneOf ".:")) <|> REos)))%re
      (MState pos ("Thought" ++ bl ++ w ++ String d (String b t)) caps) s'.
Proof.
  intros Hbn Hbl Hn Hw Hd Hb. rewrite <- (append_empty_r t). eexists.
  cbn [denote].
  eexists. split.
  { exact (denote_lit "Thought" pos _ caps). }
  eexists. split.
  { exact (denote_rep true 1 blank _ bl _ caps Hbn Hbl). }
  eexists. split.
  { eexists. split; [exact (denote_rep true 1 CDigit _ w _ caps Hn Hw) | reflexivity]. }
  eexists. split.
  { apply denote_char. exact Hd. }
  eexists. split.
  { apply (denote_rep true 1 blank _ (String b "") (t ++ "")).
    - simpl. lia.
    - cbn [all_chars]. change (cls_mem blank b) with (is_blank b).
      now rewrite Hb. }
  eexists. split.
  { eexists. split; [|reflexivity].
    apply (denote_rep false 0 CAny _ t ""); [lia | apply all_any]. }
  eexists. split; [|reflexivity].
  cbn [ms_pos ms_rest ms_caps].
  eexists. split.
  { apply (denote_rep true 0 (CChar LF) _ "" ""); [simpl; lia | reflexivity]. }
  right. split; reflexivity.
Qed.

Lemma starts_thought_n_elim line :
  starts_thought_n line = true ->
  exists bl w d b t,
    line = "Thought" ++ bl ++ w ++ String d (String b t)
    /\ 1 <= String.length bl /\ all_chars is_blank bl = true
    /\ 1 <= String.length w /\ all_chars isdigit w = true
    /\ is_mark d = true /\ is_blank b = true.
Proof.
  unfold starts_thought_n.
  destruct (strip_prefix "Thought" line) as [[|b0 s1]|] eqn:Hp; try discriminate.
  intros H. apply andb_true_iff in H as [Hb0 Hl].
  apply strip_prefix_elim in Hp. subst line.
  destruct (skip_while_split is_blank s1) as (bl' & Hs1 & Hbl').
  apply label_at_elim in Hl as (w & d & b & t & Hsk & Hn & Hw & Hd & Hb).
  exists (String b0 bl'), w, d, b, t.
  split.
  { rewrite Hs1 at 1. rewrite Hsk. cbn [append]. reflexivity. }
  split; [simpl; lia|]. split; [simpl; now rewrite Hb0, Hbl'|].
  auto.
Qed.

Lemma thought_n_match_exists pos rest line :
  starts_thought_n line = true ->
  (pos = 0 /\ rest = line) \/ rest = String LF line ->
  match_at thought_n_pattern rest pos false <> None.
Proof.
  intros Hl Hpos.
  apply starts_thought_n_elim in Hl
    as (bl & w & d & b & t & -> & Hbn & Hbl & Hn & Hw & Hd & Hb).
  unfold thought_n_pattern.
  destruct Hpos as [[-> ->]| ->].
  - destruct (thought_n_item_run 0 bl w d b t [] Hbn Hbl Hn Hw Hd Hb) as (s' & Hs').
    apply (match_at_complete _ _ _ s').
    eexists. split; [left; split; reflexivity | exact Hs'].
  - destruct (thought_n_item_run (S pos) bl w d b t [] Hbn Hbl Hn Hw Hd Hb)
      as (s' & Hs').
    apply (match_at_complete _ _ _ s').
    eexists. split; [right; apply denote_char; reflexivity | exact Hs'].
Qed.

Lemma after_lf_elim f s :
  after_lf f s = true ->
  exists pre line, s = pre ++ String LF line /\ f line = true.
Proof.
  induction s as [|c s IH]; simpl; [discriminate|].
  intros H. apply orb_true_iff in H as [H|H].
  - apply andb_true_iff in H as [Hc Hf]. apply Ascii.eqb_eq in Hc. subst c.
    exists "", s. auto.
  - destruct (IH H) as (pre & line & -> & Hf). exists (String c pre), line. auto.
Qed.

(** A line that opens as [f] requires gives the scanner a position to
    stand at. *)
Lemma at_line_start_elim f content :
  at_line_start f content = true ->
  exists rest pos line,
    reach content 0 rest pos /\ f line = true
    /\ ((pos = 0 /\ rest = line) \/ rest = String LF line).
Proof.
  unfold at_line_start. intros H. apply orb_true_iff in H as [H|H].
  - exists content, 0, content. split; [apply reach_refl|]. auto.
  - apply after_lf_elim in H as (pre & line & -> & Hf).
    exists (String LF line), (String.length pre), line.
    split; [exists pre; auto|]. auto.
Qed.

Lemma findall2_numbered_nonempty content :
  has_numbered_line content = true -> findall2 numbered_pattern content <> [].
Proof.
  intros H. apply at_line_start_elim in H as (rest & pos & line & Hr & Hf & Hp).
  unfold findall2, finditer. intros Hn. apply map_eq_nil in Hn. revert Hn.
  apply (scan_nonempty _ _ _ _ _ Hr).
  apply (numbered_match_exists pos rest line Hf Hp).
Qed.

Lemma findall2_thought_n_nonempty content :
  has_thought_n_line content = true -> findall2 thought_n_pattern content <> [].
Proof.
  intros H. apply at_line_start_elim in H as (rest & pos & line & Hr & Hf & Hp).
  unfold findall2, finditer. intros Hn. apply map_eq_nil in Hn. revert Hn.
  apply (scan_nonempty _ _ _ _ _ Hr).
  apply (thought_n_match_exists pos rest line Hf Hp).
Qed.

End ParsingComplete.
Import ParsingComplete.

(* ================================================================== *)
(** * What [extract_thoughts] returns *)

Module ExtractMore.
Local Open Scope string_scope.

Lemma for_matches_Forall2 node_id ms : forall acc l,
  for_matches node_id ms acc = Return l <->
  exists ts, l = (acc ++ ts)%list
    /\ Forall2 (fun m t => thought_of_match node_id m = Return t) ms ts.
Proof.
  induction ms as [|m ms IH]; intros acc l; simpl.
  - split.
    + intros H. injection H as <-. exists []. rewrite app_nil_r. auto.
    + intros (ts & -> & H). inversion H. now rewrite app_nil_r.
  - split.
    + destruct (thought_of_match node_id m) as [t|e] eqn:Ht; [|discriminate].
      simpl. intros H. apply IH in H as (ts & -> & Hall).
      exists (t :: ts). rewrite <- app_assoc. split; [reflexivity|].
      constructor; assumption.
    + intros (ts & -> & H). inversion H as [|? t ? ts' Ht Hall]; subst.
      rewrite Ht. simpl. apply IH. exists ts'. rewrite <- app_assoc. auto.
Qed.

Lemma for_patterns_Forall2 node_id content ps : forall acc l,
  for_patterns node_id content ps acc = Return l <->
  exists ts, l = (acc ++ ts)%list
    /\ Forall2 (fun m t => thought_of_match node_id m = Return t)
         (flat_map (fun p => findall2 p content) ps) ts.
Proof.
  induction ps as [|p ps IH]; intros acc l; simpl.
  - split.
    + intros H. injection H as <-. exists []. rewrite app_nil_r. auto.
    + intros (ts & -> & H). inversion H. now rewrite app_nil_r.
  - split.
    + destruct (for_matches node_id (findall2 p content) acc) as [l1|e] eqn:H1;
        [|discriminate].
      simpl. intros H. apply for_matches_Forall2 in H1 as (ts1 & -> & Hall1).
      apply IH in H as (ts2 & -> & Hall2).
      exists (ts1 ++ ts2)%list. rewrite <- app_assoc. split; [reflexivity|].
      apply Forall2_app; assumption.
    + intros (ts & -> & H). apply Forall2_app_inv_l in H
        as (ts1 & ts2 & Hall1 & Hall2 & ->).
      assert (H1 : for_matches node_id (findall2 p content) acc
                   = Return (acc ++ ts1)%list)
        by (apply for_matches_Forall2; eauto).
      rewrite H1. simpl. apply IH. exists ts2. rewrite <- app_assoc. auto.
Qed.

Lemma extract_thoughts_Forall2 content node_id thoughts :
  extract_thoughts content node_id = Return thoughts <->
  Forall2 (fun m t => thought_of_match node_id m = Return t)
    (all_matches content) thoughts.
Proof.
  unfold extract_thoughts, all_matches. rewrite for_patterns_Forall2.
  split.
  - intros (ts & -> & H). exact H.
  - intros H. exists thoughts. auto.
Qed.

(** ** [strip] *)

Lemma rstrip_by_cons p c s :
  rstrip_by p (String c s)
  = match rstrip_by p s with
    | EmptyString => if p c then EmptyString else String c EmptyString
    | t => String c t
    end.
Proof. reflexivity. Qed.

Lemma rstrip_by_idem p s : rstrip_by p (rstrip_by p s) = rstrip_by p s.
Proof.
  induction s as [|c s IH]; [reflexivity|]. rewrite rstrip_by_cons.
  destruct (rstrip_by p s) as [|d t'] eqn:Hr.
  - destruct (p c) eqn:Hc; [reflexivity|].
    rewrite rstrip_by_cons. cbn [rstrip_by]. now rewrite Hc.
  - rewrite rstrip_by_cons, IH. reflexivity.
Qed.

Lemma lstrip_head s :
  lstrip s = "" \/ exists c t, lstrip s = String c t /\ isspace c = false.
Proof.
  induction s as [|c s IH]; simpl; [auto|].
  destruct (isspace c) eqn:Hc; [exact IH|]. right. eauto.
Qed.

Lemma rstrip_keeps_head c t :
  isspace c = false -> exists t', rstrip (String c t) = String c t'.
Proof.
  intros Hc. unfold rstrip. rewrite rstrip_by_cons.
  destruct (rstrip_by isspace t); [rewrite Hc|]; eauto.
Qed.

(** What [strip] returns has no whitespace left at either end. *)
Lemma strip_idem s : strip (strip s) = strip s.
Proof.
  unfold strip. destruct (lstrip_head s) as [->|(c & t & -> & Hc)];
    [reflexivity|].
  destruct (rstrip_keeps_head c t Hc) as (t' & Ht'). rewrite Ht'.
  cbn [lstrip]. rewrite Hc. rewrite <- Ht'. apply rstrip_by_idem.
Qed.

Lemma strip_ends s :
  match strip s with
  | String c _ => isspace c = false
  | EmptyString => True
  end
  /\ rstrip (strip s) = strip s.
Proof.
  split; [|unfold strip; apply rstrip_by_idem].
  unfold strip. destruct (lstrip_head s) as [->|(c & t & -> & Hc)]; [exact I|].
  destruct (rstrip_keeps_head c t Hc) as (t' & ->). exact Hc.
Qed.

(** The record the loop body builds. *)
Lemma thought_of_match_fields node_id m t :
  thought_of_match node_id m = Return t ->
  map fst t = thought_keys
  /\ exists n description rationale,
       int_of_str (fst m) = Some n
       /\ t = [ ("thought_id", PStr (thought_id_of node_id n));
                ("description", PStr description);
                ("generation_rationale", PStr rationale) ]
       /\ strip description = description
       /\ strip rationale = rationale.
Proof.
  unfold thought_of_match. destruct (int_of_str (fst m)) as [n|]; [|discriminate].
  destruct (split_rationale rationale_patterns (strip (snd m)))
    as [desc rat] eqn:Hs.
  intros H. injection H as <-. split; [reflexivity|].
  exists n. do 2 eexists. split; [reflexivity|]. split; [reflexivity|].
  split; [apply strip_idem|].
  revert Hs. generalize (strip (snd m)). intros full.
  unfold rationale_patterns. cbn [split_rationale].
  repeat match goal with
  | |- context [search ?r ?x] => destruct (search r x)
  end; intros H; injection H as <- <-; try apply strip_idem; reflexivity.
Qed.

End ExtractMore.
Import ExtractMore.

(** X1.  [extract_thoughts] returns the empty list exactly for the
    texts in which no line opens with a numbered-list label and none
    with a [Thought N:] label; any such line yields a thought (or the
    [int] error). *)
Theorem extract_thoughts_empty_iff content node_id :
  extract_thoughts content node_id = Return []
  <-> has_numbered_line content = false
      /\ has_thought_n_line content = false.
Proof.
  split.
  - intros H. apply extract_thoughts_Forall2 in H. inversion H as [Hm|].
    unfold all_matches, thought_patterns in Hm. cbn [flat_map] in Hm.
    symmetry in Hm. apply app_eq_nil in Hm as [H1 H2].
    rewrite app_nil_r in H2.
    split.
    + destruct (has_numbered_line content) eqn:Hn; [|reflexivity].
      exfalso. revert H1. now apply findall2_numbered_nonempty.
    + destruct (has_thought_n_line content) eqn:Hn; [|reflexivity].
      exfalso. revert H2. now apply findall2_thought_n_nonempty.
  - intros [Hnum Hth]. unfold extract_thoughts, thought_patterns.
    cbn [for_patterns].
    rewrite (findall2_numbered_nil _ Hnum), (findall2_thought_n_nil _ Hth).
    reflexivity.
Qed.

(** X2.  Every thought [extract_thoughts] returns is a record of
    exactly three entries, [thought_id], [description] and
    [generation_rationale] in this order, all texts; description and
    rationale carry no whitespace at either end; there is one thought
    per label found. *)
Theorem extract_thoughts_records content node_id thoughts :
  extract_thoughts content node_id = Return thoughts ->
  List.length thoughts = List.length (labels content)
  /\ Forall (fun t =>
       map fst t = thought_keys
       /\ exists id description rationale,
            t = [ ("thought_id", PStr id); ("description", PStr description);
                  ("generation_rationale", PStr rationale) ]
            /\ strip description = description
            /\ strip rationale = rationale) thoughts.
Proof.
  intros H. apply extract_thoughts_Forall2 in H. split.
  - apply Forall2_length in H. rewrite <- H. unfold all_matches, labels.
    rewrite !flat_map_concat_map, !length_concat, !map_map.
    f_equal. apply map_ext. intros p. now rewrite length_map.
  - revert H. generalize (all_matches content). intros ms H.
    induction H as [|m t ms ts Hm _ IH]; constructor; [|exact IH].
    apply thought_of_match_fields in Hm as (Hk & n & d & r & _ & -> & Hd & Hr).
    split; [reflexivity|]. eauto 8.
Qed.

Lemma extract_thoughts_records_witness :
  List.length
    [ [("thought_id", PStr "root-t1"); ("description", PStr "a");
       ("generation_rationale", PStr "")];
      [("thought_id", PStr "root-t2"); ("description", PStr "b");
       ("generation_rationale", PStr "")] ]
  = List.length (labels ("1. a" ++ nl ++ "2. b"))
  /\ Forall (fun t =>
       map fst t = thought_keys
       /\ exists id description rationale,
            t = [ ("thought_id", PStr id); ("description", PStr description);
                  ("generation_rationale", PStr rationale) ]
            /\ strip description = description
            /\ strip rationale = rationale)
       [ [("thought_id", PStr "root-t1"); ("description", PStr "a");
          ("generation_rationale", PStr "")];
         [("thought_id", PStr "root-t2"); ("description", PStr "b");
          ("generation_rationale", PStr "")] ].
Proof.
  apply (extract_thoughts_records ("1. a" ++ nl ++ "2. b") "root"). reflexivity.
Defined.

(* ================================================================== *)
(** * [extract_xml] *)

Module XmlFacts.
Local Open Scope string_scope.

Lemma denote_lit_inv s : forall st st',
  denote (lit s) st st' ->
  ms_rest st = s ++ ms_rest st'
  /\ ms_pos st' = ms_pos st + String.length s
  /\ ms_caps st' = ms_caps st.
Proof.
  induction s as [|a s IH]; intros st st' H; cbn [lit denote] in H.
  - subst. simpl. auto.
  - destruct H as (s1 & (b & Hr & Hb & Hp & Hc) & H2).
    apply IH in H2 as (Hr2 & Hp2 & Hc2).
    apply lit_char in Hb. subst b.
    rewrite Hr, Hr2, Hp2, Hp, Hc2, Hc. simpl. repeat split; lia.
Qed.

(** [re.search] reports a match of an attempt at a position of the
    text. *)
Lemma search_sound r s m :
  search r s = Some m ->
  exists rest pos ma, reach s 0 rest pos /\ match_at r rest pos ma = Some m.
Proof.
  unfold search, finditer. intros H.
  pose proof (scan_Forall
    (fun m => exists rest pos ma,
       reach s 0 rest pos /\ match_at r rest pos ma = Some m) r s 0 0) as HF.
  destruct (scan r s 0 0) as [|m0 l]; [discriminate|]. injection H as ->.
  assert (HF' : Forall (fun m => exists rest pos ma,
       reach s 0 rest pos /\ match_at r rest pos ma = Some m) (m :: l)).
  { apply HF. intros rest' pos' ma m' Hr Hm. eauto. }
  now inversion HF'.
Qed.

Lemma search_complete r s rest pos :
  reach s 0 rest pos -> match_at r rest pos false <> None ->
  search r s <> None.
Proof.
  intros Hr Hm. unfold search, finditer.
  pose proof (scan_nonempty r s 0 rest pos Hr Hm).
  destruct (scan r s 0 0); [contradiction | discriminate].
Qed.

Lemma xml_match_shape tag rest pos ma m :
  match_at (xml_pattern tag) rest pos ma = Some m ->
  exists post,
    rest = ("<" ++ tag ++ ">") ++ m_group 1 m ++ ("</" ++ tag ++ ">") ++ post.
Proof.
  intros H. apply match_at_sound in H as (s' & H & ->).
  unfold xml_pattern in H. cbn [denote] in H.
  destruct H as (s1 & H1 & s2 & (s3 & (w & _ & _ & Hr & Hp & Hc) & ->) & H3).
  apply denote_lit_inv in H1 as (Hr1 & Hp1 & Hc1).
  apply denote_lit_inv in H3 as (Hr3 & Hp3 & Hc3).
  cbn [ms_pos ms_rest ms_caps] in *.
  exists (ms_rest s'). unfold m_group. cbn [m_caps].
  rewrite Hc3. cbn [cap_lookup Nat.eqb].
  rewrite Hr1, Hr, Hp. rewrite take_consumed. rewrite Hr3. reflexivity.
Qed.

Lemma xml_match_exists tag body post pos :
  match_at (xml_pattern tag)
    (("<" ++ tag ++ ">") ++ body ++ ("</" ++ tag ++ ">") ++ post) pos false
  <> None.
Proof.
  eapply match_at_complete. unfold xml_pattern. cbn [denote].
  eexists. split; [apply denote_lit|].
  eexists. split.
  { eexists. split; [|reflexivity].
    apply (denote_rep false 0 CAny _ body); [lia | apply all_any]. }
  apply denote_lit.
Qed.

End XmlFacts.
Import XmlFacts.

(** X3.  For a tag of ordinary characters, [extract_xml] returns [None]
    exactly when the text nowhere holds [<tag>] followed, at any
    distance, by [</tag>]; what it returns otherwise is the body of such
    a pair, with the whitespace at both ends removed. *)
Theorem extract_xml_tagged text tag :
  plain_tag tag = true ->
  (forall x, extract_xml text tag = Some x ->
     exists body, tagged text tag body /\ x = strip body)
  /\ (extract_xml text tag = None <-> forall body, ~ tagged text tag body).
Proof.
  intros _. unfold extract_xml. split.
  - intros x H.
    destruct (search (xml_pattern tag) text) as [m|] eqn:Hs; [|discriminate].
    injection H as <-.
    apply search_sound in Hs as (rest & pos & ma & (pre & -> & _) & Hm).
    apply xml_match_shape in Hm as (post & ->).
    exists (m_group 1 m). split; [|reflexivity]. exists pre, post. reflexivity.
  - split.
    + intros H body (pre & post & ->).
      destruct (search (xml_pattern tag) _) eqn:Hs; [discriminate|].
      revert Hs.
      apply (search_complete (xml_pattern tag) _
               (("<" ++ tag ++ ">") ++ body ++ ("</" ++ tag ++ ">") ++ post)
               (String.length pre)).
      * exists pre. split; [reflexivity | lia].
      * apply xml_match_exists.
    + intros H.
      destruct (search (xml_pattern tag) text) as [m|] eqn:Hs; [|reflexivity].
      exfalso.
      apply search_sound in Hs as (rest & pos & ma & (pre & -> & _) & Hm).
      apply xml_match_shape in Hm as (post & ->).
      apply (H (m_group 1 m)). exists pre, post. reflexivity.
Qed.

Lemma extract_xml_tagged_witness :
  (forall x, extract_xml "say <a> hi </a>" "a" = Some x ->
     exists body, tagged "say <a> hi </a>" "a" body /\ x = strip body)
  /\ (extract_xml "say <a> hi </a>" "a" = None
      <-> forall body, ~ tagged "say <a> hi </a>" "a" body).
Proof. apply (extract_xml_tagged "say <a> hi </a>" "a"). reflexivity. Defined.

(* ================================================================== *)
(** * [call_llm] against every client *)

Module LlmMore.
Local Open Scope string_scope.

Lemma transient_is_Exception e : is_transient e = true -> is_Exception e = true.
Proof.
  unfold is_transient, is_Exception. destruct (exn_cls e); try discriminate; reflexivity.
Qed.

(** Among the first [m] calls, either one has an outcome that is not
    retried, or all fail with a transient error. *)
Lemma first_settled (ep : endpoint) rq w m :
  (exists j, j < m /\ transient_run ep rq j w
             /\ not_transient (ep (w_calls w + j) rq) = true)
  \/ transient_run ep rq m w.
Proof.
  induction m as [|m [(j & Hj & Hrun & Hnt)|Hrun]].
  - right. intros i Hi. lia.
  - left. exists j. repeat split; [lia|assumption|assumption].
  - destruct (not_transient (ep (w_calls w + m) rq)) eqn:Hnt.
    + left. exists m. repeat split; [lia|assumption|assumption].
    + right. intros i Hi.
      destruct (Nat.eq_dec i m) as [->|Hne]; [|apply Hrun; lia].
      destruct (ep (w_calls w + m) rq) as [c|e]; [discriminate|].
      exists e. split; [reflexivity|].
      simpl in Hnt. now apply negb_false_iff in Hnt.
Qed.

(** Whatever the endpoint does, [call_llm] ends after some number of
    transient failures with an outcome it does not retry. *)
Lemma call_llm_settles str_format json_loads self ep rq
    tmpl sys efc fdefs ffn kwargs n w :
  client self = Some ep ->
  as_int (retry_attempts self) = Return n ->
  (1 <= n)%Z ->
  build_request str_format self tmpl sys efc fdefs ffn kwargs = Return rq ->
  exists j,
    (Z.of_nat j < n)%Z
    /\ transient_run ep rq j w
    /\ (not_transient (ep (w_calls w + j) rq) = true
        \/ (Z.of_nat j + 1 = n)%Z)
    /\ call_llm str_format json_loads self tmpl sys efc fdefs ffn kwargs w
       = (settle json_loads efc ffn kwargs (ep (w_calls w + j) rq),
          World (w_calls w + j + 1) (w_trace w ++ backoff_trace j 1)).
Proof.
  intros Hc Hn H1 Hrq.
  destruct (first_settled ep rq w (Z.to_nat n - 1))
    as [(j & Hj & Hrun & Hnt)|Hrun].
  - exists j. assert (Hlt : (Z.of_nat j < n)%Z) by lia.
    repeat split; [exact Hlt | exact Hrun | left; exact Hnt |].
    apply (call_llm_after_transients str_format json_loads self ep rq
             tmpl sys efc fdefs ffn kwargs n j _ w Hc Hn Hrq Hlt Hrun eq_refl).
    left; exact Hnt.
  - exists (Z.to_nat n - 1). assert (Hlt : (Z.of_nat (Z.to_nat n - 1) < n)%Z) by lia.
    repeat split; [exact Hlt | exact Hrun | right; lia |].
    apply (call_llm_after_transients str_format json_loads self ep rq
             tmpl sys efc fdefs ffn kwargs n _ _ w Hc Hn Hrq Hlt Hrun eq_refl).
    right; lia.
Qed.

Lemma calls_made_backoff j : forall a, calls_made (backoff_trace j a) = S j.
Proof. induction j as [|j IH]; intros a; simpl; [reflexivity|now rewrite IH]. Qed.

Lemma seconds_slept_backoff j : forall a, (0 <= a)%Z ->
  seconds_slept (backoff_trace j a) = (2 ^ (a + Z.of_nat j) - 2 ^ a)%Z.
Proof.
  induction j as [|j IH]; intros a Ha.
  - simpl. rewrite Z.add_0_r. lia.
  - cbn [backoff_trace seconds_slept]. rewrite IH by lia.
    replace (a + 1 + Z.of_nat j)%Z with (a + Z.of_nat (S j))%Z by lia.
    rewrite (Z.pow_add_r 2 a 1) by lia. lia.
Qed.

(** Without a client the first attempt fails on the attribute access;
    nothing is called. *)
Lemma call_llm_no_client str_format json_loads self rq
    tmpl sys efc fdefs ffn kwargs n w :
  client self = None ->
  as_int (retry_attempts self) = Return n ->
  build_request str_format self tmpl sys efc fdefs ffn kwargs = Return rq ->
  (1 <= n)%Z ->
  call_llm str_format json_loads self tmpl sys efc fdefs ffn kwargs w
  = (Raise (api_error (Exn (ExcOther "AttributeError")
                         "'NoneType' object has no attribute 'messages'")), w).
Proof.
  intros Hc Hn Hrq H1. unfold call_llm. rewrite Hrq, Hn.
  destruct (Z.to_nat n) as [|k] eqn:Hk; [lia|].
  cbn [retry_loop]. unfold attempt_once. rewrite Hc. reflexivity.
Qed.

Lemma settle_raises json_loads efc ffn kwargs o e :
  settle json_loads efc ffn kwargs o = Raise e ->
  (exists e0, e = api_error e0)
  \/ (is_Exception e = false /\ o = ApiRaise e).
Proof.
  destruct o as [content|e0]; cbn [settle].
  - destruct (parse_response _ _ _ _ content); [discriminate|].
    intros H; injection H as <-. left; eauto.
  - destruct (is_Exception e0) eqn:He; intros H; injection H as <-.
    + left; eauto.
    + right; auto.
Qed.

Lemma parse_response_returns json_loads efc ffn kwargs content d :
  parse_response json_loads efc ffn kwargs content = Return d ->
  if efc then exists name args, d = function_call name args
  else d = text_result (text_of content).
Proof.
  unfold parse_response. destruct efc.
  - destruct (first_tool_use content) as [[name input]|].
    + destruct input as [a|s|].
      * intros H; injection H as <-. eauto.
      * destruct (json_loads s); [|discriminate].
        intros H; injection H as <-. eauto.
      * discriminate.
    + destruct ffn as [name|]; [|discriminate].
      destruct (str_truthy name); [|discriminate].
      intros H; injection H as <-. unfold fallback_call, function_call. eauto.
  - intros H; injection H as <-. reflexivity.
Qed.

Lemma settle_returns json_loads efc ffn kwargs o d :
  settle json_loads efc ffn kwargs o = Return d ->
  exists content, o = ApiReturn content
    /\ parse_response json_loads efc ffn kwargs content = Return d.
Proof.
  destruct o as [content|e0]; cbn [settle].
  - destruct (parse_response _ _ _ _ content) eqn:Hp; [|discriminate].
    intros H; injection H as <-. eauto.
  - destruct (is_Exception e0); discriminate.
Qed.

Lemma tools_of_raises defs e :
  tools_of defs = Raise e ->
  e = Exn (ExcOther "KeyError") "'name'"
  /\ exists d, In d defs /\ dict_mem d "name" = false.
Proof.
  revert e. induction defs as [|d defs IH]; intros e; [discriminate|].
  cbn [tools_of]. unfold tool_of, dict_mem.
  destruct (dict_get d "name") eqn:Hd; cbn [bind].
  - destruct (tools_of defs) as [ts|e1]; cbn [bind]; [discriminate|].
    intros H; injection H as <-.
    destruct (IH _ eq_refl) as (-> & d' & Hin & Hm).
    split; [reflexivity|]. exists d'. split; [now right|exact Hm].
  - intros H; injection H as <-. split; [reflexivity|].
    exists d. split; [now left|]. now rewrite Hd.
Qed.

Lemma tools_of_returns defs :
  (forall d, In d defs -> dict_mem d "name" = true) ->
  exists ts, tools_of defs = Return ts.
Proof.
  induction defs as [|d defs IH]; intros H; [now exists []|].
  cbn [tools_of]. unfold tool_of.
  pose proof (H d (or_introl eq_refl)) as Hd. unfold dict_mem in Hd.
  destruct (dict_get d "name"); [|discriminate]. cbn [bind].
  destruct IH as (ts & ->); [intros; apply H; now right|].
  cbn [bind]. eauto.
Qed.

(** From the loop come only wrapped errors and what is no
    [Exception]. *)
Lemma call_llm_loop_raises str_format json_loads self rq
    tmpl sys efc fdefs ffn kwargs n w e w' :
  build_request str_format self tmpl sys efc fdefs ffn kwargs = Return rq ->
  as_int (retry_attempts self) = Return n ->
  call_llm str_format json_loads self tmpl sys efc fdefs ffn kwargs w
  = (Raise e, w') ->
  (exists e0, e = api_error e0)
  \/ (is_Exception e = false
      /\ exists ep i, client self = Some ep /\ ep i rq = ApiRaise e).
Proof.
  intros Hrq Hn H.
  destruct (Z_le_gt_dec n 0) as [Hle|Hgt].
  { rewrite (call_llm_no_attempt _ _ _ _ _ _ _ _ _ _ _ _ Hn Hrq Hle) in H.
    discriminate. }
  destruct (client self) as [ep|] eqn:Hc.
  2:{ rewrite (call_llm_no_client _ _ _ _ _ _ _ _ _ _ _ _ Hc Hn Hrq) in H by lia.
      injection H as <- <-. left; eauto. }
  destruct (call_llm_settles str_format json_loads self ep rq tmpl sys efc
              fdefs ffn kwargs n w Hc Hn ltac:(lia) Hrq)
    as (j & Hj & _ & _ & Heq).
  rewrite Heq in H. injection H as H _.
  apply settle_raises in H as [H|[He Ho]]; [left; exact H|].
  right. split; [exact He|]. exists ep, (w_calls w + j). auto.
Qed.

End LlmMore.
Import LlmMore.

(** X4.  Whatever the client does, [call_llm] with a client and
    [retry_attempts] [n >= 1] ends after [j < n] retried failures: the
    first [j] calls raised one of the two retried classes, call [j + 1]
    did not, or was call [n]; the effects are exactly the calls
    [1 .. j + 1] with the waits [2 ^ 1 .. 2 ^ j] between them, and the
    result is what the last outcome settles to. *)
Theorem call_llm_every_endpoint str_format json_loads self ep rq
    tmpl sys efc fdefs ffn kwargs n w :
  client self = Some ep ->
  as_int (retry_attempts self) = Return n ->
  (1 <= n)%Z ->
  build_request str_format self tmpl sys efc fdefs ffn kwargs = Return rq ->
  exists j,
    (Z.of_nat j < n)%Z
    /\ transient_run ep rq j w
    /\ (not_transient (ep (w_calls w + j) rq) = true
        \/ (Z.of_nat j + 1 = n)%Z)
    /\ call_llm str_format json_loads self tmpl sys efc fdefs ffn kwargs w
       = (settle json_loads efc ffn kwargs (ep (w_calls w + j) rq),
          World (w_calls w + j + 1) (w_trace w ++ backoff_trace j 1)).
Proof. apply call_llm_settles. Qed.

(** X5.  [call_llm] only adds to the record of effects; it makes at
    most [retry_attempts] calls, and having made [k >= 1] calls it has
    slept [2 ^ k - 2] seconds in all (nothing without a call). *)
Theorem call_llm_calls_and_waits str_format json_loads self
    tmpl sys efc fdefs ffn kwargs n w r w' :
  as_int (retry_attempts self) = Return n ->
  call_llm str_format json_loads self tmpl sys efc fdefs ffn kwargs w
  = (r, w') ->
  exists t,
    w_trace w' = (w_trace w ++ t)%list
    /\ w_calls w' = w_calls w + calls_made t
    /\ calls_made t <= Z.to_nat n
    /\ seconds_slept t
       = if (calls_made t =? 0)%nat then 0%Z
         else (2 ^ Z.of_nat (calls_made t) - 2)%Z.
Proof.
  intros Hn H.
  assert (Hnil : (r, w') = (r, w) ->
    exists t, w_trace w' = (w_trace w ++ t)%list
      /\ w_calls w' = w_calls w + calls_made t
      /\ calls_made t <= Z.to_nat n
      /\ seconds_slept t
         = if (calls_made t =? 0)%nat then 0%Z
           else (2 ^ Z.of_nat (calls_made t) - 2)%Z).
  { intros E. injection E as ->. exists []. simpl.
    rewrite app_nil_r. repeat split; lia. }
  destruct (build_request str_format self tmpl sys efc fdefs ffn kwargs)
    as [rq|e] eqn:Hrq.
  2:{ unfold call_llm in H. rewrite Hrq in H. injection H as <- <-. now apply Hnil. }
  destruct (Z_le_gt_dec n 0) as [Hle|Hgt].
  { rewrite (call_llm_no_attempt _ _ _ _ _ _ _ _ _ _ _ _ Hn Hrq Hle) in H.
    injection H as <- <-. now apply Hnil. }
  destruct (client self) as [ep|] eqn:Hc.
  2:{ rewrite (call_llm_no_client _ _ _ _ _ _ _ _ _ _ _ _ Hc Hn Hrq) in H by lia.
      injection H as <- <-. now apply Hnil. }
  destruct (call_llm_settles str_format json_loads self ep rq tmpl sys efc
              fdefs ffn kwargs n w Hc Hn ltac:(lia) Hrq)
    as (j & Hj & _ & _ & Heq).
  rewrite Heq in H. injection H as <- <-. cbn [w_trace w_calls].
  exists (backoff_trace j 1). rewrite calls_made_backoff.
  rewrite seconds_slept_backoff by lia.
  repeat split; [lia | lia |].
  cbn [Nat.eqb]. f_equal. f_equal. lia.
Qed.

(** X6.  The exceptions that leave [call_llm]: one raised while the
    request is built (by [str.format], or the [KeyError] of a function
    definition without a name) or by the arithmetic on
    [retry_attempts], before anything is called; and from the loop
    only [Exception("API error: ...")], or an exception of the client
    that is not an [Exception]. *)
Theorem call_llm_raises str_format json_loads self
    tmpl sys efc fdefs ffn kwargs w e w' :
  call_llm str_format json_loads self tmpl sys efc fdefs ffn kwargs w
  = (Raise e, w') ->
  (build_request str_format self tmpl sys efc fdefs ffn kwargs = Raise e
   /\ w' = w)
  \/ (as_int (retry_attempts self) = Raise e /\ w' = w)
  \/ (exists e0, e = api_error e0)
  \/ (is_Exception e = false
      /\ exists ep rq i, client self = Some ep /\ ep i rq = ApiRaise e).
Proof.
  intros H.
  destruct (build_request str_format self tmpl sys efc fdefs ffn kwargs)
    as [rq|e1] eqn:Hrq.
  2:{ unfold call_llm in H. rewrite Hrq in H. injection H as <- <-. auto. }
  destruct (as_int (retry_attempts self)) as [n|e1] eqn:Hn.
  2:{ unfold call_llm in H. rewrite Hrq, Hn in H. injection H as <- <-. auto. }
  right. right.
  destruct (call_llm_loop_raises _ _ _ _ _ _ _ _ _ _ _ _ _ _ Hrq Hn H)
    as [H1|(He & ep & i & Hc & Hi)]; [left; exact H1|].
  right. split; [exact He|]. exists ep, rq, i. auto.
Qed.

(** X7.  What [call_llm] returns: the ["error"] dictionary exactly
    when [retry_attempts] is below one (then nothing was called);
    otherwise a ["function_call"] dictionary when a function call was
    expected and the ["text"] dictionary of the response's text items
    when not. *)
Theorem call_llm_returns str_format json_loads self
    tmpl sys efc fdefs ffn kwargs w d w' :
  call_llm str_format json_loads self tmpl sys efc fdefs ffn kwargs w
  = (Return d, w') ->
  exists n, as_int (retry_attempts self) = Return n
    /\ ((d = unexpected_error <-> (n <= 0)%Z)
        /\ ((n <= 0)%Z -> w' = w)
        /\ ((1 <= n)%Z ->
            if efc then exists name args, d = function_call name args
            else exists text, d = text_result text)).
Proof.
  intros H.
  destruct (build_request str_format self tmpl sys efc fdefs ffn kwargs)
    as [rq|e1] eqn:Hrq.
  2:{ unfold call_llm in H. rewrite Hrq in H. discriminate. }
  destruct (as_int (retry_attempts self)) as [n|e1] eqn:Hn.
  2:{ unfold call_llm in H. rewrite Hrq, Hn in H. discriminate. }
  exists n. split; [reflexivity|].
  destruct (Z_le_gt_dec n 0) as [Hle|Hgt].
  { rewrite (call_llm_no_attempt _ _ _ _ _ _ _ _ _ _ _ _ Hn Hrq Hle) in H.
    injection H as <- <-. repeat split; auto; lia. }
  destruct (client self) as [ep|] eqn:Hc.
  2:{ rewrite (call_llm_no_client _ _ _ _ _ _ _ _ _ _ _ _ Hc Hn Hrq) in H by lia.
      discriminate. }
  destruct (call_llm_settles str_format json_loads self ep rq tmpl sys efc
              fdefs ffn kwargs n w Hc Hn ltac:(lia) Hrq)
    as (j & Hj & _ & _ & Heq).
  rewrite Heq in H. injection H as H _.
  apply settle_returns in H as (content & _ & Hp).
  apply parse_response_returns in Hp.
  assert (Hshape : if efc then exists name args, d = function_call name args
                   else exists text, d = text_result text).
  { destruct efc; [exact Hp | eauto]. }
  repeat split; [| lia | lia | intros _; exact Hshape].
  intros ->. exfalso.
  destruct efc; [destruct Hshape as (? & ? & Hd) | destruct Hshape as (? & Hd)];
    discriminate Hd.
Qed.

(** X8.  With a template that formats and a function call expected, a
    function definition without a ["name"] makes [call_llm] raise
    [KeyError('name')] before anything is called, and nothing else
    does: the error is raised exactly when some definition lacks the
    key. *)
Theorem call_llm_missing_name str_format json_loads self
    tmpl sys defs ffn kwargs prompt w :
  str_format tmpl kwargs = Return prompt ->
  (exists d, In d defs /\ dict_mem d "name" = false)
  <-> call_llm str_format json_loads self tmpl sys true (Some defs) ffn
        kwargs w
      = (Raise (Exn (ExcOther "KeyError") "'name'"), w).
Proof.
  intros Hf. split.
  - intros (d & Hin & Hd). unfold call_llm, build_request, _format_prompt.
    rewrite Hf. cbn [bind].
    assert (Hl : list_truthy (Some defs) = true)
      by (destruct defs; [destruct Hin | reflexivity]).
    rewrite Hl. cbn [andb].
    destruct (tools_of defs) as [ts|e] eqn:Ht.
    + exfalso. clear Hl. revert ts Ht.
      induction defs as [|d0 defs IH]; [destruct Hin|]. intros ts.
      cbn [tools_of]. unfold tool_of, dict_mem in *.
      destruct Hin as [->|Hin].
      * destruct (dict_get d "name"); [discriminate Hd|]. discriminate.
      * destruct (dict_get d0 "name"); cbn [bind]; [|discriminate].
        destruct (tools_of defs) eqn:Ht; cbn [bind]; [|discriminate].
        intros _. now apply (IH Hin a).
    + cbn [bind]. apply tools_of_raises in Ht as [-> _]. reflexivity.
  - intros H.
    destruct (build_request str_format self tmpl sys true (Some defs) ffn
                kwargs) as [rq|e] eqn:Hrq.
    + exfalso.
      destruct (as_int (retry_attempts self)) as [n|e] eqn:Hn.
      * destruct (call_llm_loop_raises _ _ _ _ _ _ _ _ _ _ _ _ _ _ Hrq Hn H)
          as [(e0 & He)|(He & _)]; discriminate.
      * unfold call_llm in H. rewrite Hrq, Hn in H.
        unfold as_int in Hn. destruct (retry_attempts self); try discriminate;
          injection Hn as <-; discriminate.
    + unfold build_request, _format_prompt in Hrq. rewrite Hf in Hrq.
      cbn [bind] in Hrq.
      destruct (list_truthy (Some defs)); cbn [andb] in Hrq; [|discriminate].
      destruct (tools_of defs) as [ts|e1] eqn:Ht; cbn [bind] in Hrq;
        [discriminate|].
      now apply tools_of_raises in Ht as [_ Hex].
Qed.

Lemma call_llm_every_endpoint_witness :
  let ep : endpoint := fun i _ =>
    match i with
    | 0 => ApiRaise (Exn ExcTimeoutError "timed out")
    | _ => ApiReturn [TextBlock "ok"]
    end in
  let rq := Request (PStr "m") 4000 [("user", "p")] None None None in
  exists j,
    (Z.of_nat j < 3)%Z
    /\ transient_run ep rq j (World 0 [])
    /\ (not_transient (ep (0 + j) rq) = true \/ (Z.of_nat j + 1 = 3)%Z)
    /\ call_llm (fun t _ => Return t) (fun _ => None)
         (Self (PStr "m") (PInt 3) (Some ep)) "p" "" false None None []
         (World 0 [])
       = (settle (fun _ => None) false None [] (ep (0 + j) rq),
          World (0 + j + 1) ([] ++ backoff_trace j 1)).
Proof.
  intros ep rq.
  apply (call_llm_every_endpoint (fun t _ => Return t) (fun _ => None)
           (Self (PStr "m") (PInt 3) (Some ep)) ep rq "p" "" false None None
           [] 3 (World 0 [])); [reflexivity | reflexivity | lia | reflexivity].
Defined.

Lemma call_llm_calls_and_waits_witness :
  exists t,
    [EvCall 1; EvSleep 2; EvCall 2] = ([] ++ t)%list
    /\ 2 = 0 + calls_made t
    /\ calls_made t <= Z.to_nat 3
    /\ seconds_slept t
       = if (calls_made t =? 0)%nat then 0%Z
         else (2 ^ Z.of_nat (calls_made t) - 2)%Z.
Proof.
  apply (call_llm_calls_and_waits (fun t _ => Return t) (fun _ => None)
           (Self (PStr "m") (PInt 3)
              (Some (fun i _ =>
                 match i with
                 | 0 => ApiRaise (Exn ExcTimeoutError "timed out")
                 | _ => ApiReturn [TextBlock "ok"]
                 end)))
           "p" "" false None None [] 3 (World 0 [])
           (Return (text_result "ok"))
           (World 2 [EvCall 1; EvSleep 2; EvCall 2]));
    reflexivity.
Defined.

Lemma call_llm_raises_witness :
  let self :=
    Self (PStr "m") (PInt 3)
      (Some (fun _ _ =>
         ApiRaise (Exn (ExcOther "AuthenticationError") "invalid x-api-key")))
  in
  let e := Exn ExcException "API error: invalid x-api-key" in
  (build_request (fun t _ => Return t) self "p" "" false None None []
   = Raise e /\ World 1 [EvCall 1] = World 0 [])
  \/ (as_int (retry_attempts self) = Raise e
      /\ World 1 [EvCall 1] = World 0 [])
  \/ (exists e0, e = api_error e0)
  \/ (is_Exception e = false
      /\ exists ep rq i, client self = Some ep /\ ep i rq = ApiRaise e).
Proof.
  intros self e.
  apply (call_llm_raises (fun t _ => Return t) (fun _ => None) self
           "p" "" false None None [] (World 0 []) e (World 1 [EvCall 1])).
  reflexivity.
Defined.

Lemma call_llm_returns_witness :
  exists n, as_int (PInt 3) = Return n
    /\ ((text_result "ok" = unexpected_error <-> (n <= 0)%Z)
        /\ ((n <= 0)%Z -> World 1 [EvCall 1] = World 0 [])
        /\ ((1 <= n)%Z -> exists text, text_result "ok" = text_result text)).
Proof.
  apply (call_llm_returns (fun t _ => Return t) (fun _ => None)
           (Self (PStr "m") (PInt 3)
              (Some (fun _ _ => ApiReturn [TextBlock "ok"])))
           "p" "" false None None [] (World 0 []) (text_result "ok")
           (World 1 [EvCall 1])).
  reflexivity.
Defined.

Lemma call_llm_missing_name_witness :
  (exists d, In d [[("description", PStr "no name")]]
             /\ dict_mem d "name" = false)
  <-> call_llm (fun t _ => Return t) (fun _ => None)
        (Self (PStr "m") (PInt 3) None) "p" "" true
        (Some [[("description", PStr "no name")]]) (Some "f") []
        (World 0 [])
      = (Raise (Exn (ExcOther "KeyError") "'name'"), World 0 []).
Proof.
  apply (call_llm_missing_name (fun t _ => Return t) (fun _ => None)
           (Self (PStr "m") (PInt 3) None) "p" ""
           [[("description", PStr "no name")]] (Some "f") [] "p"
           (World 0 [])).
  reflexivity.
Defined.

(* ================================================================== *)
(** * The log file: its path and its header *)

Module PathFacts.
Local Open Scope string_scope.










(** A text without an opening brace holds no placeholder. *)
Lemma replace_from_none new : forall s,
  all_chars (fun c => negb (Ascii.eqb c "{")) s = true ->
  replace_from "{timestamp}" new s 0 = s.
Proof.
  induction s as [|c s IH]; [reflexivity|]. cbn [all_chars].
  intros H. apply andb_true_iff in H as [Hc Hs].
  cbn [replace_from]. 
  assert (String.prefix "{timestamp}" (String c s) = false) as ->.
  { cbn [String.prefix]. destruct (ascii_dec "{" c) as [<-|]; [discriminate Hc|reflexivity]. }
  now rewrite IH.
Qed.

End PathFacts.
Import PathFacts.




Module SortFacts.
Local Open Scope string_scope.

Lemma leb_trans s1 : forall s2 s3,
  String.leb s1 s2 = true -> String.leb s2 s3 = true ->
  String.leb s1 s3 = true.
Proof.
  unfold String.leb.
  induction s1 as [|c1 s1 IH]; intros [|c2 s2] [|c3 s3];
    cbn [String.compare]; try (intros; reflexivity || discriminate).
  unfold Ascii.compare.
  destruct (N.compare_spec (N_of_ascii c1) (N_of_ascii c2)) as [E12|L12|G12];
  destruct (N.compare_spec (N_of_ascii c2) (N_of_ascii c3)) as [E23|L23|G23];
  destruct (N.compare_spec (N_of_ascii c1) (N_of_ascii c3)) as [E13|L13|G13];
    try (intros; reflexivity || discriminate); try lia.
  apply IH.
Qed.

Lemma insert_item_perm x : forall l, Permutation (x :: l) (insert_item x l).
Proof.
  induction l as [|y l IH]; cbn [insert_item]; [reflexivity|].
  destruct (String.leb (fst x) (fst y)); [reflexivity|].
  rewrite perm_swap. now constructor.
Qed.

Lemma sorted_items_perm d : Permutation d (sorted_items d).
Proof.
  induction d as [|x d IH]; [constructor|].
  cbn [sorted_items fold_right]. rewrite <- insert_item_perm. now constructor.
Qed.

Lemma insert_item_sorted x : forall l,
  Sorted key_le l -> Sorted key_le (insert_item x l).
Proof.
  induction l as [|y l IH]; intros Hs; cbn [insert_item].
  - repeat constructor.
  - destruct (String.leb (fst x) (fst y)) eqn:Hxy.
    + constructor; [exact Hs|]. constructor. exact Hxy.
    + inversion Hs as [|? ? Hl Hy]; subst. constructor; [now apply IH|].
      assert (Hyx : key_le y x).
      { unfold key_le. destruct (String.leb_total (fst x) (fst y)); congruence. }
      destruct l as [|z l]; cbn [insert_item].
      * constructor. exact Hyx.
      * destruct (String.leb (fst x) (fst z)); constructor;
          [exact Hyx | now inversion Hy].
Qed.

Lemma sorted_items_sorted d : Sorted key_le (sorted_items d).
Proof.
  induction d as [|x d IH]; [constructor|].
  cbn [sorted_items fold_right]. now apply insert_item_sorted.
Qed.

Lemma key_le_trans : Relations_1.Transitive key_le.
Proof. intros x y z. unfold key_le. apply leb_trans. Qed.

(** Entries with pairwise distinct keys have one sorted order only. *)
Lemma sorted_unique : forall l1 l2,
  Sorted key_le l1 -> Sorted key_le l2 -> Permutation l1 l2 ->
  NoDup (map fst l1) -> l1 = l2.
Proof.
  induction l1 as [|a l1 IH]; intros l2 H1 H2 Hp Hn.
  - apply Permutation_nil in Hp. now subst.
  - destruct l2 as [|b l2]; [now apply Permutation_sym, Permutation_nil in Hp|].
    assert (a = b) as <-.
    { apply Sorted_StronglySorted in H1; [|exact key_le_trans].
      apply Sorted_StronglySorted in H2; [|exact key_le_trans].
      inversion H1 as [|? ? _ Ha]; subst. inversion H2 as [|? ? _ Hb]; subst.
      assert (Hina : In a (b :: l2))
        by (apply (Permutation_in _ Hp); now left).
      assert (Hinb : In b (a :: l1))
        by (apply (Permutation_in _ (Permutation_sym Hp)); now left).
      destruct Hina as [->|Hina]; [reflexivity|].
      destruct Hinb as [->|Hinb]; [reflexivity|].
      rewrite Forall_forall in Ha, Hb.
      pose proof (String.leb_antisym _ _ (Ha _ Hinb) (Hb _ Hina)) as Hk.
      inversion Hn as [|? ? Hnotin _]; subst. exfalso. apply Hnotin.
      rewrite Hk. now apply in_map. }
    f_equal. apply IH.
    + now inversion H1.
    + now inversion H2.
    + now apply Permutation_cons_inv in Hp.
    + now inversion Hn.
Qed.

Lemma dict_mem_perm d1 d2 key :
  Permutation d1 d2 -> dict_mem d1 key = dict_mem d2 key.
Proof.
  intros Hp.
  destruct (dict_mem d1 key) eqn:H1; destruct (dict_mem d2 key) eqn:H2;
    try reflexivity; exfalso.
  - apply dict_mem_keys in H1.
    apply (Permutation_in _ (Permutation_map fst Hp)) in H1.
    apply dict_mem_keys in H1. congruence.
  - apply dict_mem_keys in H2.
    apply (Permutation_in _ (Permutation_map fst (Permutation_sym Hp))) in H2.
    apply dict_mem_keys in H2. congruence.
Qed.

(** On a key that is present once, [d[key] = v] rewrites that entry. *)
Lemma dict_set_map d key v :
  dict_mem d key = true -> NoDup (map fst d) ->
  dict_set d key v
  = map (fun x => if String.eqb (fst x) key then (fst x, v) else x) d.
Proof.
  induction d as [|[k w] d IH]; intros Hm Hn; [discriminate|].
  cbn [dict_set map fst]. inversion Hn as [|? ? Hnotin Hn']; subst.
  destruct (String.eqb_spec k key) as [->|Hk].
  - f_equal. clear IH Hm Hn Hn'. induction d as [|[k' w'] d IH]; [reflexivity|].
    cbn [map fst] in *. destruct (String.eqb_spec k' key) as [->|Hk'].
    + exfalso. apply Hnotin. now left.
    + f_equal. apply IH. intros H. apply Hnotin. now right.
  - f_equal. apply IH; [|exact Hn'].
    unfold dict_mem in *. cbn [dict_get] in Hm.
    destruct (String.eqb_spec k key); [contradiction|exact Hm].
Qed.

Lemma safe_config_of_perm kind c1 c2 :
  dict_wf c1 -> Permutation c1 c2 ->
  Permutation (safe_config_of (ConfigArg kind c1))
              (safe_config_of (ConfigArg kind c2)).
Proof.
  intros Hwf Hp. unfold safe_config_of. cbn [cfg_kind cfg_entries].
  assert (Hwf2 : NoDup (map fst c2))
    by (apply (Permutation_NoDup (Permutation_map fst Hp)); exact Hwf).
  destruct kind; try reflexivity;
    rewrite (dict_mem_perm c1 c2 "llm_api_key" Hp);
    (destruct (dict_mem c2 "llm_api_key") eqn:Hm; [|exact Hp]);
    (rewrite !dict_set_map;
      [ now apply Permutation_map | exact Hm | exact Hwf2
      | now rewrite (dict_mem_perm c1 c2 "llm_api_key" Hp) | exact Hwf ]).
Qed.

Lemma safe_config_of_wf kind c :
  dict_wf c -> dict_wf (safe_config_of (ConfigArg kind c)).
Proof.
  intros Hwf. unfold safe_config_of. cbn [cfg_kind cfg_entries].
  assert (Hset : dict_mem c "llm_api_key" = true ->
                 dict_wf (dict_set c "llm_api_key" REDACTED)).
  { intros Hm. rewrite dict_set_map by assumption. unfold dict_wf.
    rewrite map_map.
    erewrite map_ext; [exact Hwf|].
    intros x. cbn beta. now destruct (String.eqb (fst x) "llm_api_key"). }
  destruct kind; try (destruct (dict_mem c "llm_api_key") eqn:Hm; now auto).
  unfold dict_wf. simpl. constructor.
Qed.

End SortFacts.
Import SortFacts.


(** X12.  What [initialize_log_file] does is the same for two
    configurations with the same entries in a different order: the
    header does not depend on the order in which the configuration was
    filled. *)
Theorem initialize_log_file_order_independent repr_builtin log_file_path
    timestamp task_description kind c1 c2 log :
  dict_wf c1 -> Permutation c1 c2 ->
  initialize_log_file repr_builtin log_file_path timestamp task_description
    (ConfigArg kind c1) log
  = initialize_log_file repr_builtin log_file_path timestamp
      task_description (ConfigArg kind c2) log.
Proof.
  intros Hwf Hp. unfold initialize_log_file, header.
  assert (sorted_items (safe_config_of (ConfigArg kind c1))
          = sorted_items (safe_config_of (ConfigArg kind c2))) as ->;
    [|reflexivity].
  pose proof (safe_config_of_perm kind c1 c2 Hwf Hp) as Hs.
  apply sorted_unique; try apply sorted_items_sorted.
  - rewrite <- !sorted_items_perm. exact Hs.
  - apply (Permutation_NoDup
             (Permutation_map fst (sorted_items_perm _))).
    now apply safe_config_of_wf.
Qed.

Lemma initialize_log_file_order_independent_witness :
  initialize_log_file (fun _ => "") "logs/run.md" "2024-01-01 12:00:00"
    "task"
    (ConfigArg HasCopy [("llm_api_key", PStr "sk-1"); ("beam", PInt 3)]) ""
  = initialize_log_file (fun _ => "") "logs/run.md" "2024-01-01 12:00:00"
      "task"
      (ConfigArg HasCopy [("beam", PInt 3); ("llm_api_key", PStr "sk-1")]) "".
Proof.
  apply initialize_log_file_order_independent.
  - unfold dict_wf. cbn [map fst]. repeat constructor; cbn [In].
    + intros [H|[]]. discriminate H.
    + intros [].
  - apply perm_swap.
Defined.

(* ================================================================== *)
(** * The parts together *)

Module Composition.
Local Open Scope string_scope.



Lemma tools_of_length defs ts :
  tools_of defs = Return ts ->
  map tool_name ts = map (fun d => dict_get_default d "name" PNone) defs
  /\ Forall (fun t => tool_type t = "custom") ts.
Proof.
  revert ts. induction defs as [|d defs IH]; intros ts H.
  - injection H as <-. split; constructor.
  - cbn [tools_of] in H. unfold tool_of in H.
    destruct (dict_get d "name") as [name|] eqn:Hn; [|discriminate].
    cbn [bind] in H.
    destruct (tools_of defs) as [ts'|]; [|discriminate]. cbn [bind] in H.
    injection H as <-. destruct (IH ts' eq_refl) as [Hm Hf].
    split.
    + cbn [map tool_name]. unfold dict_get_default at 1. rewrite Hn.
      now f_equal.
    + constructor; [reflexivity|exact Hf].
Qed.

End Composition.
Import Composition.



(** X14.  A request carries [tool_choice] only together with [tools],
    and [tools] only when a function call is expected; the tools are
    then the function definitions, one for one and in their order, each
    of type [custom], and there is at least one. *)
Theorem build_request_tools str_format self tmpl sys efc fdefs ffn kwargs
    rq :
  build_request str_format self tmpl sys efc fdefs ffn kwargs = Return rq ->
  (forall name, rq_tool_choice rq = Some name ->
     ffn = Some name /\ name <> "" /\ rq_tools rq <> None)
  /\ (forall ts, rq_tools rq = Some ts ->
        efc = true /\ ts <> []
        /\ Forall (fun t => tool_type t = "custom") ts
        /\ exists defs, fdefs = Some defs
             /\ map tool_name ts
                = map (fun d => dict_get_default d "name" PNone) defs).
Proof.
  unfold build_request. destruct (_format_prompt _ _ _) as [prompt|];
    [|discriminate]. cbn [bind].
  destruct efc; cbn [andb].
  2:{ intros H; injection H as <-. split; intros ? H; discriminate H. }
  destruct fdefs as [[|d defs]|]; cbn [list_truthy];
    try (intros H; injection H as <-; split; intros ? H; discriminate H).
  destruct (tools_of (d :: defs)) as [ts|] eqn:Ht; [|discriminate].
  cbn [bind]. intros H; injection H as <-. cbn [rq_tool_choice rq_tools].
  split.
  - intros name Hn. destruct ffn as [f|]; cbn [opt_truthy] in Hn;
      [|discriminate].
    unfold str_truthy in Hn.
    destruct (String.eqb_spec f "") as [->|Hf]; cbn [negb] in Hn;
      [discriminate|].
    injection Hn as <-. repeat split; [exact Hf | discriminate].
  - intros ts' H'. injection H' as <-.
    destruct (tools_of_length _ _ Ht) as [Hm Hf].
    repeat split; [| exact Hf | exists (d :: defs); auto].
    intros ->. discriminate Hm.
Qed.

Lemma build_request_tools_witness :
  let rq :=
    Request (PStr "m") 4000 [("user", "p")] None
      (Some [Tool "custom" (PStr "f") (PStr "") (PDict [])]) (Some "f") in
  (forall name, rq_tool_choice rq = Some name ->
     Some "f" = Some name /\ name <> "" /\ rq_tools rq <> None)
  /\ (forall ts, rq_tools rq = Some ts ->
        true = true /\ ts <> []
        /\ Forall (fun t => tool_type t = "custom") ts
        /\ exists defs, Some [[("name", PStr "f")]] = Some defs
             /\ map tool_name ts
                = map (fun d => dict_get_default d "name" PNone) defs).
Proof.
  intros rq.
  apply (build_request_tools (fun t _ => Return t)
           (Self (PStr "m") (PInt 3) None) "p" "" true
           (Some [[("name", PStr "f")]]) (Some "f") [] rq).
  reflexivity.
Defined.

(** X15.  The definitions [get_function_definitions] returns are
    accepted by [call_llm]: with a prompt that formats, the request is
    built without a [KeyError] and offers one tool, of type [custom],
    under the configured name and with the parameter schema as its
    [input_schema]. *)
Theorem get_function_definitions_request str_format self config defs
    tmpl sys ffn kwargs prompt :
  get_function_definitions config = Return defs ->
  str_format tmpl kwargs = Return prompt ->
  exists name,
    log_function_name config = Return name
    /\ build_request str_format self tmpl sys true (Some defs) ffn kwargs
       = Return
           (Request (model self) 4000 [("user", prompt)]
              (if str_truthy sys then Some sys else None)
              (Some [Tool "custom" name
                       (PStr "Log details about a node in the thought tree, including its sub-problem, generated thoughts, and the LLM's decision.")
                       parameters_schema])
              (if opt_truthy ffn then ffn else None)).
Proof.
  unfold get_function_definitions. intros Hd Hf.
  destruct (log_function_name config) as [name|]; [|discriminate].
  cbn [bind] in Hd. injection Hd as <-.
  exists name. split; [reflexivity|].
  unfold build_request, _format_prompt. rewrite Hf. reflexivity.
Qed.

Lemma get_function_definitions_request_witness :
  exists name,
    log_function_name [] = Return name
    /\ build_request (fun t _ => Return t) (Self (PStr "m") (PInt 3) None)
         "p" "" true
         (Some [ [ ("name", PStr "log_node_details");
                   ("description",
                    PStr "Log details about a node in the thought tree, including its sub-problem, generated thoughts, and the LLM's decision.");
                   ("parameters", parameters_schema) ] ])
         (Some "log_node_details") []
       = Return
           (Request (PStr "m") 4000 [("user", "p")] None
              (Some [Tool "custom" name
                       (PStr "Log details about a node in the thought tree, including its sub-problem, generated thoughts, and the LLM's decision.")
                       parameters_schema])
              (Some "log_node_details")).
Proof.
  apply (get_function_definitions_request (fun t _ => Return t)
           (Self (PStr "m") (PInt 3) None) [] _ "p" "" (Some "log_node_details")
           [] "p"); reflexivity.
Defined.

(** X16.  [main] leaves with status 1, before the agent is set up and
    having printed nothing, exactly when neither [ANTHROPIC_API_KEY]
    nor [OPENAI_API_KEY] is in the environment it starts with. *)
Theorem main_exits_without_key repr_builtin manager setup run_agent task
    config environ :
  main repr_builtin manager setup run_agent (Args task config) environ
  = (SysExit 1, [])
  <-> in_environ environ "ANTHROPIC_API_KEY" = false
      /\ in_environ environ "OPENAI_API_KEY" = false.
Proof.
  unfold main.
  destruct (in_environ environ "ANTHROPIC_API_KEY");
    destruct (in_environ environ "OPENAI_API_KEY"); cbn [negb andb];
    (split; [|intros [? ?]; try discriminate; reflexivity]);
    try (intros _; now split);
    destruct (run_tota_agent _ _ _ _ _) as [[[? ?] ?]|]; discriminate.
Qed.

(** X17.  An agent run that ends with an [Exception] does not make
    [main] fail: it prints the status [Error] and no log file, no
    solution path, and returns, so that the process leaves with
    status 0. *)
Theorem main_reports_error repr_builtin manager setup run_agent task
    config environ cfm e :
  in_environ environ "ANTHROPIC_API_KEY" = true
  \/ in_environ environ "OPENAI_API_KEY" = true ->
  setup config = Return cfm ->
  run_agent cfm task = Raise e ->
  is_Exception e = true ->
  main repr_builtin manager setup run_agent (Args task config) environ
  = (Returned,
     [nl ++ "Agent completed"; "Status: Error"; "Log file: None"]).
Proof.
  intros Hk Hs Hr He. unfold main, run_tota_agent.
  assert (negb (in_environ environ "ANTHROPIC_API_KEY")
          && negb (in_environ environ "OPENAI_API_KEY") = false) as ->.
  { destruct Hk as [-> | ->]; [reflexivity | apply andb_false_r]. }
  rewrite Hs. cbn [bind]. rewrite Hr, He. reflexivity.
Qed.

Lemma main_reports_error_witness :
  main (fun _ => "") unit (fun _ => Return tt)
    (fun _ _ => Raise (Exn ExcValueError "bad response"))
    (Args "task" "config.yaml") [("OPENAI_API_KEY", "sk-1")]
  = (Returned,
     [nl ++ "Agent completed"; "Status: Error"; "Log file: None"]).
Proof.
  apply (main_reports_error (fun _ => "") unit (fun _ => Return tt)
           (fun _ _ => Raise (Exn ExcValueError "bad response"))
           "task" "config.yaml" [("OPENAI_API_KEY", "sk-1")] tt
           (Exn ExcValueError "bad response"));
    [right; reflexivity | reflexivity | reflexivity | reflexivity].
Defined.

(* ================================================================== *)
(** * The rationale and the description of a thought *)

Module RationaleFacts.
Local Open Scope string_scope.

(** A literal is matched by comparing it with the text ahead. *)
Lemma exec_lit marker : forall s k,
  exec (lit marker) s k
  = match strip_prefix marker (ms_rest s) with
    | Some tail =>
        k (MState (ms_pos s + String.length marker) tail (ms_caps s))
    | None => None
    end.
Proof.
  induction marker as [|c marker IH]; intros [pos rest caps] k.
  - cbn. now rewrite Nat.add_0_r.
  - cbn [lit exec ms_rest ms_pos ms_caps strip_prefix].
    destruct rest as [|a rest]; [reflexivity|].
    cbn [cls_mem]. rewrite (Ascii.eqb_sym a c).
    destruct (Ascii.eqb c a); [|reflexivity].
    rewrite IH. cbn [ms_rest ms_pos ms_caps String.length].
    destruct (strip_prefix marker rest); [|reflexivity].
    f_equal. f_equal. lia.
Qed.

Section Reps.
Context {A : Type}.

(** The lazy repetition of [.] stops at the first paragraph end when
    that is what its continuation waits for. *)
Lemma rep_lazy_first (k : nat -> string -> option A) :
  (forall pos rest, paragraph_end rest = true -> k pos rest <> None) ->
  (forall pos rest, paragraph_end rest = false -> k pos rest = None) ->
  forall t p,
    rep_lazy CAny 0 t p k
    = k (p + String.length (up_to_paragraph_end t))
        (drop (String.length (up_to_paragraph_end t)) t).
Proof.
  intros Hyes Hno. induction t as [|a t IH]; intros p.
  - cbn. rewrite Nat.add_0_r. unfold or_else.
    destruct (k p "") eqn:E; [reflexivity|].
    now apply Hyes in E.
  - cbn [rep_lazy Nat.eqb cls_mem pred up_to_paragraph_end].
    destruct (paragraph_end (String a t)) eqn:E.
    + cbn [String.length drop]. rewrite Nat.add_0_r. unfold or_else.
      destruct (k p (String a t)) eqn:E'; [reflexivity|].
      now apply (Hyes p) in E.
    + rewrite (Hno p _ E). cbn [or_else String.length drop]. rewrite IH.
      f_equal. lia.
Qed.

(** The greedy repetition keeps all it can take when its continuation
    never fails. *)
Lemma rep_greedy_all c (k : nat -> string -> option A) :
  (forall pos rest, k pos rest <> None) ->
  forall t p,
    rep_greedy c 0 t p k
    = k (p + (String.length t - String.length (skip_while (cls_mem c) t)))
        (skip_while (cls_mem c) t).
Proof.
  intros Hk. induction t as [|a t IH]; intros p.
  - cbn. now rewrite Nat.add_0_r.
  - cbn [rep_greedy Nat.eqb pred skip_while].
    destruct (cls_mem c a) eqn:Ha.
    + rewrite IH. unfold or_else.
      destruct (k _ _) eqn:E; [|now apply Hk in E].
      rewrite <- E. f_equal. cbn [String.length].
      assert (String.length (skip_while (cls_mem c) t) <= String.length t).
      { clear. induction t as [|b t IH]; cbn; [lia|].
        destruct (cls_mem c b); cbn; lia. }
      lia.
    + cbn [String.length]. f_equal. lia.
Qed.

End Reps.

Lemma take_up_to t :
  take (String.length (up_to_paragraph_end t)) t = up_to_paragraph_end t.
Proof.
  induction t as [|a t IH]; [reflexivity|].
  cbn [up_to_paragraph_end].
  destruct (paragraph_end (String a t)); [reflexivity|].
  cbn [String.length take]. now rewrite IH.
Qed.

(** The lookahead [(?=\n\n|\Z)]. *)
Lemma exec_paragraph_end pos rest caps :
  match exec (RAlt (RSeq (RChar (CChar LF)) (RChar (CChar LF))) REos)
          (MState pos rest caps) Some with
  | Some s1 => paragraph_end rest = true /\ ms_caps s1 = caps
  | None => paragraph_end rest = false
  end.
Proof.
  destruct rest as [|a [|b r]];
    cbn [exec or_else ms_rest ms_pos ms_caps cls_mem paragraph_end].
  - auto.
  - destruct (Ascii.eqb a LF); reflexivity.
  - destruct (Ascii.eqb a LF); cbn [andb or_else]; [|reflexivity].
    destruct (Ascii.eqb b LF); cbn [or_else]; auto.
Qed.

(** The tail of a rationale pattern under [re.DOTALL], from the end of
    the marker: it never fails, and its group is the paragraph after
    the whitespace. *)
Lemma exec_rationale_tail pos tail caps :
  exists s',
    exec (rationale_tail true) (MState pos tail caps) Some = Some s'
    /\ cap_lookup 1 (ms_caps s')
       = Some (up_to_paragraph_end (skip_while isspace tail)).
Proof.
  unfold rationale_tail. cbn [exec dot ms_rest ms_pos ms_caps].
  set (k2 := fun (p0 : nat) (t0 : string) (pos1 : nat) (rest1 : string) =>
    match exec (RAlt (RSeq (RChar (CChar LF)) (RChar (CChar LF))) REos)
            (MState pos1 rest1 ((1, take (pos1 - p0) t0) :: caps)) Some with
    | Some s1 => Some (MState pos1 rest1 (ms_caps s1))
    | None => None
    end).
  assert (Hlazy : forall p0 t0,
    rep_lazy CAny 0 t0 p0 (k2 p0 t0)
    = Some (MState (p0 + String.length (up_to_paragraph_end t0))
              (drop (String.length (up_to_paragraph_end t0)) t0)
              ((1, up_to_paragraph_end t0) :: caps))).
  { intros p0 t0. rewrite rep_lazy_first.
    - unfold k2.
      pose proof (exec_paragraph_end
        (p0 + String.length (up_to_paragraph_end t0))
        (drop (String.length (up_to_paragraph_end t0)) t0)
        ((1, take (p0 + String.length (up_to_paragraph_end t0) - p0) t0)
           :: caps)) as He.
      destruct (exec _ _ Some) as [s1|].
      + destruct He as [_ ->].
        replace (p0 + String.length (up_to_paragraph_end t0) - p0)
          with (String.length (up_to_paragraph_end t0)) by lia.
        now rewrite take_up_to.
      + exfalso. revert He. clear. induction t0 as [|a t IH]; [discriminate|].
        cbn [up_to_paragraph_end].
        destruct (paragraph_end (String a t)) eqn:E;
          [cbn [String.length drop]; congruence | exact IH].
    - intros p r E. unfold k2.
      pose proof (exec_paragraph_end p r ((1, take (p - p0) t0) :: caps)) as He.
      destruct (exec _ _ Some); [discriminate | congruence].
    - intros p r E. unfold k2.
      pose proof (exec_paragraph_end p r ((1, take (p - p0) t0) :: caps)) as He.
      destruct (exec _ _ Some); [destruct He; congruence | reflexivity]. }
  change (exists s',
    rep_greedy CSpace 0 tail pos
      (fun pos0 rest0 => rep_lazy CAny 0 rest0 pos0 (k2 pos0 rest0))
    = Some s'
    /\ cap_lookup 1 (ms_caps s')
       = Some (up_to_paragraph_end (skip_while isspace tail))).
  rewrite rep_greedy_all.
  - rewrite Hlazy. eexists. split; [reflexivity|]. reflexivity.
  - intros p r. rewrite Hlazy. discriminate.
Qed.

(** One attempt of a rationale pattern: it succeeds exactly where the
    marker stands. *)
Lemma rationale_match_at marker rest pos :
  match strip_prefix marker rest with
  | Some tail =>
      exists m,
        match_at (RSeq (lit marker) (rationale_tail true)) rest pos false
        = Some m
        /\ m_group 1 m = up_to_paragraph_end (skip_while isspace tail)
  | None =>
      match_at (RSeq (lit marker) (rationale_tail true)) rest pos false = None
  end.
Proof.
  unfold match_at. cbn [exec andb]. rewrite exec_lit.
  cbn [ms_rest ms_pos ms_caps].
  destruct (strip_prefix marker rest) as [tail|] eqn:Hp; [|reflexivity].
  destruct (exec_rationale_tail (pos + String.length marker) tail [])
    as (s' & He & Hc).
  change (exec (rationale_tail true)
            (MState (pos + String.length marker) tail [])
            (fun s' => Some s'))
    with (exec (rationale_tail true)
            (MState (pos + String.length marker) tail []) Some).
  rewrite He. eexists. split; [reflexivity|].
  unfold m_group. cbn [m_caps]. now rewrite Hc.
Qed.

(** [re.search] with a rationale pattern finds the first occurrence of
    the marker. *)
Lemma scan_find_after marker : forall text pos,
  match find_after marker text with
  | Some tail =>
      exists m l,
        scan (RSeq (lit marker) (rationale_tail true)) text pos 0 = m :: l
        /\ m_group 1 m = up_to_paragraph_end (skip_while isspace tail)
  | None => scan (RSeq (lit marker) (rationale_tail true)) text pos 0 = []
  end.
Proof.
  induction text as [|a text IH]; intros pos.
  - cbn [find_after scan].
    pose proof (rationale_match_at marker "" pos) as H.
    destruct (strip_prefix marker "") as [tail|].
    + destruct H as (m & -> & Hg).
      destruct (m_end m =? pos)%nat; eauto.
    + now rewrite H.
  - cbn [find_after scan].
    pose proof (rationale_match_at marker (String a text) pos) as H.
    destruct (strip_prefix marker (String a text)) as [tail|].
    + destruct H as (m & -> & Hg).
      destruct (m_end m =? pos)%nat; eauto.
    + rewrite H. apply IH.
Qed.

Lemma search_find_after marker text :
  match find_after marker text with
  | Some tail =>
      exists m,
        search (RSeq (lit marker) (rationale_tail true)) text = Some m
        /\ m_group 1 m = up_to_paragraph_end (skip_while isspace tail)
  | None => search (RSeq (lit marker) (rationale_tail true)) text = None
  end.
Proof.
  unfold search, finditer. pose proof (scan_find_after marker text 0) as H.
  destruct (find_after marker text) as [tail|].
  - destruct H as (m & l & -> & Hg). eauto.
  - now rewrite H.
Qed.

(** The rationale [split_rationale] returns, read directly. *)
Lemma split_rationale_snd full_text :
  snd (split_rationale rationale_patterns full_text) = rationale_of full_text.
Proof.
  unfold rationale_of, rationale_patterns. cbn [split_rationale].
  pose proof (search_find_after "**Rationale**:" full_text) as H1.
  pose proof (search_find_after "Rationale:" full_text) as H2.
  destruct (find_after "**Rationale**:" full_text) as [t1|].
  - destruct H1 as (m & Hs & Hg).
    change (search (lit "**Rationale**:" ;; rationale_tail true)%re full_text)
      with (search (RSeq (lit "**Rationale**:") (rationale_tail true)) full_text).
    rewrite Hs. cbn [snd]. unfold rationale_after. now rewrite Hg.
  - change (search (lit "**Rationale**:" ;; rationale_tail true)%re full_text)
      with (search (RSeq (lit "**Rationale**:") (rationale_tail true)) full_text).
    rewrite H1.
    change (search (lit "Rationale:" ;; rationale_tail true)%re full_text)
      with (search (RSeq (lit "Rationale:") (rationale_tail true)) full_text).
    destruct (find_after "Rationale:" full_text) as [t2|].
    + destruct H2 as (m & Hs & Hg). rewrite Hs. cbn [snd].
      unfold rationale_after. now rewrite Hg.
    + rewrite H2. reflexivity.
Qed.

Lemma split_rationale_no_marker full_text :
  find_after "**Rationale**:" full_text = None ->
  find_after "Rationale:" full_text = None ->
  split_rationale rationale_patterns full_text = (full_text, "").
Proof.
  intros E1 E2. unfold rationale_patterns. cbn [split_rationale].
  pose proof (search_find_after "**Rationale**:" full_text) as H1.
  pose proof (search_find_after "Rationale:" full_text) as H2.
  rewrite E1 in H1. rewrite E2 in H2.
  change (search (lit "**Rationale**:" ;; rationale_tail true)%re full_text)
    with (search (RSeq (lit "**Rationale**:") (rationale_tail true)) full_text).
  rewrite H1.
  change (search (lit "Rationale:" ;; rationale_tail true)%re full_text)
    with (search (RSeq (lit "Rationale:") (rationale_tail true)) full_text).
  rewrite H2. reflexivity.
Qed.

End RationaleFacts.
Import RationaleFacts.

Module LabelFacts.
Local Open Scope string_scope.

Lemma skip_while_length p t :
  String.length (skip_while p t) <= String.length t.
Proof.
  induction t as [|b t IH]; cbn; [lia|]. destruct (p b); cbn; lia.
Qed.

Lemma drop_skip_while p t :
  drop (String.length t - String.length (skip_while p t)) t = skip_while p t.
Proof.
  induction t as [|b t IH]; [reflexivity|]. cbn [skip_while].
  destruct (p b).
  - pose proof (skip_while_length p t).
    replace (String.length (String b t) - String.length (skip_while p t))
      with (S (String.length t - String.length (skip_while p t)))
      by (cbn [String.length]; lia).
    cbn [drop]. exact IH.
  - now rewrite Nat.sub_diag.
Qed.

(** The label pattern is anchored: it matches at the start only. *)
Lemma thought_label_later rest pos ma :
  0 < pos -> match_at thought_label rest pos ma = None.
Proof.
  intros Hp. unfold match_at, thought_label. cbn [exec ms_pos].
  destruct (Nat.eqb_spec pos 0); [lia | reflexivity].
Qed.

Lemma thought_label_at_0 rest :
  match_at thought_label rest 0 false
  = match strip_prefix "**Thought**:" rest with
    | Some tail =>
        Some (RMatch 0
                (12 + (String.length tail
                       - String.length (skip_while isspace tail))) [])
    | None => None
    end.
Proof.
  unfold match_at, thought_label. cbn [exec ms_pos Nat.eqb andb].
  rewrite exec_lit. cbn [ms_rest ms_pos ms_caps].
  destruct (strip_prefix "**Thought**:" rest) as [tail|]; [|reflexivity].
  cbn [exec ms_rest ms_pos ms_caps].
  rewrite (rep_greedy_all CSpace
             (fun pos rest0 => Some (MState pos rest0 []))) by discriminate.
  reflexivity.
Qed.

Lemma scan_thought_label_later rest pos skip :
  0 < pos -> scan thought_label rest pos skip = [].
Proof.
  intros Hp. apply scan_nil. intros rest' pos' ma (pre & _ & ->).
  apply thought_label_later. lia.
Qed.

(** [re.sub(r'^\*\*Thought\*\*:\s*', '', s)] removes the label at the
    start of the text, and nothing else. *)
Lemma sub_thought_label s :
  sub_empty thought_label s = drop_thought_label s.
Proof.
  unfold sub_empty, finditer, drop_thought_label.
  pose proof (thought_label_at_0 s) as H0.
  destruct s as [|a s].
  - cbn [scan]. rewrite H0. reflexivity.
  - cbn [scan]. rewrite H0.
    destruct (strip_prefix "**Thought**:" (String a s)) as [tail|] eqn:Hp.
    + cbn [m_end Nat.eqb Nat.add].
      rewrite scan_thought_label_later by lia.
      cbn [cut_spans m_start m_end Nat.sub take append].
      apply strip_prefix_elim in Hp. rewrite Hp.
      cbn [append drop]. apply drop_skip_while.
    + rewrite scan_thought_label_later by lia. reflexivity.
Qed.

End LabelFacts.
Import LabelFacts.

(** X18.  The [generation_rationale] of an extracted thought is the
    paragraph that follows the first [**Rationale**:] of its text, or,
    where that marker does not occur, the first [Rationale:]: the text
    from the first character after the whitespace that follows the
    marker up to the next blank line or the end, with the whitespace at
    both ends removed; it is empty where neither marker occurs. *)
Theorem generation_rationale_read node_id m t :
  thought_of_match node_id m = Return t ->
  text_field t "generation_rationale"
  = Some (rationale_of (strip (snd m))).
Proof.
  unfold thought_of_match.
  destruct (int_of_str (fst m)); [|discriminate].
  pose proof (split_rationale_snd (strip (snd m))) as Hs.
  destruct (split_rationale rationale_patterns (strip (snd m)))
    as [desc rat].
  cbn [snd] in Hs. intros H; injection H as <-. subst rat. reflexivity.
Qed.

Lemma generation_rationale_read_witness :
  text_field
    [ ("thought_id", PStr "root-t1"); ("description", PStr "idea");
      ("generation_rationale", PStr "because") ] "generation_rationale"
  = Some (rationale_of (strip (snd ("1", "idea Rationale: because")))).
Proof.
  apply (generation_rationale_read "root" ("1", "idea Rationale: because")).
  reflexivity.
Defined.

(** X19.  Where the text of an item names no rationale, the
    [description] of the thought is that text without a leading
    [**Thought**:] label, with the whitespace at both ends removed. *)
Theorem description_without_rationale node_id m t :
  thought_of_match node_id m = Return t ->
  find_after "**Rationale**:" (strip (snd m)) = None ->
  find_after "Rationale:" (strip (snd m)) = None ->
  text_field t "description"
  = Some (strip (drop_thought_label (strip (snd m))))
  /\ text_field t "generation_rationale" = Some "".
Proof.
  unfold thought_of_match. intros H E1 E2.
  destruct (int_of_str (fst m)); [|discriminate].
  rewrite (split_rationale_no_marker _ E1 E2) in H.
  injection H as <-. rewrite sub_thought_label. split; reflexivity.
Qed.

Lemma description_without_rationale_witness :
  text_field
    [ ("thought_id", PStr "root-t2"); ("description", PStr "try induction");
      ("generation_rationale", PStr "") ] "description"
  = Some (strip (drop_thought_label
                   (strip (snd ("2", "**Thought**: try induction ")))))
  /\ text_field
       [ ("thought_id", PStr "root-t2"); ("description", PStr "try induction");
         ("generation_rationale", PStr "") ] "generation_rationale"
     = Some "".
Proof.
  apply (description_without_rationale "root"
           ("2", "**Thought**: try induction ")); reflexivity.
Defined.

(* ================================================================== *)
(** * What the texts of a thought are made of *)

Module PartFacts.
Local Open Scope string_scope.

Lemma part_of_refl s : part_of s s.
Proof. exists "", "". cbn. now rewrite append_empty_r. Qed.

Lemma part_of_trans a b c : part_of a b -> part_of b c -> part_of a c.
Proof.
  intros (p1 & q1 & ->) (p2 & q2 & ->).
  exists (p2 ++ p1), (q1 ++ q2). now rewrite !append_assoc.
Qed.

Lemma part_of_suffix pre s : part_of s (pre ++ s).
Proof. exists pre, "". now rewrite append_empty_r. Qed.

Lemma part_of_prefix s post : part_of s (s ++ post).
Proof. now exists "", post. Qed.

Lemma part_of_empty s : part_of "" s.
Proof. now exists "", s. Qed.

Lemma skip_while_part p s : part_of (skip_while p s) s.
Proof.
  induction s as [|c s IH]; [apply part_of_refl|]. cbn [skip_while].
  destruct (p c); [|apply part_of_refl].
  apply (part_of_trans _ s); [exact IH|]. apply (part_of_suffix (String c "")).
Qed.

Lemma lstrip_part s : part_of (lstrip s) s.
Proof.
  induction s as [|c s IH]; [apply part_of_refl|]. cbn [lstrip].
  destruct (isspace c); [|apply part_of_refl].
  apply (part_of_trans _ s); [exact IH|]. apply (part_of_suffix (String c "")).
Qed.

Lemma rstrip_by_prefix p s : exists post, s = rstrip_by p s ++ post.
Proof.
  induction s as [|c s (post & IH)]; [now exists ""|].
  rewrite rstrip_by_cons.
  destruct (rstrip_by p s) as [|d t] eqn:E.
  - destruct (p c).
    + now exists (String c s).
    + exists s. reflexivity.
  - exists post. cbn [append]. f_equal. exact IH.
Qed.

Lemma strip_part s : part_of (strip s) s.
Proof.
  unfold strip, rstrip. apply (part_of_trans _ (lstrip s)); [|apply lstrip_part].
  destruct (rstrip_by_prefix isspace (lstrip s)) as (post & E).
  rewrite E at 2. apply part_of_prefix.
Qed.

Lemma take_prefix n : forall s, exists post, s = take n s ++ post.
Proof.
  induction n as [|n IH]; intros [|c s]; cbn [take]; try (now eexists).
  destruct (IH s) as (post & E). exists post. cbn [append]. f_equal. exact E.
Qed.

Lemma take_part n s : part_of (take n s) s.
Proof.
  destruct (take_prefix n s) as (post & E). rewrite E at 2.
  apply part_of_prefix.
Qed.

Lemma strip_prefix_part marker s tail :
  strip_prefix marker s = Some tail -> part_of tail s.
Proof.
  intros H. apply strip_prefix_elim in H. subst. apply part_of_suffix.
Qed.

Lemma find_after_part marker : forall s tail,
  find_after marker s = Some tail -> part_of tail s.
Proof.
  induction s as [|c s IH]; intros tail; cbn [find_after].
  - destruct (strip_prefix marker "") eqn:E; [|discriminate].
    intros H; injection H as <-. now apply strip_prefix_part in E.
  - destruct (strip_prefix marker (String c s)) eqn:E.
    + intros H; injection H as <-. now apply strip_prefix_part in E.
    + intros H. apply (part_of_trans _ s); [now apply IH|].
      apply (part_of_suffix (String c "")).
Qed.

Lemma up_to_paragraph_end_part s : part_of (up_to_paragraph_end s) s.
Proof.
  rewrite <- take_up_to. apply take_part.
Qed.

Lemma rationale_after_part tail : part_of (rationale_after tail) tail.
Proof.
  unfold rationale_after.
  eapply part_of_trans; [apply strip_part|].
  eapply part_of_trans; [apply up_to_paragraph_end_part|].
  apply skip_while_part.
Qed.

Lemma rationale_of_part s : part_of (rationale_of s) s.
Proof.
  unfold rationale_of.
  destruct (find_after "**Rationale**:" s) as [t1|] eqn:E1.
  - eapply part_of_trans; [apply rationale_after_part|].
    now apply find_after_part in E1.
  - destruct (find_after "Rationale:" s) as [t2|] eqn:E2;
      [|apply part_of_empty].
    eapply part_of_trans; [apply rationale_after_part|].
    now apply find_after_part in E2.
Qed.

Lemma drop_thought_label_part s : part_of (drop_thought_label s) s.
Proof.
  unfold drop_thought_label.
  destruct (strip_prefix "**Thought**:" s) as [tail|] eqn:E;
    [|apply part_of_refl].
  eapply part_of_trans; [apply skip_while_part|].
  now apply strip_prefix_part in E.
Qed.

Lemma split_head_part r s : part_of (split_head r s) s.
Proof.
  unfold split_head. destruct (search r s); [apply take_part|apply part_of_refl].
Qed.

Lemma split_rationale_fst_part ps : forall s,
  part_of (fst (split_rationale ps s)) s.
Proof.
  induction ps as [|p ps IH]; intros s; cbn [split_rationale].
  - apply part_of_refl.
  - destruct (search (p true) s); [|apply IH]. cbn [fst].
    eapply part_of_trans; [apply strip_part | apply split_head_part].
Qed.

(** The two texts of a thought are pieces of the text of its item. *)
Lemma thought_of_match_parts node_id m t :
  thought_of_match node_id m = Return t ->
  exists d r,
    text_field t "description" = Some d
    /\ text_field t "generation_rationale" = Some r
    /\ part_of d (snd m) /\ part_of r (snd m).
Proof.
  unfold thought_of_match.
  destruct (int_of_str (fst m)); [|discriminate].
  pose proof (split_rationale_fst_part rationale_patterns (strip (snd m))) as Hd.
  pose proof (split_rationale_snd (strip (snd m))) as Hr.
  destruct (split_rationale rationale_patterns (strip (snd m))) as [desc rat].
  cbn [fst] in Hd. cbn [snd] in Hr. subst rat. intros H; injection H as <-.
  eexists _, _. split; [reflexivity|]. split; [reflexivity|]. split.
  - rewrite sub_thought_label.
    eapply part_of_trans; [apply strip_part|].
    eapply part_of_trans; [apply drop_thought_label_part|].
    eapply part_of_trans; [exact Hd | apply strip_part].
  - eapply part_of_trans; [apply rationale_of_part | apply strip_part].
Qed.

(** ** Where the text of an item ends *)

Lemma length_app (a b : string) :
  String.length (a ++ b) = String.length a + String.length b.
Proof. induction a as [|c a IH]; cbn; [reflexivity | now rewrite IH]. Qed.

(** What a run of a pattern consumed is a prefix of the text ahead. *)
Lemma denote_consumes r : forall s s',
  denote r s s' ->
  exists u, ms_rest s = u ++ ms_rest s'
            /\ ms_pos s' = ms_pos s + String.length u.
Proof.
  induction r; intros s s' H; cbn [denote] in H.
  - subst. exists "". cbn. auto.
  - destruct H as (a & Hr & _ & Hp & _). exists (String a ""). cbn.
    split; [exact Hr | lia].
  - destruct H as [_ ->]. exists "". cbn. auto.
  - destruct H as [_ ->]. exists "". cbn. auto.
  - destruct H as (s1 & H1 & H2).
    destruct (IHr1 _ _ H1) as (u1 & E1 & P1).
    destruct (IHr2 _ _ H2) as (u2 & E2 & P2).
    exists (u1 ++ u2). rewrite E1, E2, P2, P1, append_assoc.
    split; [reflexivity|]. rewrite length_app. lia.
  - destruct H as [H|H]; [apply IHr1 | apply IHr2]; exact H.
  - destruct H as (w & _ & _ & Hr & Hp & _). exists w. auto.
  - destruct H as (s1 & H1 & ->). cbn [ms_rest ms_pos]. now apply IHr.
  - destruct H as (s1 & _ & ->). exists "". cbn. auto.
Qed.

Section LazyMin.
Context {A : Type}.

(** The lazy repetition hands over at the first place its continuation
    accepts. *)
Lemma rep_lazy_min c (k : nat -> string -> option A) : forall t p x,
  rep_lazy c 0 t p k = Some x ->
  exists w t',
    t = w ++ t' /\ k (p + String.length w) t' = Some x
    /\ forall w1 w2, w = w1 ++ w2 -> w2 <> "" ->
         k (p + String.length w1) (w2 ++ t') = None.
Proof.
  induction t as [|a t IH]; intros p x H; cbn [rep_lazy Nat.eqb pred] in H;
    unfold or_else in H.
  - destruct (k p "") eqn:E; [|discriminate]. injection H as ->.
    exists "", "". cbn. rewrite Nat.add_0_r. repeat split; auto.
    intros [|? ?] [|? ?] Hw Hne; try discriminate. congruence.
  - destruct (k p (String a t)) eqn:E.
    + injection H as ->. exists "", (String a t). cbn. rewrite Nat.add_0_r.
      repeat split; auto.
      intros [|? ?] [|? ?] Hw Hne; try discriminate. congruence.
    + destruct (cls_mem c a); [|discriminate].
      destruct (IH _ _ H) as (w & t' & -> & Hk & Hmin).
      exists (String a w), t'. cbn [append String.length].
      replace (p + S (String.length w)) with (S p + String.length w) by lia.
      repeat split; auto.
      intros [|b w1] w2 Hw Hne; cbn [append String.length] in *.
      * subst w2. cbn [append]. now rewrite Nat.add_0_r.
      * injection Hw as <- ->.
        replace (p + S (String.length w1)) with (S p + String.length w1)
          by lia.
        now apply Hmin.
Qed.

End LazyMin.

(** [(.*?)(?=L)] as a group: the group ends at the first place where
    the lookahead holds and the rest of the pattern goes through. *)
Lemma exec_lazy_group n L s k x :
  exec (RSeq (RGroup n (RRep false 0 CAny)) (RAhead L)) s k = Some x ->
  exists w t',
    ms_rest s = w ++ t'
    /\ (exists s1,
          exec L (MState (ms_pos s + String.length w) t'
                    ((n, w) :: ms_caps s)) Some = Some s1
          /\ k (MState (ms_pos s + String.length w) t' (ms_caps s1))
             = Some x)
    /\ forall w1 w2, w = w1 ++ w2 -> w2 <> "" ->
         forall s1,
           exec L (MState (ms_pos s + String.length w1) (w2 ++ t')
                     ((n, w1) :: ms_caps s)) Some = Some s1 ->
           k (MState (ms_pos s + String.length w1) (w2 ++ t') (ms_caps s1))
           = None.
Proof.
  destruct s as [p t caps]. cbn [exec ms_rest ms_pos ms_caps]. intros H.
  apply rep_lazy_min in H as (w & t' & -> & Hk & Hmin).
  exists w, t'. split; [reflexivity|]. split.
  - rewrite take_consumed in Hk.
    destruct (exec L _ Some) as [s1|]; [|discriminate]. eauto.
  - intros w1 w2 -> Hne s1 He. specialize (Hmin w1 w2 eq_refl Hne).
    rewrite append_assoc, take_consumed in Hmin.
    now rewrite He in Hmin.
Qed.

Lemma has_digit_mark_split : forall s,
  has_digit_mark s = true ->
  exists pre c d post,
    s = pre ++ String c (String d post)
    /\ isdigit c = true /\ is_mark d = true.
Proof.
  induction s as [|c s IH]; [discriminate|]. cbn [has_digit_mark].
  intros H. apply orb_true_iff in H as [H|H].
  - destruct s as [|d s]; [discriminate|].
    apply andb_true_iff in H as [Hc Hd]. exists "", c, d, s. auto.
  - destruct (IH H) as (pre & c' & d & post & -> & Hc & Hd).
    exists (String c pre), c', d, post. auto.
Qed.

Lemma has_digit_mark_part a b :
  part_of a b -> has_digit_mark b = false -> has_digit_mark a = false.
Proof.
  intros (pre & post & ->) Hb.
  destruct (has_digit_mark a) eqn:Ha; [|reflexivity].
  apply has_digit_mark_split in Ha as (p & c & d & q & -> & Hc & Hd).
  exfalso. revert Hb. clear -Hc Hd.
  induction pre as [|x pre IH]; cbn [append].
  - induction p as [|y p IH]; cbn [append has_digit_mark].
    + now rewrite Hc, Hd.
    + intros H. apply orb_false_iff in H as [_ H]. now apply IH.
  - cbn [has_digit_mark]. intros H. apply orb_false_iff in H as [_ H].
    now apply IH.
Qed.

Lemma exec_seq r1 r2 s k :
  exec (RSeq r1 r2) s k = exec r1 s (fun s1 => exec r2 s1 k).
Proof. reflexivity. Qed.

Ltac peel H s D :=
  rewrite exec_seq in H; apply exec_sound in H as (s & D & H);
  cbv beta in H.

(** The lookahead of the numbered-list pattern holds before a digit
    that [.] or [:] follows. *)
Lemma numbered_stop_at_digit_mark pos c d rest caps :
  isdigit c = true -> is_mark d = true ->
  exec (RRep true 0 (CChar LF) ;;
        ((RRep true 1 CDigit ;; RChar (COneOf ".:")) <|> REos))%re
    (MState pos (String c (String d rest)) caps) Some <> None.
Proof.
  intros Hc Hd.
  apply (exec_complete _ _ _ (MState (S (S pos)) rest caps));
    [intros ? ? ? ? ?; discriminate | | discriminate].
  cbn [denote]. exists (MState pos (String c (String d rest)) caps). split.
  - exists "". cbn. repeat split; auto.
  - left. exists (MState (S pos) (String d rest) caps). split.
    + exists (String c ""). cbn. rewrite Hc. repeat split; auto. lia.
    + exists d. cbn. repeat split; auto.
Qed.

Lemma numbered_group2 rest pos ma m :
  match_at numbered_pattern rest pos ma = Some m ->
  part_of (m_group 2 m) rest /\ has_digit_mark (m_group 2 m) = false.
Proof.
  unfold match_at.
  destruct (exec numbered_pattern _ _) as [s'|] eqn:He; [|discriminate].
  intros H; injection H as <-. unfold numbered_pattern in He.
  peel He s1 D1. peel He s2 D2. peel He s3 D3. peel He s4 D4.
  apply denote_consumes in D1 as (u1 & E1 & P1).
  apply denote_consumes in D2 as (u2 & E2 & P2).
  apply denote_consumes in D3 as (u3 & E3 & P3).
  assert (Hn4 : 1 <= String.length (ms_rest s3) - String.length (ms_rest s4)
                /\ exists u4, ms_rest s3 = u4 ++ ms_rest s4
                     /\ ms_pos s4 = ms_pos s3 + String.length u4
                     /\ 1 <= String.length u4).
  { cbn [denote] in D4. destruct D4 as (w & Hw & _ & Hr & Hp & _).
    split; [rewrite Hr, length_app; lia | eauto]. }
  destruct Hn4 as (_ & u4 & E4 & P4 & N4).
  cbn [ms_rest ms_pos] in *.
  apply exec_lazy_group in He as (w & t' & Ew & (sl & Hl & Hk) & Hmin).
  assert (Hcaps : ms_caps sl = (2, w) :: ms_caps s4).
  { apply exec_sound in Hl as (sl' & Dl & Hsl). injection Hsl as ->.
    cbn [denote] in Dl. destruct Dl as (sa & (wa & _ & _ & _ & _ & Ca) & Db).
    cbn [ms_caps] in Ca. rewrite <- Ca.
    destruct Db as [(sb & (wb & _ & _ & _ & _ & Cb) & (a & _ & _ & _ & Cc))|[_ ->]];
      [congruence | reflexivity]. }
  assert (Hpos : pos < ms_pos s4 + String.length w) by lia.
  destruct (ma && (ms_pos s4 + String.length w =? pos)%nat) eqn:Hma.
  { apply andb_true_iff in Hma as [_ Hma]. apply Nat.eqb_eq in Hma. lia. }
  cbn [ms_pos] in Hk. rewrite Hma in Hk. injection Hk as <-.
  unfold m_group. cbn [m_caps ms_caps]. rewrite Hcaps.
  cbn [cap_lookup Nat.eqb]. split.
  - exists (u1 ++ u2 ++ u3 ++ u4), t'.
    rewrite E1, E2, E3, E4, Ew, !append_assoc. reflexivity.
  - destruct (has_digit_mark w) eqn:Hw; [|reflexivity]. exfalso.
    apply has_digit_mark_split in Hw as (pre & c & d & post & -> & Hc & Hd).
    pose proof (numbered_stop_at_digit_mark
                  (ms_pos s4 + String.length pre) c d (post ++ t')
                  ((2, pre) :: ms_caps s4) Hc Hd) as Hstop.
    destruct (exec _ (MState (ms_pos s4 + String.length pre) _ _) Some)
      as [sx|] eqn:Hx; [|congruence].
    specialize (Hmin pre (String c (String d post)) eq_refl
                  ltac:(discriminate) sx Hx).
    cbn [ms_pos] in Hmin.
    destruct (ma && (ms_pos s4 + String.length pre =? pos)%nat) eqn:Hma2;
      [|discriminate].
    apply andb_true_iff in Hma2 as [_ Hma2]. apply Nat.eqb_eq in Hma2. lia.
Qed.

Lemma denote_groupless r : forall s s',
  groupless r = true -> denote r s s' -> ms_caps s' = ms_caps s.
Proof.
  induction r; intros s s' Hg H; cbn [denote groupless] in *;
    try discriminate.
  - now subst.
  - now destruct H as (a & _ & _ & _ & Hc).
  - now destruct H as [_ ->].
  - now destruct H as [_ ->].
  - apply andb_true_iff in Hg as [G1 G2]. destruct H as (s1 & H1 & H2).
    rewrite (IHr2 _ _ G2 H2). now apply IHr1.
  - apply andb_true_iff in Hg as [G1 G2].
    destruct H as [H|H]; [now apply IHr1 | now apply IHr2].
  - now destruct H as (w & _ & _ & _ & _ & Hc).
  - destruct H as (s1 & H1 & ->). cbn [ms_caps]. now apply IHr.
Qed.

Lemma thought_n_group2 rest pos ma m :
  match_at thought_n_pattern rest pos ma = Some m ->
  part_of (m_group 2 m) rest.
Proof.
  unfold match_at.
  destruct (exec thought_n_pattern _ _) as [s'|] eqn:He; [|discriminate].
  intros H; injection H as <-. unfold thought_n_pattern in He.
  peel He s1 D1. peel He s2 D2. peel He s3 D3. peel He s4 D4.
  peel He s5 D5. peel He s6 D6.
  apply denote_consumes in D1 as (u1 & E1 & _).
  apply denote_consumes in D2 as (u2 & E2 & _).
  apply denote_consumes in D3 as (u3 & E3 & _).
  apply denote_consumes in D4 as (u4 & E4 & _).
  apply denote_consumes in D5 as (u5 & E5 & _).
  apply denote_consumes in D6 as (u6 & E6 & _).
  cbn [ms_rest ms_pos] in *.
  apply exec_lazy_group in He as (w & t' & Ew & (sl & Hl & Hk) & _).
  assert (Hcaps : ms_caps sl = (2, w) :: ms_caps s6).
  { apply exec_sound in Hl as (sl' & Dl & Hsl). injection Hsl as ->.
    now apply denote_groupless in Dl. }
  destruct (ma && _) in Hk; [discriminate|]. injection Hk as <-.
  unfold m_group. cbn [m_caps ms_caps]. rewrite Hcaps.
  cbn [cap_lookup Nat.eqb].
  exists (u1 ++ u2 ++ u3 ++ u4 ++ u5 ++ u6), t'.
  rewrite E1, E2, E3, E4, E5, E6, Ew, !append_assoc. reflexivity.
Qed.

Lemma reach_part content rest pos :
  reach content 0 rest pos -> part_of rest content.
Proof. intros (pre & -> & _). apply part_of_suffix. Qed.

(** The text of every item is a piece of the content. *)
Lemma all_matches_parts content :
  Forall (fun m => part_of (snd m) content) (all_matches content).
Proof.
  unfold all_matches, thought_patterns. cbn [flat_map].
  rewrite app_nil_r. apply Forall_app. split;
    unfold findall2, finditer; apply Forall_map; apply scan_Forall;
    intros rest pos ma m Hr Hm; cbn [snd];
    (eapply part_of_trans; [|apply (reach_part _ _ _ Hr)]).
  - now apply numbered_group2 in Hm.
  - now apply thought_n_group2 in Hm.
Qed.

Lemma numbered_matches_cut content :
  Forall (fun m => has_digit_mark (snd m) = false)
         (findall2 numbered_pattern content).
Proof.
  unfold findall2, finditer. apply Forall_map. apply scan_Forall.
  intros rest pos ma m _ Hm. cbn [snd]. now apply numbered_group2 in Hm.
Qed.

End PartFacts.
Import PartFacts.

(** X20.  The description and the rationale of every extracted
    thought are contiguous pieces of the text the thoughts were
    extracted from: nothing is added to the words of the answer, and
    nothing in them is reordered. *)
Theorem extracted_texts_are_parts content node_id thoughts :
  extract_thoughts content node_id = Return thoughts ->
  Forall (fun t =>
    exists description rationale,
      text_field t "description" = Some description
      /\ text_field t "generation_rationale" = Some rationale
      /\ part_of description content /\ part_of rationale content) thoughts.
Proof.
  intros H. apply extract_thoughts_Forall2 in H.
  pose proof (all_matches_parts content) as Hp. revert Hp H.
  generalize (all_matches content). intros ms Hp H.
  induction H as [|m t ms ts Hm _ IH]; constructor.
  - inversion Hp as [|? ? Hpm _]; subst.
    apply thought_of_match_parts in Hm as (d & r & Hd & Hr & Pd & Pr).
    exists d, r. repeat split; auto; eapply part_of_trans; eauto.
  - apply IH. now inversion Hp.
Qed.

Lemma extracted_texts_are_parts_witness :
  Forall (fun t =>
    exists description rationale,
      text_field t "description" = Some description
      /\ text_field t "generation_rationale" = Some rationale
      /\ part_of description ("1. idea Rationale: because")
      /\ part_of rationale ("1. idea Rationale: because"))
    [ [ ("thought_id", PStr "root-t1"); ("description", PStr "idea");
        ("generation_rationale", PStr "because") ] ].
Proof.
  apply (extracted_texts_are_parts "1. idea Rationale: because" "root").
  reflexivity.
Defined.

(** X21.  In an answer without [Thought N] lines, no description and
    no rationale holds a digit with [.] or [:] right after it: the
    text of a numbered item ends before the first such place (the
    numbered-list pattern takes it for the next label), wherever in
    the line it stands. *)
Theorem numbered_items_end_at_digit_mark content node_id thoughts :
  has_thought_n_line content = false ->
  extract_thoughts content node_id = Return thoughts ->
  Forall (fun t =>
    exists description rationale,
      text_field t "description" = Some description
      /\ text_field t "generation_rationale" = Some rationale
      /\ has_digit_mark description = false
      /\ has_digit_mark rationale = false) thoughts.
Proof.
  intros Hn H. apply extract_thoughts_Forall2 in H.
  pose proof (numbered_matches_cut content) as Hp. revert Hp H.
  unfold all_matches, thought_patterns. cbn [flat_map].
  rewrite (findall2_thought_n_nil content Hn), !app_nil_r.
  generalize (findall2 numbered_pattern content). intros ms Hp H.
  induction H as [|m t ms ts Hm _ IH]; constructor.
  - inversion Hp as [|? ? Hpm _]; subst.
    apply thought_of_match_parts in Hm as (d & r & Hd & Hr & Pd & Pr).
    exists d, r. repeat split; auto; eapply has_digit_mark_part; eauto.
  - apply IH. now inversion Hp.
Qed.

Lemma numbered_items_end_at_digit_mark_witness :
  Forall (fun t =>
    exists description rationale,
      text_field t "description" = Some description
      /\ text_field t "generation_rationale" = Some rationale
      /\ has_digit_mark description = false
      /\ has_digit_mark rationale = false)
    [ [ ("thought_id", PStr "root-t1"); ("description", PStr "scale by");
        ("generation_rationale", PStr "") ] ].
Proof.
  apply (numbered_items_end_at_digit_mark "1. scale by 2.5 units" "root");
    reflexivity.
Defined.

(* ================================================================== *)
(** * The first tool-use item *)

Module ToolUseFacts.
Local Open Scope string_scope.


End ToolUseFacts.
Import ToolUseFacts.


